(** * SEA-Builder: a shallow embedding of [src/index.js]

    The program packages a Node.js project into a single executable
    application.  It is an orchestration script: every stage talks to the
    file system or to an external tool (esbuild, js-confuser, a child
    [node] process, rcedit, postject).  The embedding keeps that shape:

    - the disk is a finite map from paths to file contents;
    - a stage is a computation over the disk which ends by returning, by
      throwing a JavaScript exception, or by [process.exit], and which
      emits the calls it makes as a journal of events;
    - the external tools are the fields of a [Host] record, so every
      theorem quantifies over what the tools answer. *)

From Stdlib Require Import ZArith NArith Ascii String List Bool Lia.
From stdpp Require Import base option list strings gmap.

Local Open Scope string_scope.

(** ** JavaScript helpers used by the script *)

Module Js.

(** [quote] is the double-quote character, [nl] a line feed. *)
Definition quote : string := String (ascii_of_nat 34) EmptyString.
Definition nl : string := String (ascii_of_nat 10) EmptyString.

(** Truthiness of a value that is [undefined] or a string: the empty
    string and [undefined] are falsy. *)
Definition truthy (v : option string) : bool :=
  match v with
  | Some s => negb (String.eqb s "")
  | None => false
  end.

(** [v === "lit"] for a value that is [undefined] or a string. *)
Definition strict_eq (v : option string) (lit : string) : bool :=
  match v with
  | Some s => String.eqb s lit
  | None => false
  end.

(** Template-literal interpolation of such a value. *)
Definition show (v : option string) : string :=
  match v with
  | Some s => s
  | None => "undefined"
  end.

(** Decimal rendering of a number in a template literal. *)
Definition digit (n : N) : string :=
  String (ascii_of_N (48 + n)) EmptyString.

Fixpoint decimal_fuel (fuel : nat) (n : N) (acc : string) : string :=
  match fuel with
  | O => acc
  | S fuel' =>
      let acc' := digit (n mod 10) ++ acc in
      if (n <? 10)%N then acc' else decimal_fuel fuel' (n / 10) acc'
  end.

Definition decimal (n : N) : string :=
  decimal_fuel (S (N.to_nat (N.log2 n))) n "".

Definition show_int (z : Z) : string :=
  match z with
  | Zneg p => "-" ++ decimal (Npos p)
  | _ => decimal (Z.to_N z)
  end.

(** The exit code of a child process, a number or [null]: [code === 0]
    and its rendering in a template literal. *)
Definition is_zero (code : option Z) : bool :=
  match code with
  | Some z => (z =? 0)%Z
  | None => false
  end.

Definition show_code (code : option Z) : string :=
  match code with
  | Some z => show_int z
  | None => "null"
  end.

(** *** [atob]: forgiving base64 decoding *)

Definition is_ascii_whitespace (c : ascii) : bool :=
  let n := nat_of_ascii c in
  (n =? 9)%nat || (n =? 10)%nat || (n =? 12)%nat || (n =? 13)%nat || (n =? 32)%nat.

Definition sextet (c : ascii) : option N :=
  let n := N_of_ascii c in
  if ((65 <=? n) && (n <=? 90))%N then Some (n - 65)%N
  else if ((97 <=? n) && (n <=? 122))%N then Some (n - 71)%N
  else if ((48 <=? n) && (n <=? 57))%N then Some (n + 4)%N
  else if (n =? 43)%N then Some 62%N
  else if (n =? 47)%N then Some 63%N
  else None.

Definition octet (n : N) : ascii := ascii_of_N (N.land n 255).

Fixpoint octets (l : list N) : list ascii :=
  match l with
  | a :: b :: c :: d :: rest =>
      let w := N.lor (N.lor (N.shiftl a 18) (N.shiftl b 12)) (N.lor (N.shiftl c 6) d) in
      octet (N.shiftr w 16) :: octet (N.shiftr w 8) :: octet w :: octets rest
  | [a; b; c] =>
      let w := N.shiftr (N.lor (N.lor (N.shiftl a 12) (N.shiftl b 6)) c) 2 in
      [octet (N.shiftr w 8); octet w]
  | [a; b] =>
      let w := N.shiftr (N.lor (N.shiftl a 6) b) 4 in
      [octet w]
  | _ => []
  end.

Definition strip_padding (l : list ascii) : list ascii :=
  if (length l mod 4 =? 0)%nat then
    match rev l with
    | "="%char :: "="%char :: r => rev r
    | "="%char :: r => rev r
    | _ => l
    end
  else l.

Fixpoint sextets (l : list ascii) : option (list N) :=
  match l with
  | [] => Some []
  | c :: r =>
      match sextet c, sextets r with
      | Some v, Some vs => Some (v :: vs)
      | _, _ => None
      end
  end.

(** [atob data]: [None] stands for the [InvalidCharacterError]. *)
Definition atob (data : string) : option string :=
  let l := List.filter (fun c => negb (is_ascii_whitespace c)) (list_ascii_of_string data) in
  let l := strip_padding l in
  if (length l mod 4 =? 1)%nat then None
  else match sextets l with
       | Some vs => Some (string_of_list_ascii (octets vs))
       | None => None
       end.

End Js.

(** ** The [path] module (POSIX flavour) *)

Module Path.

Definition slash : ascii := "/"%char.

Fixpoint split (l : list ascii) : list (list ascii) :=
  match l with
  | [] => [[]]
  | c :: r =>
      if Ascii.eqb c slash then [] :: split r
      else match split r with
           | h :: t => (c :: h) :: t
           | [] => [[c]]
           end
  end.

Definition seg_eqb (a b : list ascii) : bool :=
  String.eqb (string_of_list_ascii a) (string_of_list_ascii b).

Definition dot : list ascii := ["."%char].
Definition dotdot : list ascii := ["."%char; "."%char].

(** One step of [normalizeString]: the stack holds the segments kept so
    far, last one first. *)
Definition push_segment (allowAboveRoot : bool) (stack : list (list ascii))
    (seg : list ascii) : list (list ascii) :=
  if seg_eqb seg [] || seg_eqb seg dot then stack
  else if seg_eqb seg dotdot then
    match stack with
    | top :: below =>
        if seg_eqb top dotdot then seg :: stack else below
    | [] => if allowAboveRoot then [seg] else []
    end
  else seg :: stack.

Fixpoint intercalate (l : list (list ascii)) : list ascii :=
  match l with
  | [] => []
  | [s] => s
  | s :: r => (s ++ slash :: intercalate r)%list
  end.

Definition normalizeString (path : list ascii) (allowAboveRoot : bool) : list ascii :=
  intercalate (rev (fold_left (push_segment allowAboveRoot) (split path) [])).

Definition isAbsolute (path : list ascii) : bool :=
  match path with
  | c :: _ => Ascii.eqb c slash
  | [] => false
  end.

Definition endsWithSlash (path : list ascii) : bool :=
  match rev path with
  | c :: _ => Ascii.eqb c slash
  | [] => false
  end.

Definition normalize (p : string) : string :=
  let path := list_ascii_of_string p in
  match path with
  | [] => "."
  | _ =>
      let abs := isAbsolute path in
      let trailing := endsWithSlash path in
      let body := normalizeString path (negb abs) in
      match body with
      | [] => if abs then "/" else if trailing then "./" else "."
      | _ =>
          let body := if trailing then (body ++ [slash])%list else body in
          string_of_list_ascii (if abs then slash :: body else body)
      end
  end.

(** [path.join(...args)]: every argument must be a string, otherwise a
    [TypeError] is thrown (left injection, with its message). *)
Definition invalid_arg_of (argument : string) (v : option string) : string :=
  "The " ++ Js.quote ++ argument ++ Js.quote
    ++ " argument must be of type string. Received " ++ Js.show v.

Definition invalid_arg (v : option string) : string := invalid_arg_of "path" v.

Fixpoint join_args (joined : option string) (args : list (option string))
    : string + option string :=
  match args with
  | [] => inr joined
  | None :: _ => inl (invalid_arg None)
  | Some arg :: rest =>
      if String.eqb arg "" then join_args joined rest
      else join_args (Some match joined with
                           | None => arg
                           | Some j => j ++ "/" ++ arg
                           end) rest
  end.

Definition join (args : list (option string)) : string + string :=
  match join_args None args with
  | inl e => inl e
  | inr None => inr "."
  | inr (Some joined) => inr (normalize joined)
  end.

(** [path.resolve(p)] with a single string argument, relative to the
    current working directory [cwd]. *)
Definition resolve (cwd p : string) : string :=
  let step (acc : string * bool) (path : string) : string * bool :=
    if snd acc then acc
    else if String.eqb path "" then acc
    else (path ++ "/" ++ fst acc, isAbsolute (list_ascii_of_string path)) in
  let '(resolvedPath, resolvedAbsolute) := fold_left step [p; cwd] ("", false) in
  let body := normalizeString (list_ascii_of_string resolvedPath) (negb resolvedAbsolute) in
  if resolvedAbsolute then string_of_list_ascii (slash :: body)
  else match body with
       | [] => "."
       | _ => string_of_list_ascii body
       end.

(** [path.dirname(p)]. *)
Fixpoint drop_while_slash (l : list ascii) : list ascii :=
  match l with
  | c :: r => if Ascii.eqb c slash then drop_while_slash r else l
  | [] => []
  end.

Fixpoint after_next_slash (l : list ascii) : option (list ascii) :=
  match l with
  | c :: r => if Ascii.eqb c slash then Some r else after_next_slash r
  | [] => None
  end.

Definition dirname (p : string) : string :=
  match list_ascii_of_string p with
  | [] => "."
  | first :: rest =>
      let hasRoot := Ascii.eqb first slash in
      match after_next_slash (drop_while_slash (rev rest)) with
      | None => if hasRoot then "/" else "."
      | Some [] => if hasRoot then "//" else string_of_list_ascii [first]
      | Some before => string_of_list_ascii (first :: rev before)
      end
  end.

End Path.

(** ** [semver]: version comparison

    [process.version] as [semver] parses it: the three numbers and the
    prerelease identifiers, numeric ones as numbers. *)

Module Semver.

Inductive identifier :=
| Numeric (n : N)
| Alnum (s : string).

Record t := mk {
  major : N;
  minor : N;
  patch : N;
  prerelease : list identifier
}.

Definition compareNum (a b : N) : comparison := N.compare a b.

(** [compareIdentifiers]: numbers sort before alphanumeric identifiers. *)
Definition compareIdentifiers (a b : identifier) : comparison :=
  match a, b with
  | Numeric x, Numeric y => N.compare x y
  | Numeric _, Alnum _ => Lt
  | Alnum _, Numeric _ => Gt
  | Alnum x, Alnum y => String.compare x y
  end.

Definition compareMain (a b : t) : comparison :=
  match compareNum (major a) (major b) with
  | Eq =>
      match compareNum (minor a) (minor b) with
      | Eq => compareNum (patch a) (patch b)
      | c => c
      end
  | c => c
  end.

Fixpoint comparePreLoop (a b : list identifier) : comparison :=
  match a, b with
  | [], [] => Eq
  | _ :: _, [] => Gt
  | [], _ :: _ => Lt
  | x :: a', y :: b' =>
      match compareIdentifiers x y with
      | Eq => comparePreLoop a' b'
      | c => c
      end
  end.

Definition comparePre (a b : t) : comparison :=
  match prerelease a, prerelease b with
  | _ :: _, [] => Lt
  | [], _ :: _ => Gt
  | [], [] => Eq
  | pa, pb => comparePreLoop pa pb
  end.

Definition compare (a b : t) : comparison :=
  match compareMain a b with
  | Eq => comparePre a b
  | c => c
  end.

Definition gte (a b : t) : bool :=
  match compare a b with
  | Lt => false
  | _ => true
  end.

(** The numbers [semver] accepts in a version: it throws on a larger one. *)
Definition MAX_SAFE_INTEGER : N := 9007199254740991.

Definition safe (v : t) : Prop :=
  (major v <= MAX_SAFE_INTEGER)%N /\ (minor v <= MAX_SAFE_INTEGER)%N /\
  (patch v <= MAX_SAFE_INTEGER)%N.

(** Template-literal rendering of the version, as [process.version]
    prints it. *)
Definition decimal := Js.decimal.

Definition show_identifier (i : identifier) : string :=
  match i with
  | Numeric n => decimal n
  | Alnum s => s
  end.

Fixpoint show_prerelease (l : list identifier) : string :=
  match l with
  | [] => ""
  | [i] => show_identifier i
  | i :: r => show_identifier i ++ "." ++ show_prerelease r
  end.

Definition show (v : t) : string :=
  "v" ++ decimal (major v) ++ "." ++ decimal (minor v) ++ "." ++ decimal (patch v)
    ++ match prerelease v with
       | [] => ""
       | l => "-" ++ show_prerelease l
       end.

End Semver.

(** ** The disk, the journal and the stage monad *)

(** Files on disk: path to content.  Directories are not tracked. *)
Abbreviation Disk := (gmap string string).

(** The [fs] calls the script makes. *)
Inductive FsOp :=
| OpRead (path : string)
| OpWrite (path data : string)
| OpUnlink (path : string)
| OpMkdir (path : string)
| OpCopy (src dest : string).

Record InjectOptions := {
  sentinelFuse : string;
  machoSegmentName : option string
}.

(** Calls that leave the script: file system and external tools. *)
Inductive Call :=
| Fs (op : FsOp)
| EsbuildBuild (entryPoint : option string) (outfile : string)
| JsConfuserObfuscate (code : string)
| SpawnNode (args : list string)
| Rcedit (executable icon : string)
| PostjectInject (executable segment blob : string) (options : InjectOptions).

(** A call succeeds and leaves the disk in some state, or fails with a
    message. *)
Inductive Outcome :=
| Done (after : Disk)
| Failed (message : string).

Inductive Level := LevelInfo | LevelWarn | LevelError.

(** The journal records console and logger output and every call, with
    the disk the call started on and its outcome. *)
Inductive Event :=
| Splash
| ConsoleError (text : string)
| Log (level : Level) (text : string)
| Called (call : Call) (before : Disk) (outcome : Outcome).

(** Events can be compared, so that membership in an explicit journal
    is decided by computation. *)
#[global] Instance FsOp_eq_dec : EqDecision FsOp.
Proof. solve_decision. Defined.

#[global] Instance InjectOptions_eq_dec : EqDecision InjectOptions.
Proof. solve_decision. Defined.

#[global] Instance Call_eq_dec : EqDecision Call.
Proof. solve_decision. Defined.

#[global] Instance Outcome_eq_dec : EqDecision Outcome.
Proof. solve_decision. Defined.

#[global] Instance Level_eq_dec : EqDecision Level.
Proof. solve_decision. Defined.

#[global] Instance Event_eq_dec : EqDecision Event.
Proof. solve_decision. Defined.

(** How a computation ends: normally, by a thrown [Error] (its message),
    or by [process.exit]. *)
Inductive completion (A : Type) :=
| Returned (a : A)
| Thrown (message : string)
| Exited (code : Z).
Arguments Returned {A} a.
Arguments Thrown {A} message.
Arguments Exited {A} code.

Record step (A : Type) := Step {
  result : completion A;
  disk_after : Disk;
  emitted : list Event
}.
Arguments Step {A} result disk_after emitted.
Arguments result {A} s.
Arguments disk_after {A} s.
Arguments emitted {A} s.

Definition M (A : Type) : Type := Disk -> step A.

Definition ret {A} (a : A) : M A := fun d => Step (Returned a) d [].

Definition bind {A B} (m : M A) (k : A -> M B) : M B := fun d =>
  match m d with
  | Step (Returned a) d1 journal1 =>
      match k a d1 with
      | Step r d2 journal2 => Step r d2 (journal1 ++ journal2)
      end
  | Step (Thrown e) d1 journal1 => Step (Thrown e) d1 journal1
  | Step (Exited c) d1 journal1 => Step (Exited c) d1 journal1
  end.

#[global] Instance M_ret : MRet M := @ret.
#[global] Instance M_bind : MBind M := fun A B k m => bind m k.

Definition throw {A} (message : string) : M A := fun d => Step (Thrown message) d [].

Definition process_exit {A} (code : Z) : M A := fun d => Step (Exited code) d [].

(** [try { body } catch (error) { handler(error.message) }]: a
    [process.exit] is not an exception and passes through. *)
Definition try_catch {A} (body : M A) (handler : string -> M A) : M A := fun d =>
  match body d with
  | Step (Thrown e) d1 journal1 =>
      match handler e d1 with
      | Step r d2 journal2 => Step r d2 (journal1 ++ journal2)
      end
  | s => s
  end.

(** An [async] function called without [await]: when it rejects, nothing
    handles the rejection and node ends the process with status 1. *)
Definition detached {A} (m : M A) : M A := fun d =>
  match m d with
  | Step (Thrown e) d1 journal1 => Step (Exited 1) d1 journal1
  | s => s
  end.

Definition emit (e : Event) : M unit := fun d => Step (Returned tt) d [e].

(** A value that may be a thrown [TypeError] (pure helpers). *)
Definition lift {A} (v : string + A) : M A :=
  match v with
  | inl e => throw e
  | inr a => ret a
  end.

(** ** The host: runtime, operating system and external tools *)

Record Host := {
  (** [process.version], [process.execPath], [process.cwd()], [process.env.APPDATA] *)
  process_version : Semver.t;
  process_execPath : string;
  process_cwd : string;
  env_APPDATA : option string;
  (** the dynamic imports of chalk, figlet and log4js: resolved, or rejected
      with a message *)
  dynamic_imports : option string;
  (** [figlet.textSync]: the banner, or the error thrown when the font
      cannot be loaded *)
  figlet_textSync : string + string;
  (** the operating system refuses an [fs] call before it has any effect
      (permissions, locks) *)
  os_denies : FsOp -> Disk -> bool;
  (** the operating system lets a write or a copy start and fails it after
      so many bytes, with a message (a full disk, an I/O error) *)
  os_cuts : FsOp -> Disk -> option (nat * string);
  (** [esbuild.build]: an error message, or the disk with the bundle written *)
  esbuild_build : option string -> string -> Disk -> string + Disk;
  (** [JsConfuser.obfuscate(code, policy)]: an error message or the transformed code *)
  JsConfuser_obfuscate : string -> string + string;
  (** the child [node] process: it cannot start, or it closes with an exit
      code ([null] when a signal ended it), its two streams and the disk as
      it leaves it *)
  node_child : list string -> Disk -> string + (option Z * string * string * Disk);
  (** [rcedit(executable, {icon})] *)
  rcedit : string -> string -> Disk -> string + Disk;
  (** [postject.inject(executable, segment, blob, options)] *)
  postject_inject : string -> string -> string -> InjectOptions -> Disk -> string + Disk
}.

(** ** [commander]: the command line

    [program.parse(process.argv)] as commander implements it (versions up
    to 12): [parseOptions] looks at each argument in turn, as a declared
    flag, as a cluster of short flags, as [--flag=value], and else as an
    operand or an unknown option; then [_parseCommand] displays the help
    when asked to, checks the mandatory options and refuses unknown
    options.  Operands are allowed and ignored. *)

Module Commander.

Inductive value :=
| Str (s : string)
| Flag.

Record option_spec := {
  short : string;
  long : string;
  name : string;
  takes_value : bool;
  mandatory : bool
}.

(** Why the parser ended the process. *)
Inductive exit_reason :=
| HelpDisplayed
| VersionDisplayed (version : string)
| OptionMissingArgument (o : option_spec)
| MissingMandatoryOptionValue (o : option_spec)
| UnknownOption (arg : string).

Inductive outcome :=
| Parsed (opts : gmap string value)
| Exit (code : Z) (reason : exit_reason).

(** The option [.version(...)] registers, ahead of the program's own. *)
Definition versionOption : option_spec := {|
  short := "-V"; long := "--version"; name := "version";
  takes_value := false; mandatory := false
|}.

Definition matches (o : option_spec) (arg : string) : bool :=
  String.eqb (short o) arg || String.eqb (long o) arg.

Definition findOption (table : list option_spec) (arg : string) : option option_spec :=
  List.find (fun o => matches o arg) table.

Definition maybeOption (arg : string) : bool :=
  (1 <? String.length arg)%nat && String.prefix "-" arg.

Definition isHelpFlag (arg : string) : bool :=
  String.eqb arg "-h" || String.eqb arg "--help".

(** What one argument turns out to be, once the boolean flags clustered
    in front of it have been taken off. *)
Inductive final :=
| Needs (o : option_spec)
| Switch (o : option_spec)
| Valued (o : option_spec) (v : string)
| Literal
| Other (arg : string).

(** [--key=value], for the test [/^--[^=]+=/] and the split at the first
    equals sign. *)
Fixpoint break_at_equals (l : list ascii) : option (list ascii * list ascii) :=
  match l with
  | [] => None
  | c :: r =>
      if Ascii.eqb c "="%char then Some ([], r)
      else match break_at_equals r with
           | Some (key, v) => Some (c :: key, v)
           | None => None
           end
  end.

Definition longWithValue (arg : string) : option (string * string) :=
  match list_ascii_of_string arg with
  | "-"%char :: "-"%char :: body =>
      match break_at_equals body with
      | Some (c :: key, v) =>
          Some ("--" ++ string_of_list_ascii (c :: key), string_of_list_ascii v)
      | _ => None
      end
  | _ => None
  end.

(** One round of the loop for the argument [-chars]: the literal [--], a
    declared flag, a cluster whose first letter is a declared short flag
    (its value is the rest of the argument, or it is boolean and the rest
    is put back with a dash in front), [--flag=value], or none of these. *)
Fixpoint dashed (table : list option_spec) (chars : list ascii)
    : list option_spec * final :=
  let arg := String "-"%char (string_of_list_ascii chars) in
  let unrecognised :=
    match longWithValue arg with
    | Some (key, v) =>
        match findOption table key with
        | Some o => if takes_value o then Valued o v else Other arg
        | None => Other arg
        end
    | None => Other arg
    end in
  if String.eqb arg "--" then ([], Literal)
  else
    match (if maybeOption arg then findOption table arg else None) with
    | Some o => ([], if takes_value o then Needs o else Switch o)
    | None =>
        match chars with
        | c :: rest =>
            match rest with
            | _ :: _ =>
                if Ascii.eqb c "-"%char then ([], unrecognised)
                else
                  match findOption table (String "-"%char (String c EmptyString)) with
                  | Some o =>
                      if takes_value o then ([], Valued o (string_of_list_ascii rest))
                      else
                        match dashed table rest with
                        | (switches, last) => (o :: switches, last)
                        end
                  | None => ([], unrecognised)
                  end
            | [] => ([], unrecognised)
            end
        | [] => ([], unrecognised)
        end
    end.

Definition classify (table : list option_spec) (arg : string) : list option_spec * final :=
  match arg with
  | String c rest =>
      if Ascii.eqb c "-"%char then dashed table (list_ascii_of_string rest)
      else ([], Other arg)
  | EmptyString => ([], Other arg)
  end.

(** The listeners of the boolean options: the version option prints the
    version and exits, any other is set to [true]. *)
Fixpoint switchOn (version : string) (switches : list option_spec)
    (values : gmap string value) : (Z * exit_reason) + gmap string value :=
  match switches with
  | [] => inr values
  | o :: rest =>
      if String.eqb (name o) "version" then inl (0%Z, VersionDisplayed version)
      else switchOn version rest (<[name o := Flag]> values)
  end.

(** The loop of [parseOptions]: the values so far and the unknown
    arguments (the first unknown option and what is not recognised after
    it), or an immediate exit. *)
Fixpoint parseOptions (table : list option_spec) (version : string)
    (args : list string) (values : gmap string value) (unknown : list string)
    : (Z * exit_reason) + (gmap string value * list string) :=
  match args with
  | [] => inr (values, unknown)
  | arg :: rest =>
      match classify table arg with
      | (switches, last) =>
          match switchOn version switches values with
          | inl exit => inl exit
          | inr values =>
              match last with
              | Literal =>
                  inr (values, match unknown with
                               | [] => []
                               | _ :: _ => (unknown ++ "--" :: rest)%list
                               end)
              | Needs o =>
                  match rest with
                  | v :: rest' =>
                      parseOptions table version rest' (<[name o := Str v]> values) unknown
                  | [] => inl (1%Z, OptionMissingArgument o)
                  end
              | Switch o =>
                  match switchOn version [o] values with
                  | inl exit => inl exit
                  | inr values => parseOptions table version rest values unknown
                  end
              | Valued o v =>
                  parseOptions table version rest (<[name o := Str v]> values) unknown
              | Other a =>
                  parseOptions table version rest values
                    (match unknown with
                     | [] => if maybeOption a then [a] else []
                     | _ :: _ => (unknown ++ [a])%list
                     end)
              end
          end
      end
  end.

Definition missingMandatory (table : list option_spec) (opts : gmap string value)
    : option option_spec :=
  List.find (fun o => mandatory o && negb (bool_decide (is_Some (opts !! name o)))) table.

(** [_parseCommand]: help, then mandatory options, then unknown options. *)
Definition parse (table : list option_spec) (version : string) (args : list string)
    : outcome :=
  match parseOptions (versionOption :: table) version args ∅ [] with
  | inl (code, reason) => Exit code reason
  | inr (opts, unknown) =>
      if existsb isHelpFlag unknown then Exit 0 HelpDisplayed
      else
        match missingMandatory table opts with
        | Some o => Exit 1 (MissingMandatoryOptionValue o)
        | None =>
            match unknown with
            | u :: _ => Exit 1 (UnknownOption u)
            | [] => Parsed opts
            end
        end
  end.

(** Reading a property of [program.opts()]: a string, or [undefined]. *)
Definition get (opts : gmap string value) (key : string) : option string :=
  match opts !! key with
  | Some (Str s) => Some s
  | _ => None
  end.

Definition flag (opts : gmap string value) (key : string) : bool :=
  bool_decide (is_Some (opts !! key)).

End Commander.

(** ** The script *)

(** [chalk] only colours its argument; the colour codes are left out. *)
Definition chalk (text : string) : string := text.

Record SeaConfig := {
  main_module : string;
  output : string;
  disableExperimentalSEAWarning : bool
}.

(** [JSON.stringify(seaConfig, null, 2)]: a quote, a backslash and the
    control characters are escaped in a string, members are indented by two
    spaces. *)
Definition hex_digit (n : nat) : ascii :=
  ascii_of_nat (if (n <? 10)%nat then 48 + n else 87 + n).

Definition json_escape_char (c : ascii) : string :=
  let code := nat_of_ascii c in
  let escaped (letter : ascii) := String "\"%char (String letter EmptyString) in
  if Ascii.eqb c (ascii_of_nat 34) then String "\"%char Js.quote
  else if Ascii.eqb c "\"%char then escaped "\"%char
  else if (code =? 8)%nat then escaped "b"%char
  else if (code =? 9)%nat then escaped "t"%char
  else if (code =? 10)%nat then escaped "n"%char
  else if (code =? 12)%nat then escaped "f"%char
  else if (code =? 13)%nat then escaped "r"%char
  else if (code <? 32)%nat then
    "\u00" ++ String (hex_digit (code / 16)) (String (hex_digit (code mod 16)) EmptyString)
  else String c EmptyString.

Definition json_string (s : string) : string :=
  Js.quote ++ String.concat "" (map json_escape_char (list_ascii_of_string s)) ++ Js.quote.

Definition json_bool (b : bool) : string := if b then "true" else "false".

Definition JSON_stringify (c : SeaConfig) : string :=
  "{" ++ Js.nl
    ++ "  " ++ json_string "main" ++ ": " ++ json_string (main_module c) ++ "," ++ Js.nl
    ++ "  " ++ json_string "output" ++ ": " ++ json_string (output c) ++ "," ++ Js.nl
    ++ "  " ++ json_string "disableExperimentalSEAWarning" ++ ": "
    ++ json_bool (disableExperimentalSEAWarning c) ++ Js.nl
    ++ "}".

Definition outputFile : string := "out.js".

Definition seaConfig : SeaConfig := {|
  main_module := outputFile;
  output := "sea-prep.blob";
  disableExperimentalSEAWarning := true
|}.

Definition minimum_version : Semver.t := Semver.mk 19 9 0 [].

Definition program_options : list Commander.option_spec := [
  {| Commander.short := "-i"; Commander.long := "--input"; Commander.name := "input";
     Commander.takes_value := true; Commander.mandatory := true |};
  {| Commander.short := "-icon"; Commander.long := "--icon"; Commander.name := "icon";
     Commander.takes_value := true; Commander.mandatory := false |};
  {| Commander.short := "-p"; Commander.long := "--platform"; Commander.name := "platform";
     Commander.takes_value := true; Commander.mandatory := true |};
  {| Commander.short := "-o"; Commander.long := "--obfuscate"; Commander.name := "obfuscate";
     Commander.takes_value := false; Commander.mandatory := false |}
].

Definition FUSE_LITERAL : string :=
  "Tk9ERV9TRUFfRlVTRV9mY2U2ODBhYjJjYzQ2N2I2ZTA3MmI4YjVkZjE5OTZiMg==".

Section Script.

Context (h : Host).

(** *** [fs] *)

Definition eperm (syscall path : string) : string :=
  "EPERM: operation not permitted, " ++ syscall ++ " '" ++ path ++ "'".

Definition enoent (syscall path : string) : string :=
  "ENOENT: no such file or directory, " ++ syscall ++ " '" ++ path ++ "'".

Definition exists_on (d : Disk) (path : option string) : bool :=
  match path with
  | Some p => bool_decide (is_Some (d !! p))
  | None => false
  end.

Definition existsSync (path : option string) : M bool := fun d =>
  Step (Returned (exists_on d path)) d [].

(** One [fs] call: refused by the operating system, failing on its own
    (missing file), or performed. *)
Definition fs_call {A} (op : FsOp) (syscall path : string)
    (effect : Disk -> option (A * Disk)) : M A := fun d =>
  if os_denies h op d then
    Step (Thrown (eperm syscall path)) d [Called (Fs op) d (Failed (eperm syscall path))]
  else
    match effect d with
    | None =>
        Step (Thrown (enoent syscall path)) d [Called (Fs op) d (Failed (enoent syscall path))]
    | Some (a, d') => Step (Returned a) d' [Called (Fs op) d (Done d')]
    end.

Definition readFileSync (path : string) : M string :=
  fs_call (OpRead path) "open" path
    (fun d => match d !! path with Some data => Some (data, d) | None => None end).

(** A call that writes a file: refused, failing on its own (missing
    source), cut after the file was created or truncated and a prefix of
    the data written, or performed. *)
Definition fs_write (op : FsOp) (syscall named target : string)
    (source : Disk -> option string) : M unit := fun d =>
  if os_denies h op d then
    Step (Thrown (eperm syscall named)) d [Called (Fs op) d (Failed (eperm syscall named))]
  else
    match source d with
    | None =>
        Step (Thrown (enoent syscall named)) d
          [Called (Fs op) d (Failed (enoent syscall named))]
    | Some data =>
        match os_cuts h op d with
        | Some cut =>
            Step (Thrown (snd cut)) (<[target := String.substring 0 (fst cut) data]> d)
              [Called (Fs op) d (Failed (snd cut))]
        | None =>
            Step (Returned tt) (<[target := data]> d)
              [Called (Fs op) d (Done (<[target := data]> d))]
        end
    end.

Definition writeFileSync (path data : string) : M unit :=
  fs_write (OpWrite path data) "open" path path (fun _ => Some data).

Definition unlinkSync (path : string) : M unit :=
  fs_call (OpUnlink path) "unlink" path
    (fun d => match d !! path with Some _ => Some (tt, delete path d) | None => None end).

(** [fs.mkdirSync(path, { recursive: true })] creates a directory, which
    the disk, a map of files, does not show: no file changes. *)
Definition mkdirSync_recursive (path : string) : M unit :=
  fs_call (OpMkdir path) "mkdir" path (fun d => Some (tt, d)).

Definition copyFileSync (src dest : string) : M unit :=
  fs_write (OpCopy src dest) "copyfile" src dest (fun d => d !! src).

(** *** logging *)

(** [showSplash]: the banner is drawn first, and [figlet.textSync] throws
    when it cannot load its font; then the usage is printed. *)
Definition showSplash : M unit :=
  banner ← lift (figlet_textSync h);
  emit Splash.
Definition console_error (text : string) : M unit := emit (ConsoleError text).
Definition logger_info (text : string) : M unit := emit (Log LevelInfo text).
Definition logger_warn (text : string) : M unit := emit (Log LevelWarn text).
Definition logger_error (text : string) : M unit := emit (Log LevelError text).

(** *** external tools: a rejected promise is a thrown error *)

Definition tool (c : Call) (answer : Disk -> string + Disk) : M unit := fun d =>
  match answer d with
  | inl e => Step (Thrown e) d [Called c d (Failed e)]
  | inr d' => Step (Returned tt) d' [Called c d (Done d')]
  end.

Definition JsConfuser_call (code : string) : M string := fun d =>
  match JsConfuser_obfuscate h code with
  | inl e => Step (Thrown e) d [Called (JsConfuserObfuscate code) d (Failed e)]
  | inr text => Step (Returned text) d [Called (JsConfuserObfuscate code) d (Done d)]
  end.

(** *** the stages *)

Definition obfuscateOutputFile (outputFile : string) : M unit :=
  code ← readFileSync outputFile;
  obfuscated ← JsConfuser_call code;
  writeFileSync outputFile obfuscated.

Definition getExecutableOutputPath (platform : option string) : string + string :=
  let outputDir := "dist" in
  let executableName := if Js.strict_eq platform "win32" then "out.exe" else "out" in
  Path.join [Some outputDir; Some executableName].

Definition bundleProject (input : option string) : M unit :=
  tool (EsbuildBuild input outputFile) (esbuild_build h input outputFile).

Definition spawnNode (seaConfigPath : string) : M (string * string) := fun d =>
  let args := ["--experimental-sea-config"; seaConfigPath] in
  match node_child h args d with
  | inl e => Step (Thrown e) d [Called (SpawnNode args) d (Failed e)]
  | inr (code, stdout, stderr, d') =>
      if Js.is_zero code then
        Step (Returned (stdout, stderr)) d' [Called (SpawnNode args) d (Done d')]
      else
        let e := "Node process exited with code " ++ Js.show_code code ++ Js.nl
                   ++ "STDOUT:" ++ Js.nl ++ stdout ++ Js.nl
                   ++ "STDERR:" ++ Js.nl ++ stderr in
        Step (Thrown e) d' [Called (SpawnNode args) d (Failed e)]
  end.

Definition generateSEABlob (seaConfig : SeaConfig) : M unit :=
  let seaConfigPath := "sea-config.json" in
  writeFileSync seaConfigPath (JSON_stringify seaConfig) ;;
  streams ← spawnNode seaConfigPath;
  created ← existsSync (Some (output seaConfig));
  (if negb created then
     throw ("SEA preparation blob file was not created: " ++ output seaConfig ++ Js.nl
              ++ "STDERR:" ++ Js.nl ++ snd streams)
   else ret tt) ;;
  unlinkSync seaConfigPath.

Definition createExecutableCopy (executableOutputPath : string) : M unit :=
  let nodeExecutablePath := process_execPath h in
  let executableOutputDir := Path.dirname executableOutputPath in
  mkdirSync_recursive executableOutputDir ;;
  copyFileSync nodeExecutablePath executableOutputPath.

(** [path.resolve(iconPath)] throws on a value that is not a string; it
    names its argument [paths[0]]. *)
Definition path_resolve (p : option string) : string + string :=
  match p with
  | Some s => inr (Path.resolve (process_cwd h) s)
  | None => inl (Path.invalid_arg_of "paths[0]" None)
  end.

Definition setIcon (executable : string) (iconPath : option string) : M unit :=
  try_catch
    (resolved ← lift (path_resolve iconPath);
     tool (Rcedit executable resolved) (rcedit h executable resolved))
    (fun message => logger_error ("Error setting icon: " ++ message)).

Definition setExecutableIcon (executableOutputPath : string)
    (icon platform : option string) : M unit :=
  onDisk ← existsSync icon;
  if Js.truthy icon && onDisk && Js.strict_eq platform "win32" then
    setIcon executableOutputPath icon
  else if Js.truthy icon && onDisk && negb (Js.strict_eq platform "win32") then
    logger_warn "Icon setting is only supported on Windows."
  else if negb (Js.truthy icon) && Js.strict_eq platform "win32" then
    let appDataDir := env_APPDATA h in
    iconPath ← lift (Path.join [appDataDir; Some "npm"; Some "node_modules";
                                Some "sea-builder"; Some "default.ico"]);
    setIcon executableOutputPath (Some iconPath)
  else
    logger_info "No icon specified or not supported on this platform.".

Definition injectSEABlobIntoNodeExecutable (platform : option string)
    (nodeExecutable seaBlobPath : string) : M unit :=
  logger_info ("Injecting SEA blob into " ++ nodeExecutable) ;;
  FUSE_STRING ← match Js.atob FUSE_LITERAL with
                | Some s => ret s
                | None => throw "The string to be decoded is not correctly encoded."
                end;
  present ← existsSync (Some seaBlobPath);
  (if negb present then
     throw ("The SEA preparation blob file does not exist: " ++ seaBlobPath)
   else ret tt) ;;
  seaBlobBuffer ← readFileSync seaBlobPath;
  (let options := {|
     sentinelFuse := FUSE_STRING;
     machoSegmentName := if Js.strict_eq platform "macos" then Some "NODE_SEA" else None
   |} in
   try_catch
     (tool (PostjectInject nodeExecutable "NODE_SEA_BLOB" seaBlobBuffer options)
           (postject_inject h nodeExecutable "NODE_SEA_BLOB" seaBlobBuffer options))
     (fun message => throw ("Error injecting SEA blob: " ++ message))) ;;
  unlinkSync seaBlobPath ;;
  unlinkSync outputFile.

(** The body of [main]'s [try] block. *)
Definition pipeline (input icon platform : option string) (obfuscate : bool)
    (executableOutputPath : string) : M unit :=
  bundleProject input ;;
  logger_info (chalk "Bundle completed successfully") ;;
  (if obfuscate then
     obfuscateOutputFile outputFile ;;
     logger_info (chalk "Obfuscation completed successfully")
   else ret tt) ;;
  generateSEABlob seaConfig ;;
  logger_info (chalk "SEA preparation blob generated successfully") ;;
  createExecutableCopy executableOutputPath ;;
  logger_info (chalk "Executable copy created successfully") ;;
  setExecutableIcon executableOutputPath icon platform ;;
  logger_info (chalk "Icon set successfully") ;;
  injectSEABlobIntoNodeExecutable platform executableOutputPath (output seaConfig) ;;
  logger_info (chalk "SEA blob injected successfully").

Definition main (input icon platform : option string) (obfuscate : bool)
    (executableOutputPath : string) : M unit :=
  showSplash ;;
  try_catch
    (pipeline input icon platform obfuscate executableOutputPath)
    (fun message =>
       logger_error (chalk "An unexpected error occurred: " ++ message) ;;
       process_exit 1).

Definition unsupported_version_message : string :=
  chalk "SEA-Builder" ++ chalk " [Unsuported Version Error]"
    ++ " - The current version of Node.js (" ++ Semver.show (process_version h)
    ++ ") does not support building a Single Executable Application (SEA). This feature is available from Node.js v19.9.0 onwards. Please update your Node.js version and try again.".

(** The callback run once the modules are loaded: version check, command
    line, then [main()].  [argv] is [process.argv]. *)
Definition script (argv : list string) : M unit :=
  let nodeVersion := process_version h in
  (if negb (Semver.gte nodeVersion minimum_version) then
     console_error unsupported_version_message ;;
     process_exit 1
   else ret tt) ;;
  match Commander.parse program_options "1.0.0" (drop 2 argv) with
  | Commander.Exit code reason => process_exit code
  | Commander.Parsed opts =>
      (if (length argv <? 2)%nat then showSplash ;; process_exit 0 else ret tt) ;;
      let input := Commander.get opts "input" in
      let icon := Commander.get opts "icon" in
      let platform := Commander.get opts "platform" in
      executableOutputPath ← lift (getExecutableOutputPath platform);
      detached (main input icon platform (Commander.flag opts "obfuscate") executableOutputPath)
  end.

(** The program once its modules are loaded: an exception escaping the
    callback reaches the final [.catch], which reports it and exits with
    status 1. *)
Definition sea_builder (argv : list string) : M unit :=
  try_catch (script argv)
    (fun message =>
       console_error ("Failed to load modules: " ++ message) ;;
       process_exit 1).

(** The whole program: a rejected dynamic import reaches the same
    [.catch] before the callback has run. *)
Definition program (argv : list string) : M unit :=
  try_catch
    (match dynamic_imports h with
     | Some message => throw message
     | None => ret tt
     end ;;
     script argv)
    (fun message =>
       console_error ("Failed to load modules: " ++ message) ;;
       process_exit 1).

End Script.

(** The exit status of the process. *)
Definition exit_status {A} (s : step A) : Z :=
  match result s with
  | Returned _ => 0
  | Thrown _ => 1
  | Exited code => code
  end.

(** ** Vocabulary of the specification *)

(** Every event a computation emits, on every disk, satisfies [P]. *)
Definition journal_all {A} (P : Event -> Prop) (m : M A) : Prop :=
  forall d e, In e (emitted (m d)) -> P e.

(** What the injection stage promises about a call of the injector, for
    the configured platform and the path of the copied executable. *)
Definition injector_called_as (platform : option string) (executableOutputPath : string)
    (e : Event) : Prop :=
  match e with
  | Called (PostjectInject executable segment blob options) before _ =>
      executable = executableOutputPath /\
      segment = "NODE_SEA_BLOB" /\
      Js.atob FUSE_LITERAL = Some (sentinelFuse options) /\
      sentinelFuse options = "NODE_SEA_FUSE_fce680ab2cc467b6e072b8b5df1996b2" /\
      (platform = Some "macos" -> machoSegmentName options = Some "NODE_SEA") /\
      (platform <> Some "macos" -> machoSegmentName options = None) /\
      before !! output seaConfig = Some blob
  | _ => True
  end.

(** Recognisers over the journal. *)
Definition is_call (e : Event) : bool :=
  match e with
  | Called _ _ _ => true
  | _ => false
  end.

Definition injection_succeeded (e : Event) : bool :=
  match e with
  | Called (PostjectInject _ _ _ _) _ (Done _) => true
  | _ => false
  end.

Definition deletion_failed (path : string) (e : Event) : bool :=
  match e with
  | Called (Fs (OpUnlink p)) _ (Failed _) => String.eqb p path
  | _ => false
  end.

Definition is_injection (e : Event) : bool :=
  match e with
  | Called (PostjectInject _ _ _ _) _ _ => true
  | _ => false
  end.

Definition is_spawn (e : Event) : bool :=
  match e with
  | Called (SpawnNode _) _ _ => true
  | _ => false
  end.

(** The stages throw; none of them ends the process. *)
Definition never_exits {A} (m : M A) : Prop :=
  forall d code, result (m d) <> Exited code.

(** The three ways a run [r] can end once the injector has succeeded,
    leaving the disk [injected]: the deletion of sea-prep.blob fails; that
    deletion succeeds and the deletion of out.js fails; both succeed.  A
    failed deletion is the last call of the run, it is logged as an
    unexpected error, and the exit status is 1. *)
Definition ends_after_injection (r : step unit) (injection : Event) (injected : Disk)
    : Prop :=
  let removeBlob := Called (Fs (OpUnlink "sea-prep.blob")) injected in
  let withoutBlob := delete "sea-prep.blob" injected in
  let removeBundle := Called (Fs (OpUnlink "out.js")) withoutBlob in
  let fatal message := Log LevelError ("An unexpected error occurred: " ++ message) in
  exists pre,
    (exists message,
       emitted r = (pre ++ [injection; removeBlob (Failed message); fatal message])%list /\
       exit_status r = 1%Z /\ disk_after r = injected) \/
    (exists message,
       emitted r = (pre ++ [injection; removeBlob (Done withoutBlob);
                            removeBundle (Failed message); fatal message])%list /\
       exit_status r = 1%Z /\ disk_after r = withoutBlob) \/
    (emitted r = (pre ++ [injection; removeBlob (Done withoutBlob);
                          removeBundle (Done (delete "out.js" withoutBlob));
                          Log LevelInfo "SEA blob injected successfully"])%list /\
     exit_status r = 0%Z /\ disk_after r = delete "out.js" withoutBlob).

(** Values of options that take an argument are strings. *)
Definition values_are_strings (opts : gmap string Commander.value) : Prop :=
  forall key v, key <> "obfuscate" -> opts !! key = Some v -> exists s, v = Commander.Str s.

(** Events that only a run that got past the construction of the default
    icon path can emit. *)
Definition past_icon_path (e : Event) : Prop :=
  match e with
  | Called (Rcedit _ _) _ _ => True
  | Called (PostjectInject _ _ _ _) _ _ => True
  | Log LevelInfo "Icon set successfully" => True
  | Log LevelInfo "SEA blob injected successfully" => True
  | _ => False
  end.

(** [d'] differs from [d] at most on the paths listed. *)
Definition confined (paths : list string) (d d' : Disk) : Prop :=
  forall p, ~ In p paths -> d' !! p = d !! p.

(** The interfaces of the external tools: the bundler writes its outfile,
    the child process the declared blob, the icon editor and the injector
    rewrite the executable they are given. *)
Record ToolContracts (h : Host) : Prop := {
  esbuild_writes_outfile :
    forall input outfile d d',
      esbuild_build h input outfile d = inr d' -> confined [outfile] d d';
  node_writes_blob :
    forall args d code stdout stderr d',
      node_child h args d = inr (code, stdout, stderr, d') ->
      confined [output seaConfig] d d';
  rcedit_edits_executable :
    forall executable icon d d',
      rcedit h executable icon d = inr d' ->
      confined [executable] d d' /\ is_Some (d' !! executable);
  postject_edits_executable :
    forall executable segment blob options d d',
      postject_inject h executable segment blob options d = inr d' ->
      confined [executable] d d' /\ is_Some (d' !! executable)
}.


(** ** Sample hosts and command lines *)

Definition no_denial : FsOp -> Disk -> bool := fun _ _ => false.

(** The blob file is held open by another process: it cannot be removed. *)
Definition blob_locked : FsOp -> Disk -> bool := fun op _ =>
  match op with
  | OpUnlink path => String.eqb path "sea-prep.blob"
  | _ => false
  end.

Definition sample_host (version : Semver.t) (appdata : option string)
    (denies : FsOp -> Disk -> bool) : Host := {|
  process_version := version;
  process_execPath := "/usr/local/bin/node";
  process_cwd := "/home/dev/app";
  env_APPDATA := appdata;
  dynamic_imports := None;
  figlet_textSync := inr "SEA-Builder";
  os_denies := denies;
  os_cuts := fun _ _ => None;
  esbuild_build := fun input outfile d =>
    match input with
    | Some entry =>
        match d !! entry with
        | Some source => inr (<[outfile := "bundle(" ++ source ++ ")"]> d)
        | None => inl ("Could not resolve " ++ entry)
        end
    | None => inl "No entry point"
    end;
  JsConfuser_obfuscate := fun code => inr ("obfuscated(" ++ code ++ ")");
  node_child := fun args d =>
    match d !! "out.js" with
    | Some code => inr (Some 0%Z, "", "", <["sea-prep.blob" := "blob(" ++ code ++ ")"]> d)
    | None => inr (Some 1%Z, "", "Cannot read main script", d)
    end;
  rcedit := fun executable icon d =>
    match d !! executable with
    | Some binary => inr (<[executable := binary ++ "+icon"]> d)
    | None => inl ("Cannot open " ++ executable)
    end;
  postject_inject := fun executable segment blob options d =>
    match d !! executable with
    | Some binary => inr (<[executable := binary ++ "+" ++ segment ++ "(" ++ blob ++ ")"]> d)
    | None => inl ("Cannot open " ++ executable)
    end
|}.

Definition node20 : Semver.t := Semver.mk 20 11 1 [].
Definition node18 : Semver.t := Semver.mk 18 20 4 [].

Definition sample_disk : Disk :=
  {[ "/usr/local/bin/node" := "node"; "server.ts" := "console.log(1)" ]}.

Definition sample_argv (platform : string) (more : list string) : list string :=
  ["/usr/local/bin/node"; "/usr/local/bin/sea-builder"; "-i"; "server.ts"; "-p"; platform]
    ++ more.

(** The disk of the sample run for linux when the injector is called, the
    options it is called with, and the disk it leaves. *)
Definition sample_blob : string := "blob(bundle(console.log(1)))".

Definition sample_before_injection : Disk :=
  <["dist/out" := "node"]>
    (<["sea-prep.blob" := sample_blob]>
       (<["out.js" := "bundle(console.log(1))"]> sample_disk)).

Definition sample_options (hint : option string) : InjectOptions := {|
  sentinelFuse := "NODE_SEA_FUSE_fce680ab2cc467b6e072b8b5df1996b2";
  machoSegmentName := hint
|}.

Definition sample_injected : Disk :=
  <["dist/out" := "node+NODE_SEA_BLOB(" ++ sample_blob ++ ")"]> sample_before_injection.

Definition sample_injection : Event :=
  Called (PostjectInject "dist/out" "NODE_SEA_BLOB" sample_blob (sample_options None))
    sample_before_injection (Done sample_injected).

(** The disk on which the child process starts in the sample run with
    --obfuscate, and the disk it leaves. *)
Definition sample_obfuscated : string := "obfuscated(bundle(console.log(1)))".

Definition sample_before_spawn : Disk :=
  <["sea-config.json" := JSON_stringify seaConfig]>
    (<["out.js" := sample_obfuscated]> sample_disk).

Definition sample_after_spawn : Disk :=
  <["sea-prep.blob" := "blob(" ++ sample_obfuscated ++ ")"]> sample_before_spawn.

Definition sample_opts (platform : string) (obfuscate : bool)
    : gmap string Commander.value :=
  let opts := <["platform" := Commander.Str platform]>
                (<["input" := Commander.Str "server.ts"]> ∅) in
  if obfuscate then <["obfuscate" := Commander.Flag]> opts else opts.

(** ** Further vocabulary: recognisers, the order of the calls, files touched *)

Definition is_console_error (e : Event) : bool :=
  match e with
  | ConsoleError _ => true
  | _ => false
  end.

Definition is_splash (e : Event) : bool :=
  match e with
  | Splash => true
  | _ => false
  end.

(** Calls that read, transform or rewrite the bundled module. *)
Definition rewrites_bundle (e : Event) : bool :=
  match e with
  | Called (JsConfuserObfuscate _) _ _ => true
  | Called (Fs (OpRead path)) _ _ => String.eqb path "out.js"
  | Called (Fs (OpWrite path _)) _ _ => String.eqb path "out.js"
  | _ => false
  end.

Definition is_icon_edit (e : Event) : bool :=
  match e with
  | Called (Rcedit _ _) _ _ => true
  | _ => false
  end.

(** The place of a call in the fixed sequence that [main] and its stages
    prescribe: bundling; reading, obfuscating and rewriting out.js; writing
    the descriptor, the child process, deleting the descriptor; creating the
    output directory and copying the executable; the icon editor; reading
    the blob, the injector, deleting the blob and deleting out.js. *)
Definition call_rank (c : Call) : nat :=
  match c with
  | EsbuildBuild _ _ => 0
  | Fs (OpRead path) => if String.eqb path "out.js" then 1 else 10
  | JsConfuserObfuscate _ => 2
  | Fs (OpWrite path _) => if String.eqb path "out.js" then 3 else 4
  | SpawnNode _ => 5
  | Fs (OpUnlink path) =>
      if String.eqb path "sea-config.json" then 6
      else if String.eqb path "sea-prep.blob" then 12 else 13
  | Fs (OpMkdir _) => 7
  | Fs (OpCopy _ _) => 8
  | Rcedit _ _ => 9
  | PostjectInject _ _ _ _ => 11
  end.

Definition event_rank (e : Event) : option nat :=
  match e with
  | Called c _ _ => Some (call_rank c)
  | _ => None
  end.

(** The ranks of the calls of a journal, in the order they were made. *)
Definition ranks (journal : list Event) : list nat := omap event_rank journal.

Fixpoint increasing (l : list nat) : bool :=
  match l with
  | a :: rest =>
      match rest with
      | b :: _ => (a <? b)%nat && increasing rest
      | [] => true
      end
  | [] => true
  end.

(** The calls of [m] are made in increasing rank, all of them within
    [lo, hi). *)
Definition within (lo hi : nat) (l : list nat) : Prop :=
  increasing l = true /\ Forall (fun n => (lo <= n < hi)%nat) l.

Definition calls_within {A} (lo hi : nat) (m : M A) : Prop :=
  forall d, within lo hi (ranks (emitted (m d))).

(** Deletions of the two transient files the injection stage cleans up. *)
Definition deletes_transient (e : Event) : bool :=
  match e with
  | Called (Fs (OpUnlink path)) _ _ =>
      String.eqb path "sea-prep.blob" || String.eqb path "out.js"
  | _ => false
  end.

(** A host with another injector, and an injector that finds no sentinel
    in the executable. *)
Definition with_injector (h : Host)
    (inject : string -> string -> string -> InjectOptions -> Disk -> string + Disk) : Host := {|
  process_version := process_version h;
  process_execPath := process_execPath h;
  process_cwd := process_cwd h;
  env_APPDATA := env_APPDATA h;
  dynamic_imports := dynamic_imports h;
  figlet_textSync := figlet_textSync h;
  os_denies := os_denies h;
  os_cuts := os_cuts h;
  esbuild_build := esbuild_build h;
  JsConfuser_obfuscate := JsConfuser_obfuscate h;
  node_child := node_child h;
  rcedit := rcedit h;
  postject_inject := inject
|}.

(** A host with another icon editor, and an editor that refuses a file
    that is not an icon. *)
Definition with_icon_editor (h : Host)
    (edit : string -> string -> Disk -> string + Disk) : Host := {|
  process_version := process_version h;
  process_execPath := process_execPath h;
  process_cwd := process_cwd h;
  env_APPDATA := env_APPDATA h;
  dynamic_imports := dynamic_imports h;
  figlet_textSync := figlet_textSync h;
  os_denies := os_denies h;
  os_cuts := os_cuts h;
  esbuild_build := esbuild_build h;
  JsConfuser_obfuscate := JsConfuser_obfuscate h;
  node_child := node_child h;
  rcedit := edit;
  postject_inject := postject_inject h
|}.

Definition icons_only : string -> string -> Disk -> string + Disk :=
  fun executable icon d =>
    match d !! executable, d !! icon with
    | Some binary, Some image =>
        if String.prefix "ICO" image then inr (<[executable := binary ++ "+icon"]> d)
        else inl "Fatal error: Unable to set icon"
    | _, _ => inl "Fatal error: Unable to load file"
    end.

Definition sample_logo : string := "/home/dev/app/logo.png".

Definition sample_disk_with_logo : Disk := <[sample_logo := "PNG"]> sample_disk.

Definition sample_before_icon : Disk :=
  <["dist/out.exe" := "node"]>
    (<["sea-prep.blob" := sample_blob]>
       (<["out.js" := "bundle(console.log(1))"]> sample_disk_with_logo)).

Definition no_sentinel : string -> string -> string -> InjectOptions -> Disk -> string + Disk :=
  fun executable _ _ options _ =>
    inl ("Could not find the sentinel " ++ sentinelFuse options ++ " in the binary").

Definition sample_failed_injection : Event :=
  Called (PostjectInject "dist/out" "NODE_SEA_BLOB" sample_blob (sample_options None))
    sample_before_injection
    (Failed "Could not find the sentinel NODE_SEA_FUSE_fce680ab2cc467b6e072b8b5df1996b2 in the binary").

(** [m] changes the disk at most on the paths listed. *)
Definition touches_only {A} (paths : list string) (m : M A) : Prop :=
  forall d, confined paths d (disk_after (m d)).

(** Failed calls other than those of the icon editor. *)
Definition hard_failure (e : Event) : bool :=
  match e with
  | Called (Rcedit _ _) _ _ => false
  | Called _ _ (Failed _) => true
  | _ => false
  end.

(** No call follows the first hard failure of the journal. *)
Fixpoint stops_at_failure (journal : list Event) : bool :=
  match journal with
  | [] => true
  | e :: rest =>
      if hard_failure e then negb (existsb is_call rest) else stops_at_failure rest
  end.

(** [m] makes no call after a hard failure, and throws when one occurred. *)
Definition fails_fast {A} (m : M A) : Prop :=
  forall d,
    stops_at_failure (emitted (m d)) = true /\
    (existsb hard_failure (emitted (m d)) = true -> exists message, result (m d) = Thrown message).

(** What the script prescribes for each call of a run configured by
    [opts]: the paths it reads, writes, deletes and copies, and the
    arguments it hands to the tools (those of the injector are described by
    [injector_called_as]). *)
Definition scripted (h : Host) (opts : gmap string Commander.value) (e : Event) : Prop :=
  let platform := Commander.get opts "platform" in
  let icon := Commander.get opts "icon" in
  match e with
  | Called (EsbuildBuild entryPoint outfile) _ _ =>
      entryPoint = Commander.get opts "input" /\ outfile = "out.js"
  | Called (Fs (OpRead path)) _ _ => path = "out.js" \/ path = "sea-prep.blob"
  | Called (JsConfuserObfuscate code) before _ => before !! "out.js" = Some code
  | Called (Fs (OpWrite path data)) _ _ =>
      path = "out.js" \/ (path = "sea-config.json" /\ data = JSON_stringify seaConfig)
  | Called (SpawnNode args) _ _ => args = ["--experimental-sea-config"; "sea-config.json"]
  | Called (Fs (OpUnlink path)) _ _ =>
      path = "sea-config.json" \/ path = "sea-prep.blob" \/ path = "out.js"
  | Called (Fs (OpMkdir path)) _ _ => path = "dist"
  | Called (Fs (OpCopy src dest)) _ _ =>
      src = process_execPath h /\
      dest = (if Js.strict_eq platform "win32" then "dist/out.exe" else "dist/out")
  | Called (Rcedit executable resolved) _ _ =>
      executable = "dist/out.exe" /\ platform = Some "win32" /\
      exists source,
        resolved = Path.resolve (process_cwd h) source /\
        (icon = Some source \/
         (Js.truthy icon = false /\
          Path.join [env_APPDATA h; Some "npm"; Some "node_modules"; Some "sea-builder";
                     Some "default.ico"] = inr source))
  | _ => True
  end.

(** * Part II: what the script guarantees *)

Local Open Scope list_scope.

(** * The helper models at work *)

Example atob_decodes : Js.atob "aGVsbG8=" = Some "hello" /\ Js.atob "a" = None.
Proof. split; reflexivity. Qed.

Example join_normalises :
  Path.join [Some "dist"; Some "out.exe"] = inr "dist/out.exe" /\
  Path.join [Some "a//b/"; Some "../c"; Some ""] = inr "a/c" /\
  Path.join [None; Some "npm"] = inl (Path.invalid_arg None).
Proof. repeat split; reflexivity. Qed.

Example dirname_of_output :
  Path.dirname "dist/out.exe" = "dist" /\ Path.dirname "/a" = "/" /\ Path.dirname "a" = ".".
Proof. repeat split; reflexivity. Qed.

Example resolve_against_cwd :
  Path.resolve "/home/dev/app" "icons/../app.ico" = "/home/dev/app/app.ico" /\
  Path.resolve "/home/dev/app" "/opt/app.ico" = "/opt/app.ico".
Proof. split; reflexivity. Qed.

Example semver_orders_prereleases :
  Semver.gte node20 minimum_version = true /\
  Semver.gte node18 minimum_version = false /\
  Semver.gte (Semver.mk 19 9 0 [Semver.Alnum "rc"; Semver.Numeric 1]) minimum_version = false /\
  Semver.show (Semver.mk 19 9 0 [Semver.Alnum "rc"; Semver.Numeric 1]) = "v19.9.0-rc.1".
Proof. repeat split; reflexivity. Qed.

Example commander_spellings :
  let parsed := Commander.Parsed (sample_opts "linux" true) in
  Commander.parse program_options "1.0.0" ["-i"; "server.ts"; "-p"; "linux"; "-o"] = parsed /\
  Commander.parse program_options "1.0.0" ["--input=server.ts"; "--platform=linux"; "-o"]
    = parsed /\
  Commander.parse program_options "1.0.0" ["-oi"; "server.ts"; "-plinux"] = parsed /\
  Commander.parse program_options "1.0.0"
    ["notes.txt"; "-o"; "-i"; "server.ts"; "-p"; "linux"; "--"; "--help"] = parsed.
Proof. cbv zeta. repeat split; vm_compute; reflexivity. Qed.

Example commander_exits :
  Commander.parse program_options "1.0.0" ["-i"; "server.ts"]
    = Commander.Exit 1
        (Commander.MissingMandatoryOptionValue
           {| Commander.short := "-p"; Commander.long := "--platform";
              Commander.name := "platform"; Commander.takes_value := true;
              Commander.mandatory := true |}) /\
  Commander.parse program_options "1.0.0" ["--help"] = Commander.Exit 0 Commander.HelpDisplayed /\
  Commander.parse program_options "1.0.0" ["-x"; "--"; "--help"]
    = Commander.Exit 0 Commander.HelpDisplayed /\
  Commander.parse program_options "1.0.0" ["-i"; "server.ts"; "-p"; "linux"; "--obfuscate=1"]
    = Commander.Exit 1 (Commander.UnknownOption "--obfuscate=1") /\
  Commander.parse program_options "1.0.0" ["-oV"]
    = Commander.Exit 0 (Commander.VersionDisplayed "1.0.0").
Proof. repeat split; vm_compute; reflexivity. Qed.

Example sample_run_succeeds :
  let r := sea_builder (sample_host node20 None no_denial) (sample_argv "linux" ["-o"])
             sample_disk in
  exit_status r = 0%Z /\
  disk_after r !! "dist/out" = Some ("node+NODE_SEA_BLOB(blob(" +:+ sample_obfuscated +:+ "))").
Proof. cbv zeta. split; vm_compute; reflexivity. Qed.

(** * Tactics: running a stage along all its paths *)

Ltac unfold_monad :=
  unfold showSplash, console_error, logger_info, logger_warn, logger_error, emit,
    lift, throw, process_exit, try_catch, mbind, M_bind, bind, mret, M_ret, ret in *.

Ltac unfold_fs :=
  unfold readFileSync, writeFileSync, unlinkSync, mkdirSync_recursive, copyFileSync,
    fs_call, fs_write, existsSync, tool, JsConfuser_call, spawnNode in *.

Ltac unfold_stages :=
  unfold pipeline, bundleProject, obfuscateOutputFile, generateSEABlob,
    createExecutableCopy, setExecutableIcon, setIcon,
    injectSEABlobIntoNodeExecutable in *.

Ltac unfold_binds := unfold mbind, M_bind, mret, M_ret in *.

Ltac unfold_logs :=
  unfold showSplash, console_error, logger_info, logger_warn, logger_error, chalk in *.

(** Case analysis on the innermost scrutinee of the goal. *)
Ltac split_scrutinee :=
  match goal with
  | |- context [match ?x with _ => _ end] =>
      lazymatch x with
      | context [match _ with _ => _ end] => fail
      | _ => destruct x eqn:?
      end
  end.

Ltac run_paths := repeat (cbn [andb negb orb]; split_scrutinee).

Lemma step_cases {A} (Q : step A -> Prop) (s : step A) :
  match s with Step r d journal => Q (Step r d journal) end -> Q s.
Proof. now destruct s. Qed.

(** Keeps a single copy of the computation [s] in the goal. *)
Ltac focus_on s := pattern s; apply step_cases.

(** * Basic facts *)

Lemma atob_FUSE_LITERAL :
  Js.atob FUSE_LITERAL = Some "NODE_SEA_FUSE_fce680ab2cc467b6e072b8b5df1996b2".
Proof. vm_compute. reflexivity. Qed.

Lemma getExecutableOutputPath_eq platform :
  getExecutableOutputPath platform =
    inr (if Js.strict_eq platform "win32" then "dist/out.exe" else "dist/out").
Proof. unfold getExecutableOutputPath. destruct (Js.strict_eq platform "win32"); reflexivity. Qed.

Lemma strict_eq_spec v lit : Js.strict_eq v lit = true <-> v = Some lit.
Proof.
  destruct v as [s|]; cbn; [|split; discriminate].
  destruct (String.eqb_spec s lit) as [->|Hne]; split; auto; try discriminate.
  intros [= ->]. now contradiction Hne.
Qed.

Lemma exists_on_Some d path : exists_on d (Some path) = true <-> is_Some (d !! path).
Proof. unfold exists_on. apply bool_decide_eq_true. Qed.

Lemma exists_on_None d path : exists_on d (Some path) = false <-> d !! path = None.
Proof.
  unfold exists_on. rewrite bool_decide_eq_false. rewrite <- eq_None_not_Some. reflexivity.
Qed.

(** Closes a path in which a file is both on the disk and missing. *)
Ltac contradict_presence :=
  match goal with
  | H : negb (exists_on ?d (Some ?p)) = false, Hb : ?d !! ?p = None |- _ =>
      apply negb_false_iff, exists_on_Some in H; rewrite Hb in H; now destruct H
  | H : negb (exists_on ?d (Some ?p)) = true, Hb : is_Some (?d !! ?p) |- _ =>
      apply negb_true_iff, exists_on_None in H; rewrite H in Hb; now destruct Hb
  end.

Lemma join_undefined rest : Path.join (None :: rest) = inl (Path.invalid_arg None).
Proof. reflexivity. Qed.

Lemma in_filter f (l : list Event) e : f e = true -> In e l -> In e (List.filter f l).
Proof. intros Hf Hin. apply filter_In. now split. Qed.

Lemma In_by_computation (e : Event) (journal : list Event) :
  bool_decide (e ∈ journal) = true -> In e journal.
Proof. intros H. apply list_elem_of_In. now apply bool_decide_eq_true in H. Qed.

Ltac in_explicit_journal := apply In_by_computation; vm_compute; reflexivity.

(** Finds which event of an explicit journal the hypothesis [H] speaks of. *)
Ltac in_journal H :=
  repeat (destruct H as [H|H]; [try discriminate H|]);
  try (now destruct H);
  try (inversion H; subst; clear H).

Ltac all_events tac :=
  let e := fresh "e" in
  let He := fresh "He" in
  intros e He; repeat (destruct He as [<-|He]; [tac|]); destruct He.

(** * The program around the pipeline *)

Lemma showSplash_drawn h banner d :
  figlet_textSync h = inr banner -> showSplash h d = Step (Returned tt) d [Splash].
Proof. intros Hb. unfold showSplash. unfold_monad. now rewrite Hb. Qed.

Lemma showSplash_failed h message d :
  figlet_textSync h = inl message -> showSplash h d = Step (Thrown message) d [].
Proof. intros Hb. unfold showSplash. unfold_monad. now rewrite Hb. Qed.

Lemma main_eq h input icon platform obfuscate exe d banner :
  figlet_textSync h = inr banner ->
  main h input icon platform obfuscate exe d =
    match pipeline h input icon platform obfuscate exe d with
    | Step (Returned a) d1 journal => Step (Returned a) d1 (Splash :: journal)
    | Step (Thrown e) d1 journal =>
        Step (Exited 1) d1
          (Splash :: journal ++ [Log LevelError ("An unexpected error occurred: " +:+ e)])
    | Step (Exited c) d1 journal => Step (Exited c) d1 (Splash :: journal)
    end.
Proof.
  intros Hb. unfold main. unfold_binds. unfold bind at 1. rewrite (showSplash_drawn h banner d Hb).
  unfold_monad.
  destruct (pipeline h input icon platform obfuscate exe d) as [[a|e|c] d1 journal];
    reflexivity.
Qed.

Lemma main_without_banner h input icon platform obfuscate exe d message :
  figlet_textSync h = inl message ->
  main h input icon platform obfuscate exe d = Step (Thrown message) d [].
Proof.
  intros Hb. unfold main. unfold_binds. unfold bind at 1.
  now rewrite (showSplash_failed h message d Hb).
Qed.

Lemma main_journal_inv h input icon platform obfuscate exe d call before outcome :
  In (Called call before outcome) (emitted (main h input icon platform obfuscate exe d)) ->
  In (Called call before outcome) (emitted (pipeline h input icon platform obfuscate exe d)).
Proof.
  destruct (figlet_textSync h) as [message|banner] eqn:Hb.
  { rewrite (main_without_banner _ _ _ _ _ _ _ _ Hb). intros []. }
  rewrite (main_eq _ _ _ _ _ _ _ _ Hb).
  destruct (pipeline h input icon platform obfuscate exe d) as [[a|msg|c] d1 journal];
    cbn [emitted]; intros [He|He]; try discriminate He; try done.
  apply in_app_iff in He as [He|[He|[]]]; [done|discriminate He].
Qed.

Lemma parse_needs_arguments argv opts :
  (length argv < 2)%nat ->
  Commander.parse program_options "1.0.0" (drop 2 argv) <> Commander.Parsed opts.
Proof.
  intros Hlen. destruct argv as [|a [|b rest]]; cbn in Hlen; try lia; discriminate.
Qed.

Lemma sea_builder_unsupported h argv d :
  Semver.gte (process_version h) minimum_version = false ->
  sea_builder h argv d = Step (Exited 1) d [ConsoleError (unsupported_version_message h)].
Proof.
  intros Hv. unfold sea_builder, script. unfold_monad. rewrite Hv. reflexivity.
Qed.

Lemma sea_builder_exit h argv d code reason :
  Semver.gte (process_version h) minimum_version = true ->
  Commander.parse program_options "1.0.0" (drop 2 argv) = Commander.Exit code reason ->
  sea_builder h argv d = Step (Exited code) d [].
Proof.
  intros Hv Hp. unfold sea_builder, script. unfold_monad. rewrite Hv, Hp. reflexivity.
Qed.

(** Past the version check and the command line, the run is [main()]:
    not awaited, so that a banner that cannot be drawn ends the process
    with status 1 before anything is printed. *)
Lemma sea_builder_detached h argv d opts :
  Semver.gte (process_version h) minimum_version = true ->
  Commander.parse program_options "1.0.0" (drop 2 argv) = Commander.Parsed opts ->
  sea_builder h argv d =
    detached
      (main h (Commander.get opts "input") (Commander.get opts "icon")
         (Commander.get opts "platform") (Commander.flag opts "obfuscate")
         (if Js.strict_eq (Commander.get opts "platform") "win32"
          then "dist/out.exe" else "dist/out")) d.
Proof.
  intros Hv Hp.
  assert (Hlen : (length argv <? 2)%nat = false).
  { apply Nat.ltb_ge. destruct (le_lt_dec 2 (length argv)) as [|Hlt]; [done|].
    now apply parse_needs_arguments with (opts := opts) in Hlt. }
  unfold sea_builder, script. rewrite Hv, Hp, Hlen, getExecutableOutputPath_eq.
  unfold lift. cbn beta iota.
  unfold throw, process_exit, try_catch, mbind, M_bind, bind, mret, M_ret, ret, detached.
  cbn [negb app].
  destruct (main _ _ _ _ _ _ d) as [[a|e|c] d1 journal]; reflexivity.
Qed.

Lemma sea_builder_parsed h argv d opts banner :
  Semver.gte (process_version h) minimum_version = true ->
  Commander.parse program_options "1.0.0" (drop 2 argv) = Commander.Parsed opts ->
  figlet_textSync h = inr banner ->
  sea_builder h argv d =
    main h (Commander.get opts "input") (Commander.get opts "icon")
      (Commander.get opts "platform") (Commander.flag opts "obfuscate")
      (if Js.strict_eq (Commander.get opts "platform") "win32" then "dist/out.exe" else "dist/out")
      d.
Proof.
  intros Hv Hp Hb. rewrite (sea_builder_detached h argv d opts Hv Hp). unfold detached.
  rewrite (main_eq _ _ _ _ _ _ _ _ Hb).
  destruct (pipeline _ _ _ _ _ _ d) as [[a|e|c] d1 journal]; reflexivity.
Qed.

Lemma sea_builder_without_banner h argv d opts message :
  Semver.gte (process_version h) minimum_version = true ->
  Commander.parse program_options "1.0.0" (drop 2 argv) = Commander.Parsed opts ->
  figlet_textSync h = inl message ->
  sea_builder h argv d = Step (Exited 1) d [].
Proof.
  intros Hv Hp Hb. rewrite (sea_builder_detached h argv d opts Hv Hp). unfold detached.
  now rewrite (main_without_banner _ _ _ _ _ _ _ _ Hb).
Qed.

(** The four ways a run goes: refused by the version check, ended by the
    command-line parser, ended because the banner cannot be drawn, or
    [main] with the banner drawn. *)
Lemma sea_builder_cases h argv d :
  sea_builder h argv d = Step (Exited 1) d [ConsoleError (unsupported_version_message h)] \/
  (exists code reason,
     Commander.parse program_options "1.0.0" (drop 2 argv) = Commander.Exit code reason /\
     sea_builder h argv d = Step (Exited code) d []) \/
  (exists opts message,
     Commander.parse program_options "1.0.0" (drop 2 argv) = Commander.Parsed opts /\
     figlet_textSync h = inl message /\
     sea_builder h argv d = Step (Exited 1) d []) \/
  (exists opts banner,
     Commander.parse program_options "1.0.0" (drop 2 argv) = Commander.Parsed opts /\
     figlet_textSync h = inr banner /\
     sea_builder h argv d =
       main h (Commander.get opts "input") (Commander.get opts "icon")
         (Commander.get opts "platform") (Commander.flag opts "obfuscate")
         (if Js.strict_eq (Commander.get opts "platform") "win32"
          then "dist/out.exe" else "dist/out") d).
Proof.
  destruct (Semver.gte (process_version h) minimum_version) eqn:Hv.
  - destruct (Commander.parse program_options "1.0.0" (drop 2 argv)) as [opts|code reason] eqn:Hp.
    + destruct (figlet_textSync h) as [message|banner] eqn:Hb.
      * right; right; left. exists opts, message. split; [done|]. split; [done|].
        now apply sea_builder_without_banner with (opts := opts) (message := message).
      * right; right; right. exists opts, banner. split; [done|]. split; [done|].
        now apply sea_builder_parsed with (banner := banner).
    + right; left. exists code, reason. split; [done|].
      now apply sea_builder_exit with (reason := reason).
  - left. now apply sea_builder_unsupported.
Qed.

(** The whole program is [sea_builder] when the modules load, and the
    final handler alone when they do not. *)
Lemma program_loaded h argv d :
  dynamic_imports h = None -> program h argv d = sea_builder h argv d.
Proof.
  intros Hload. unfold program, sea_builder. rewrite Hload.
  unfold try_catch, mbind, M_bind, bind, mret, M_ret, ret.
  destruct (script h argv d) as [[a|e|c] d1 journal]; reflexivity.
Qed.

Lemma program_not_loaded h argv d message :
  dynamic_imports h = Some message ->
  program h argv d = Step (Exited 1) d [ConsoleError ("Failed to load modules: " +:+ message)].
Proof. intros Hload. unfold program. rewrite Hload. reflexivity. Qed.

(** * The version check *)

(** C6. On a Node.js version below 19.9.0 the program prints the version
    error and exits with status 1 whatever the command line: the journal
    holds that message alone, so no stage has run and no call was made,
    and the disk is unchanged. *)
Theorem C6_unsupported_version_runs_no_stage h argv d :
  Semver.compare (process_version h) minimum_version = Lt ->
  let r := sea_builder h argv d in
  exit_status r = 1%Z /\
  disk_after r = d /\
  emitted r = [ConsoleError (unsupported_version_message h)] /\
  existsb is_call (emitted r) = false.
Proof.
  intros Hlow. cbv zeta. rewrite sea_builder_unsupported.
  - repeat split.
  - unfold Semver.gte. now rewrite Hlow.
Qed.

(** Node.js 18.20.4 is below the minimum: the sample command line for
    linux prints the version error and stops with status 1. *)
Lemma C6_witness :
  let h := sample_host node18 None no_denial in
  let r := sea_builder h (sample_argv "linux" []) sample_disk in
  exit_status r = 1%Z /\
  disk_after r = sample_disk /\
  emitted r = [ConsoleError (unsupported_version_message h)] /\
  existsb is_call (emitted r) = false.
Proof.
  exact (C6_unsupported_version_runs_no_stage (sample_host node18 None no_denial)
           (sample_argv "linux" []) sample_disk eq_refl).
Defined.

(** * The command line *)

Lemma findOption_in table arg o : Commander.findOption table arg = Some o -> In o table.
Proof. intros H. now apply find_some in H. Qed.

Lemma program_option_cases o :
  In o (Commander.versionOption :: program_options) ->
  (Commander.takes_value o = true) \/
  (Commander.takes_value o = false /\
   (Commander.name o = "obfuscate" \/ Commander.name o = "version")).
Proof. cbn. intros [<-|[<-|[<-|[<-|[<-|[]]]]]]; cbn; auto. Qed.

Lemma unrecognised_from_table table arg :
  match (match Commander.longWithValue arg with
         | Some (key, v) =>
             match Commander.findOption table key with
             | Some o => if Commander.takes_value o then Commander.Valued o v
                         else Commander.Other arg
             | None => Commander.Other arg
             end
         | None => Commander.Other arg
         end) with
  | Commander.Needs o | Commander.Valued o _ => In o table /\ Commander.takes_value o = true
  | Commander.Switch o => In o table /\ Commander.takes_value o = false
  | _ => True
  end.
Proof.
  destruct (Commander.longWithValue arg) as [[key v]|]; [|exact I].
  destruct (Commander.findOption table key) as [o|] eqn:Hfind; [|exact I].
  destruct (Commander.takes_value o) eqn:Hv; [|exact I].
  split; [now apply findOption_in in Hfind|exact Hv].
Qed.

(** What the classification of an argument yields comes from the table:
    boolean options in front, and a last item that takes a value exactly
    when its option does. *)
Lemma dashed_from_table table chars switches last :
  Commander.dashed table chars = (switches, last) ->
  Forall (fun o => In o table /\ Commander.takes_value o = false) switches /\
  match last with
  | Commander.Needs o | Commander.Valued o _ => In o table /\ Commander.takes_value o = true
  | Commander.Switch o => In o table /\ Commander.takes_value o = false
  | _ => True
  end.
Proof.
  revert switches last. induction chars as [|c rest IH]; intros switches last;
    cbn [Commander.dashed]; cbv zeta.
  all: destruct (String.eqb _ "--"); [intros [= <- <-]; split; [constructor|exact I]|].
  all: destruct (if Commander.maybeOption _ then _ else None) as [o|] eqn:Hexact;
    [ intros [= <- <-]; split; [constructor|];
      destruct (Commander.maybeOption _); [|discriminate Hexact];
      apply findOption_in in Hexact;
      destruct (Commander.takes_value o) eqn:Hv; now split | ].
  - intros [= <- <-]. split; [constructor|first [exact I|apply unrecognised_from_table]].
  - destruct rest as [|c' rest'];
      [intros [= <- <-]; split; [constructor|first [exact I|apply unrecognised_from_table]]|].
    destruct (Ascii.eqb c "-");
      [intros [= <- <-]; split; [constructor|first [exact I|apply unrecognised_from_table]]|].
    destruct (Commander.findOption table (String "-" (String c EmptyString))) as [o|] eqn:Hfind;
      [|intros [= <- <-]; split; [constructor|first [exact I|apply unrecognised_from_table]]].
    apply findOption_in in Hfind.
    destruct (Commander.takes_value o) eqn:Hv; [intros [= <- <-]; split; [constructor|now split]|].
    destruct (Commander.dashed table (c' :: rest')) as [switches' last'] eqn:Hrest.
    intros [= <- <-]. destruct (IH _ _ eq_refl) as (Hsw & Hlast).
    split; [constructor; [now split|exact Hsw]|exact Hlast].
Qed.

Lemma classify_from_table table arg switches last :
  Commander.classify table arg = (switches, last) ->
  Forall (fun o => In o table /\ Commander.takes_value o = false) switches /\
  match last with
  | Commander.Needs o | Commander.Valued o _ => In o table /\ Commander.takes_value o = true
  | Commander.Switch o => In o table /\ Commander.takes_value o = false
  | _ => True
  end.
Proof.
  destruct arg as [|c rest]; cbn [Commander.classify].
  - intros [= <- <-]. split; [constructor|exact I].
  - destruct (Ascii.eqb c "-"); [apply dashed_from_table|].
    intros [= <- <-]. split; [constructor|exact I].
Qed.

Lemma values_are_strings_insert_Str opts key s :
  values_are_strings opts -> values_are_strings (<[key := Commander.Str s]> opts).
Proof.
  intros H k v Hk. destruct (decide (key = k)) as [->|Hne].
  - rewrite lookup_insert_eq. intros [= <-]. eauto.
  - rewrite lookup_insert_ne by done. now apply H.
Qed.

Lemma values_are_strings_insert_Flag opts :
  values_are_strings opts -> values_are_strings (<["obfuscate" := Commander.Flag]> opts).
Proof. intros H k v Hk. rewrite lookup_insert_ne by done. now apply H. Qed.

Lemma switchOn_strings version switches :
  Forall (fun o => In o (Commander.versionOption :: program_options) /\
                   Commander.takes_value o = false) switches ->
  forall values values',
    values_are_strings values ->
    Commander.switchOn version switches values = inr values' ->
    values_are_strings values'.
Proof.
  induction 1 as [|o switches (Hin & Hbool) _ IH]; intros values values' Hvalues;
    cbn [Commander.switchOn].
  - now intros [= <-].
  - destruct (String.eqb_spec (Commander.name o) "version") as [|Hname]; [discriminate|].
    apply IH.
    destruct (program_option_cases o Hin) as [Hv|(_ & [Ho|Ho])];
      [congruence|rewrite Ho; now apply values_are_strings_insert_Flag|now contradiction Hname].
Qed.

Lemma switchOn_exit_code version switches values code reason :
  Commander.switchOn version switches values = inl (code, reason) -> code = 0%Z.
Proof.
  revert values. induction switches as [|o switches IH]; intros values;
    cbn [Commander.switchOn]; [discriminate|].
  destruct (String.eqb (Commander.name o) "version"); [now intros [= <- _]|apply IH].
Qed.

Lemma parseOptions_strings version args :
  forall acc unknown acc' unknown',
    values_are_strings acc ->
    Commander.parseOptions (Commander.versionOption :: program_options) version args acc unknown
      = inr (acc', unknown') ->
    values_are_strings acc'.
Proof.
  induction args as [args IH] using (induction_ltof1 _ (@length string)).
  unfold ltof in IH. intros acc unknown acc' unknown' Hacc.
  destruct args as [|arg rest]; cbn [Commander.parseOptions].
  - now intros [= <- <-].
  - destruct (Commander.classify _ arg) as [switches last] eqn:Hclass.
    apply classify_from_table in Hclass as (Hswitches & Hlast).
    destruct (Commander.switchOn version switches acc) as [exit|values] eqn:Hon; [discriminate|].
    apply (switchOn_strings version switches Hswitches acc values Hacc) in Hon.
    destruct last as [o|o|o v| |a].
    + destruct rest as [|v rest']; [discriminate|].
      apply IH; [cbn; lia|]. now apply values_are_strings_insert_Str.
    + destruct (Commander.switchOn version [o] values) as [exit|values'] eqn:Hone; [discriminate|].
      apply IH; [cbn; lia|].
      apply (switchOn_strings version [o]) in Hone; [exact Hone| |exact Hon].
      constructor; [exact Hlast|constructor].
    + apply IH; [cbn; lia|]. now apply values_are_strings_insert_Str.
    + now intros [= <- _].
    + apply IH; [cbn; lia|exact Hon].
Qed.

Lemma parseOptions_exit_code version args :
  forall acc unknown code reason,
    Commander.parseOptions (Commander.versionOption :: program_options) version args acc unknown
      = inl (code, reason) ->
    code = 0%Z \/ code = 1%Z.
Proof.
  induction args as [args IH] using (induction_ltof1 _ (@length string)).
  unfold ltof in IH. intros acc unknown code reason.
  destruct args as [|arg rest]; cbn [Commander.parseOptions]; [discriminate|].
  destruct (Commander.classify _ arg) as [switches last].
  destruct (Commander.switchOn version switches acc) as [[code' reason']|values] eqn:Hon.
  { intros [= <- _]. left. now apply switchOn_exit_code in Hon. }
  destruct last as [o|o|o v| |a].
  - destruct rest as [|v rest']; [intros [= <- _]; now right|]. apply IH. cbn. lia.
  - destruct (Commander.switchOn version [o] values) as [[code' reason']|values'] eqn:Hone.
    + intros [= <- _]. left. now apply switchOn_exit_code in Hone.
    + apply IH. cbn. lia.
  - apply IH. cbn. lia.
  - discriminate.
  - apply IH. cbn. lia.
Qed.

Lemma parse_exit_code version args code reason :
  Commander.parse program_options version args = Commander.Exit code reason ->
  code = 0%Z \/ code = 1%Z.
Proof.
  unfold Commander.parse.
  destruct (Commander.parseOptions _ _ _ _ _) as [[code' reason']|[opts unknown]] eqn:Hloop.
  - intros [= <- _]. now apply parseOptions_exit_code in Hloop.
  - destruct (existsb _ unknown); [intros [= <- _]; now left|].
    destruct (Commander.missingMandatory _ _); [intros [= <- _]; now right|].
    destruct unknown; [discriminate|]. intros [= <- _]. now right.
Qed.

(** A command line that parses gives the two required options a value. *)
Lemma parse_required version args opts :
  Commander.parse program_options version args = Commander.Parsed opts ->
  (exists input, Commander.get opts "input" = Some input) /\
  (exists platform, Commander.get opts "platform" = Some platform).
Proof.
  unfold Commander.parse.
  destruct (Commander.parseOptions _ _ _ _ _) as [[code reason]|[opts' unknown]] eqn:Hloop;
    [discriminate|].
  apply parseOptions_strings in Hloop; [|intros k v _; now rewrite lookup_empty].
  destruct (existsb _ unknown); [discriminate|].
  destruct (Commander.missingMandatory _ _) as [o|] eqn:Hmissing; [discriminate|].
  destruct unknown; [|discriminate]. intros [= <-].
  unfold Commander.missingMandatory in Hmissing.
  pose proof (find_none _ _ Hmissing) as Hall. cbn beta in Hall.
  assert (Hkey : forall key, key <> "obfuscate" ->
            In key ["input"; "platform"] -> exists s, Commander.get opts' key = Some s).
  { intros key Hk Hin. unfold Commander.get.
    destruct (opts' !! key) as [v|] eqn:Hv.
    - destruct (Hloop key v Hk Hv) as (s & ->). eauto.
    - exfalso. cbn in Hin. destruct Hin as [<-|[<-|[]]].
      + specialize (Hall _ (or_introl eq_refl)). cbn in Hall.
        rewrite Hv in Hall. discriminate Hall.
      + specialize (Hall _ (or_intror (or_intror (or_introl eq_refl)))). cbn in Hall.
        rewrite Hv in Hall. discriminate Hall. }
  split; apply Hkey; cbn; auto; discriminate.
Qed.

Lemma parse_any_platform file platform :
  Commander.parse program_options "1.0.0" ["-i"; file; "-p"; platform] =
    Commander.Parsed (<["platform" := Commander.Str platform]>
                        (<["input" := Commander.Str file]> ∅)).
Proof. reflexivity. Qed.

(** Whatever the stages answer, the first event of the pipeline is the
    call of the bundler. *)
Lemma pipeline_starts_with_bundling h input icon platform obfuscate exe d :
  exists outcome rest,
    emitted (pipeline h input icon platform obfuscate exe d) =
      Called (EsbuildBuild input "out.js") d outcome :: rest.
Proof.
  unfold pipeline. unfold_binds. unfold bind at 1. unfold bundleProject, tool, outputFile.
  destruct (esbuild_build h input "out.js" d) as [message|bundled]; [cbn; eauto|].
  match goal with
  | |- context [match ?x with Step _ _ _ => _ end] => destruct x as [r dn j]
  end.
  cbn. eauto.
Qed.

(** * An invariant of the journal: how the injector is called *)

Section JournalAll.

Context (P : Event -> Prop).

Lemma journal_all_ret {A} (a : A) : journal_all P (ret a).
Proof. intros d e []. Qed.

Lemma journal_all_throw {A} message : journal_all P (@throw A message).
Proof. intros d e []. Qed.

Lemma journal_all_exit {A} code : journal_all P (@process_exit A code).
Proof. intros d e []. Qed.

Lemma journal_all_emit ev : P ev -> journal_all P (emit ev).
Proof. intros H d e [<-|[]]. exact H. Qed.

Lemma journal_all_lift {A} (v : string + A) : journal_all P (lift v).
Proof. destruct v; intros d e []. Qed.

Lemma journal_all_existsSync path : journal_all P (existsSync path).
Proof. intros d e []. Qed.

Lemma journal_all_bind {A B} (m : M A) (k : A -> M B) :
  journal_all P m -> (forall a, journal_all P (k a)) -> journal_all P (bind m k).
Proof.
  intros Hm Hk d e. unfold bind.
  pose proof (Hm d) as Hm'. destruct (m d) as [[a|msg|c] d1 j1]; cbn [emitted] in *; auto.
  pose proof (Hk a d1) as Hk'. destruct (k a d1) as [r d2 j2]; cbn [emitted] in *.
  rewrite in_app_iff. intros [H|H]; auto.
Qed.

Lemma journal_all_bind_ret {A B} (a : A) (k : A -> M B) :
  journal_all P (k a) -> journal_all P (bind (ret a) k).
Proof.
  intros Hk d e. unfold bind, ret. pose proof (Hk d) as Hk'.
  destruct (k a d) as [r d2 j2]; cbn [emitted app] in *. auto.
Qed.

Lemma journal_all_try_catch {A} (body : M A) (handler : string -> M A) :
  journal_all P body -> (forall msg, journal_all P (handler msg)) ->
  journal_all P (try_catch body handler).
Proof.
  intros Hb Hh d e. unfold try_catch.
  pose proof (Hb d) as Hb'. destruct (body d) as [[a|msg|c] d1 j1]; cbn [emitted] in *; auto.
  pose proof (Hh msg d1) as Hh'. destruct (handler msg d1) as [r d2 j2]; cbn [emitted] in *.
  rewrite in_app_iff. intros [H|H]; auto.
Qed.

Lemma journal_all_fs_call {A} h op syscall path (effect : Disk -> option (A * Disk)) :
  (forall before outcome, P (Called (Fs op) before outcome)) ->
  journal_all P (fs_call h op syscall path effect).
Proof.
  intros H d e. unfold fs_call.
  destruct (os_denies h op d); [|destruct (effect d) as [[a d']|]];
    cbn [emitted]; intros [<-|[]]; apply H.
Qed.

Lemma journal_all_fs_write h op syscall named target source :
  (forall before outcome, P (Called (Fs op) before outcome)) ->
  journal_all P (fs_write h op syscall named target source).
Proof.
  intros H d e. unfold fs_write.
  destruct (os_denies h op d); [|destruct (source d) as [data|]; [destruct (os_cuts h op d)|]];
    cbn [emitted]; intros [<-|[]]; apply H.
Qed.

Lemma journal_all_tool c answer :
  (forall before outcome, P (Called c before outcome)) -> journal_all P (tool c answer).
Proof.
  intros H d e. unfold tool. destruct (answer d); cbn [emitted]; intros [<-|[]]; apply H.
Qed.

Lemma journal_all_JsConfuser_call h code :
  (forall before outcome, P (Called (JsConfuserObfuscate code) before outcome)) ->
  journal_all P (JsConfuser_call h code).
Proof.
  intros H d e. unfold JsConfuser_call.
  destruct (JsConfuser_obfuscate h code); cbn [emitted]; intros [<-|[]]; apply H.
Qed.

Lemma journal_all_spawnNode h path :
  (forall args before outcome, P (Called (SpawnNode args) before outcome)) ->
  journal_all P (spawnNode h path).
Proof.
  intros H d e. unfold spawnNode.
  destruct (node_child h _ d) as [msg|[[[code out] err] d']]; [|destruct (Js.is_zero code)];
    cbn [emitted]; intros [<-|[]]; apply H.
Qed.

End JournalAll.

(** Reduces [journal_all P stage] to the events the stage can emit. *)
Ltac journal_all_steps :=
  repeat lazymatch goal with
    | |- journal_all _ (bind _ _) => apply journal_all_bind
    | |- journal_all _ (try_catch _ _) => apply journal_all_try_catch
    | |- journal_all _ (ret _) => apply journal_all_ret
    | |- journal_all _ (throw _) => apply journal_all_throw
    | |- journal_all _ (process_exit _) => apply journal_all_exit
    | |- journal_all _ (lift _) => apply journal_all_lift
    | |- journal_all _ (existsSync _) => apply journal_all_existsSync
    | |- journal_all _ (emit _) => apply journal_all_emit
    | |- journal_all _ (fs_call _ _ _ _ _) => apply journal_all_fs_call
    | |- journal_all _ (fs_write _ _ _ _ _ _) => apply journal_all_fs_write
    | |- journal_all _ (tool _ _) => apply journal_all_tool
    | |- journal_all _ (JsConfuser_call _ _) => apply journal_all_JsConfuser_call
    | |- journal_all _ (spawnNode _ _) => apply journal_all_spawnNode
    | |- journal_all _ (if ?b then _ else _) => destruct b
    | |- journal_all _ (match ?x with _ => _ end) => destruct x
    | |- journal_all _ (let _ := _ in _) => cbv zeta
    | |- forall _, _ => intro
    end.

Lemma injector_call_ok platform exe blob before outcome :
  before !! output seaConfig = Some blob ->
  injector_called_as platform exe
    (Called (PostjectInject exe "NODE_SEA_BLOB" blob
               {| sentinelFuse := "NODE_SEA_FUSE_fce680ab2cc467b6e072b8b5df1996b2";
                  machoSegmentName :=
                    if Js.strict_eq platform "macos" then Some "NODE_SEA" else None |})
            before outcome).
Proof.
  intros Hblob. unfold injector_called_as. cbn [sentinelFuse machoSegmentName].
  pose proof (strict_eq_spec platform "macos") as Hmac.
  split; [reflexivity|]. split; [reflexivity|]. split; [exact atob_FUSE_LITERAL|].
  split; [reflexivity|]. split; [|split; [|exact Hblob]].
  - intros Hp. apply Hmac in Hp. now rewrite Hp.
  - intros Hp. destruct (Js.strict_eq platform "macos"); [|reflexivity].
    contradiction Hp. now apply Hmac.
Qed.

Section InjectorInvariant.

Context (h : Host) (platform : option string) (exe : string).

Let P := injector_called_as platform exe.

Lemma injector_bundleProject input : journal_all P (bundleProject h input).
Proof. unfold bundleProject. journal_all_steps. exact I. Qed.

Lemma injector_obfuscateOutputFile file : journal_all P (obfuscateOutputFile h file).
Proof.
  unfold obfuscateOutputFile, readFileSync, writeFileSync. unfold_binds.
  journal_all_steps; exact I.
Qed.

Lemma injector_generateSEABlob config : journal_all P (generateSEABlob h config).
Proof.
  unfold generateSEABlob, writeFileSync, unlinkSync. unfold_binds.
  journal_all_steps; exact I.
Qed.

Lemma injector_createExecutableCopy path : journal_all P (createExecutableCopy h path).
Proof.
  unfold createExecutableCopy, mkdirSync_recursive, copyFileSync. unfold_binds.
  journal_all_steps; exact I.
Qed.

Lemma injector_setIcon executable iconPath : journal_all P (setIcon h executable iconPath).
Proof. unfold setIcon. unfold_binds. unfold_logs. journal_all_steps; exact I. Qed.

Lemma injector_setExecutableIcon path icon platform' :
  journal_all P (setExecutableIcon h path icon platform').
Proof.
  unfold setExecutableIcon. unfold_binds. unfold_logs.
  journal_all_steps; try apply injector_setIcon; exact I.
Qed.

(** The one stage that calls the injector: with the stage's own
    arguments, the decoded sentinel and the platform's segment hint, on
    the blob it has just read. *)
Lemma injector_injectSEABlob :
  journal_all P (injectSEABlobIntoNodeExecutable h platform exe (output seaConfig)).
Proof.
  unfold injectSEABlobIntoNodeExecutable. rewrite atob_FUSE_LITERAL.
  unfold_binds. unfold_logs.
  apply journal_all_bind; [apply journal_all_emit; exact I|intros _].
  apply journal_all_bind_ret.
  apply journal_all_bind; [apply journal_all_existsSync|intros present].
  apply journal_all_bind; [destruct (negb present); journal_all_steps|intros _].
  (* the read leaves the disk as it is and returns the blob's content *)
  intros d e. unfold_fs. unfold_monad.
  remember (if Js.strict_eq platform "macos" then Some "NODE_SEA" else None) as hint eqn:Hhint.
  run_paths; cbn [emitted app In]; subst hint.
  all: intros He; repeat (destruct He as [<-|He]; [first [exact I | now apply injector_call_ok]|]).
  all: destruct He.
Qed.

Lemma injector_pipeline input icon obfuscate :
  journal_all P (pipeline h input icon platform obfuscate exe).
Proof.
  unfold pipeline. unfold_binds. unfold_logs.
  repeat lazymatch goal with
    | |- journal_all _ (bind _ _) => apply journal_all_bind; [|intros _]
    | |- journal_all _ (emit _) => apply journal_all_emit; exact I
    | |- journal_all _ (ret _) => apply journal_all_ret
    | |- journal_all _ (if ?b then _ else _) => destruct b
    | |- journal_all _ (bundleProject _ _) => apply injector_bundleProject
    | |- journal_all _ (obfuscateOutputFile _ _) => apply injector_obfuscateOutputFile
    | |- journal_all _ (generateSEABlob _ _) => apply injector_generateSEABlob
    | |- journal_all _ (createExecutableCopy _ _) => apply injector_createExecutableCopy
    | |- journal_all _ (setExecutableIcon _ _ _ _) => apply injector_setExecutableIcon
    | |- journal_all _ (injectSEABlobIntoNodeExecutable _ _ _ _) =>
        apply injector_injectSEABlob
    end.
Qed.

End InjectorInvariant.

(** With the blob on disk and readable, the stage does call the injector. *)
Lemma injectSEABlob_calls_injector h platform exe d blob :
  d !! output seaConfig = Some blob ->
  os_denies h (OpRead (output seaConfig)) d = false ->
  existsb is_injection
    (emitted (injectSEABlobIntoNodeExecutable h platform exe (output seaConfig) d)) = true.
Proof.
  intros Hblob Hread.
  focus_on (injectSEABlobIntoNodeExecutable h platform exe (output seaConfig) d).
  unfold injectSEABlobIntoNodeExecutable. unfold_fs. unfold_monad.
  rewrite atob_FUSE_LITERAL.
  remember (if Js.strict_eq platform "macos" then Some "NODE_SEA" else None) as hint.
  run_paths; try reflexivity; try congruence.
  match goal with
  | H : negb (exists_on _ _) = true |- _ => apply negb_true_iff, exists_on_None in H
  end.
  congruence.
Qed.

(** C3. In every run, on every host, whenever the injector is called it
    is called on the path of the copied executable, with the segment name
    NODE_SEA_BLOB, with the sentinel obtained by decoding the embedded
    base64 literal (NODE_SEA_FUSE_fce680ab2cc467b6e072b8b5df1996b2), with
    the segment hint NODE_SEA when the platform is macos and with no hint
    for any other platform value, and on the blob read from sea-prep.blob;
    and the injection stage does call it whenever that blob is on disk and
    can be read. *)
Theorem C3_injector_arguments h argv d opts e :
  Commander.parse program_options "1.0.0" (drop 2 argv) = Commander.Parsed opts ->
  In e (emitted (sea_builder h argv d)) ->
  let platform := Commander.get opts "platform" in
  exists executableOutputPath,
    getExecutableOutputPath platform = inr executableOutputPath /\
    injector_called_as platform executableOutputPath e /\
    forall d' blob,
      d' !! "sea-prep.blob" = Some blob ->
      os_denies h (OpRead "sea-prep.blob") d' = false ->
      existsb is_injection
        (emitted (injectSEABlobIntoNodeExecutable h platform executableOutputPath
                    "sea-prep.blob" d')) = true.
Proof.
  intros Hparse He. cbv zeta. rewrite getExecutableOutputPath_eq. eexists.
  split; [reflexivity|]. split; [|intros d' blob; apply injectSEABlob_calls_injector].
  destruct (sea_builder_cases h argv d) as [Hrun|[(code & reason & Hp & Hrun)
       |[(opts' & failure & Hp & Hb & Hrun)|(opts' & banner & Hp & Hb & Hrun)]]].
  - rewrite Hrun in He. destruct He as [<-|[]]. exact I.
  - congruence.
  - rewrite Hrun in He. destruct He.
  - rewrite Hp in Hparse. injection Hparse as ->.
    rewrite Hrun, (main_eq _ _ _ _ _ _ _ _ Hb) in He.
    pose proof (injector_pipeline h (Commander.get opts "platform")
                  (if Js.strict_eq (Commander.get opts "platform") "win32"
                   then "dist/out.exe" else "dist/out")
                  (Commander.get opts "input") (Commander.get opts "icon")
                  (Commander.flag opts "obfuscate") d) as Hall.
    destruct (pipeline _ _ _ _ _ _ d) as [[a|msg|c] d1 journal]; cbn [emitted] in *.
    + destruct He as [<-|He]; [exact I|]. now apply Hall.
    + destruct He as [<-|He]; [exact I|]. apply in_app_iff in He as [He|[<-|[]]]; [|exact I].
      now apply Hall.
    + destruct He as [<-|He]; [exact I|]. now apply Hall.
Qed.

(** The injector call of the sample run for linux: dist/out, segment
    NODE_SEA_BLOB, the decoded fuse, no Mach-O segment, the blob on disk. *)
Lemma C3_witness :
  injector_called_as (Some "linux") "dist/out" sample_injection.
Proof.
  destruct (C3_injector_arguments (sample_host node20 None no_denial)
              (sample_argv "linux" []) sample_disk (sample_opts "linux" false)
              sample_injection)
    as (executableOutputPath & Hpath & Hcall & _).
  - vm_compute. reflexivity.
  - in_explicit_journal.
  - injection Hpath as <-. exact Hcall.
Defined.

(** * The platform option *)

(** C9 (amended). Every run that makes a call (to the file system or to
    a tool) was given an entry file and a platform: both are required
    options, and a command line without them ends the process before any
    stage.  The platform is not checked against win32, linux and macos:
    whatever string follows -p is accepted and reaches the stages, the run
    being [main] with that string as its platform, which goes on to the
    bundler, and every call of the injector being made for that string:
    on the output path it selects, with the Mach-O segment name exactly
    when it is macos. *)
Theorem C9_required_options_present :
  (forall h argv d call before outcome,
     In (Called call before outcome) (emitted (sea_builder h argv d)) ->
     exists opts input platform,
       Commander.parse program_options "1.0.0" (drop 2 argv) = Commander.Parsed opts /\
       Commander.get opts "input" = Some input /\
       Commander.get opts "platform" = Some platform) /\
  (forall h node script file platform d banner,
     Semver.gte (process_version h) minimum_version = true ->
     figlet_textSync h = inr banner ->
     let r := sea_builder h [node; script; "-i"; file; "-p"; platform] d in
     r = main h (Some file) None (Some platform) false
           (if String.eqb platform "win32" then "dist/out.exe" else "dist/out") d /\
     (exists outcome rest,
        emitted r = Splash :: Called (EsbuildBuild (Some file) "out.js") d outcome :: rest) /\
     forall e, In e (emitted r) ->
       injector_called_as (Some platform)
         (if String.eqb platform "win32" then "dist/out.exe" else "dist/out") e).
Proof.
  split.
  - intros h argv d call before outcome Hin.
    destruct (sea_builder_cases h argv d)
      as [Hrun|[(code & reason & Hp & Hrun)
               |[(opts & failure & Hp & Hb & Hrun)|(opts & banner & Hp & Hb & Hrun)]]].
    + rewrite Hrun in Hin. destruct Hin as [Hin|[]]. discriminate Hin.
    + rewrite Hrun in Hin. destruct Hin.
    + rewrite Hrun in Hin. destruct Hin.
    + destruct (parse_required _ _ _ Hp) as ((input & Hinput) & (platform & Hplatform)).
      exists opts, input, platform. auto.
  - intros h node script file platform d banner Hv Hb. cbv zeta.
    rewrite (sea_builder_parsed h [node; script; "-i"; file; "-p"; platform] d _ banner Hv
               (parse_any_platform file platform) Hb).
    split; [reflexivity|].
    change (Commander.get _ "input") with (Some file).
    change (Commander.get _ "icon") with (@None string).
    change (Commander.get _ "platform") with (Some platform).
    rewrite (main_eq _ _ _ _ _ _ _ _ Hb).
    destruct (pipeline_starts_with_bundling h (Some file) None (Some platform)
                (Commander.flag (<["platform" := Commander.Str platform]>
                                   (<["input" := Commander.Str file]> ∅)) "obfuscate")
                (if Js.strict_eq (Some platform) "win32" then "dist/out.exe" else "dist/out") d)
      as (outcome & rest & Hj).
    pose proof (injector_pipeline h (Some platform)
                  (if Js.strict_eq (Some platform) "win32" then "dist/out.exe" else "dist/out")
                  (Some file) None
                  (Commander.flag (<["platform" := Commander.Str platform]>
                                     (<["input" := Commander.Str file]> ∅)) "obfuscate") d)
      as Hall.
    destruct (pipeline _ _ _ _ _ _ d) as [[a|msg|c] d1 journal]; cbn [emitted] in *;
      subst journal; (split; [eauto|]); intros e He.
    + destruct He as [<-|He]; [exact I|]. now apply Hall.
    + destruct He as [<-|He]; [exact I|].
      apply in_app_iff in He as [He|[<-|[]]]; [|exact I]. now apply Hall.
    + destruct He as [<-|He]; [exact I|]. now apply Hall.
Qed.

(** C9, as stated, fails: the platform freebsd is outside the enumeration,
    and a run configured with it goes through every stage and succeeds. *)
Lemma C9_platform_outside_enumeration :
  let argv := sample_argv "freebsd" [] in
  let r := sea_builder (sample_host node20 None no_denial) argv sample_disk in
  match Commander.parse program_options "1.0.0" (drop 2 argv) with
  | Commander.Parsed opts => Commander.get opts "platform" = Some "freebsd"
  | Commander.Exit _ _ => False
  end /\
  ~ In "freebsd" ["win32"; "linux"; "macos"] /\
  existsb injection_succeeded (emitted r) = true /\
  exit_status r = 0%Z.
Proof.
  cbv zeta. split; [reflexivity|]. split.
  - cbn. intuition discriminate.
  - split; vm_compute; reflexivity.
Qed.

(** * Runs as equations: what a sequence of stages did *)

Lemma bind_inv {A B} (m : M A) (k : A -> M B) d r d2 j :
  bind m k d = Step r d2 j ->
  (exists a d1 j1 j2,
     m d = Step (Returned a) d1 j1 /\ k a d1 = Step r d2 j2 /\ j = j1 ++ j2) \/
  (exists e, m d = Step (Thrown e) d2 j /\ r = Thrown e) \/
  (exists c, m d = Step (Exited c) d2 j /\ r = Exited c).
Proof.
  unfold bind. destruct (m d) as [[a|e|c] d1 j1].
  - destruct (k a d1) as [r' d2' j2] eqn:Hk. intros [= <- <- <-].
    left. exists a, d1, j1, j2. auto.
  - intros [= <- <- <-]. right; left. eauto.
  - intros [= <- <- <-]. right; right. eauto.
Qed.

Lemma emit_inv e d r d1 j : emit e d = Step r d1 j -> r = Returned tt /\ d1 = d /\ j = [e].
Proof. intros [= <- <- <-]. auto. Qed.

Lemma ret_inv {A} (a : A) d r d1 j : ret a d = Step r d1 j -> r = Returned a /\ d1 = d /\ j = [].
Proof. intros [= <- <- <-]. auto. Qed.

Lemma bundleProject_returned h input d a d1 j :
  bundleProject h input d = Step (Returned a) d1 j ->
  esbuild_build h input outputFile d = inr d1 /\
  j = [Called (EsbuildBuild input outputFile) d (Done d1)].
Proof.
  unfold bundleProject, tool. destruct (esbuild_build h input outputFile d); intros [= <- <- <-].
  auto.
Qed.

Lemma obfuscateOutputFile_returned h file d a d1 j :
  obfuscateOutputFile h file d = Step (Returned a) d1 j ->
  exists code obfuscated,
    d !! file = Some code /\
    JsConfuser_obfuscate h code = inr obfuscated /\
    d1 = <[file := obfuscated]> d /\
    j = [Called (Fs (OpRead file)) d (Done d);
         Called (JsConfuserObfuscate code) d (Done d);
         Called (Fs (OpWrite file obfuscated)) d (Done d1)].
Proof.
  revert a d1 j. focus_on (obfuscateOutputFile h file d).
  unfold obfuscateOutputFile. unfold_fs. unfold_monad.
  run_paths; intros a d1 j Heq; try discriminate Heq.
  injection Heq as <- <- <-. eauto 10.
Qed.

Lemma generateSEABlob_returned h d a d1 j :
  generateSEABlob h seaConfig d = Step (Returned a) d1 j ->
  let config := "sea-config.json" in
  let written := <[config := JSON_stringify seaConfig]> d in
  let args := ["--experimental-sea-config"; config] in
  exists code stdout stderr left,
    node_child h args written = inr (code, stdout, stderr, left) /\
    is_Some (left !! output seaConfig) /\
    d1 = delete config left /\
    j = [Called (Fs (OpWrite config (JSON_stringify seaConfig))) d (Done written);
         Called (SpawnNode args) written (Done left);
         Called (Fs (OpUnlink config)) left (Done d1)].
Proof.
  cbv zeta. revert a d1 j. focus_on (generateSEABlob h seaConfig d).
  unfold generateSEABlob. unfold_fs. unfold_monad.
  run_paths; intros a d1 j Heq; try discriminate Heq.
  injection Heq as <- <- <-. do 4 eexists. split; [reflexivity|]. split; [|auto].
  apply exists_on_Some. now apply negb_false_iff.
Qed.

Lemma createExecutableCopy_returned h path d a d1 j :
  createExecutableCopy h path d = Step (Returned a) d1 j ->
  exists binary,
    d !! process_execPath h = Some binary /\
    d1 = <[path := binary]> d /\
    j = [Called (Fs (OpMkdir (Path.dirname path))) d (Done d);
         Called (Fs (OpCopy (process_execPath h) path)) d (Done d1)].
Proof.
  revert a d1 j. focus_on (createExecutableCopy h path d).
  unfold createExecutableCopy. unfold_fs. unfold_monad.
  run_paths; intros a d1 j Heq; try discriminate Heq.
  injection Heq as <- <- <-. eauto.
Qed.

Lemma setExecutableIcon_returned h path icon platform d a d1 j :
  setExecutableIcon h path icon platform d = Step (Returned a) d1 j ->
  d1 = d \/ exists resolved, rcedit h path resolved d = inr d1.
Proof.
  revert a d1 j. focus_on (setExecutableIcon h path icon platform d).
  unfold setExecutableIcon, setIcon. unfold_fs. unfold_monad.
  run_paths; intros a d1 j Heq; try discriminate Heq.
  all: injection Heq as <- <- <-; eauto.
Qed.

Lemma injectSEABlob_returned h platform executable d a d1 j :
  injectSEABlobIntoNodeExecutable h platform executable (output seaConfig) d
    = Step (Returned a) d1 j ->
  exists blob options injected,
    d !! output seaConfig = Some blob /\
    postject_inject h executable "NODE_SEA_BLOB" blob options d = inr injected /\
    d1 = delete outputFile (delete (output seaConfig) injected).
Proof.
  revert a d1 j.
  focus_on (injectSEABlobIntoNodeExecutable h platform executable (output seaConfig) d).
  unfold injectSEABlobIntoNodeExecutable. unfold_fs. unfold_monad. rewrite atob_FUSE_LITERAL.
  remember (if Js.strict_eq platform "macos" then Some "NODE_SEA" else None) as hint.
  run_paths; intros a d1 j Heq; try discriminate Heq.
  injection Heq as <- <- <-. eauto 10.
Qed.

(** A stage whose events the recogniser [f] all rejects did not emit [e]. *)
Lemma stage_rejects {A} (f : Event -> bool) (m : M A) d r d1 j e :
  m d = Step r d1 j -> In e j -> f e = true ->
  journal_all (fun e => f e = false) m -> False.
Proof.
  intros Hm Hin Hf Hall. specialize (Hall d e). rewrite Hm in Hall.
  specialize (Hall Hin). congruence.
Qed.

Ltac stage_journal :=
  unfold bundleProject, obfuscateOutputFile, generateSEABlob, createExecutableCopy,
    setExecutableIcon, setIcon, injectSEABlobIntoNodeExecutable, readFileSync,
    writeFileSync, unlinkSync, mkdirSync_recursive, copyFileSync;
  unfold_binds; unfold_logs; journal_all_steps; reflexivity.

(** [H] is the equation of a sequence [m ;; k] and [Hin] places an event,
    accepted by [f], in its journal, while [f] rejects every event of [m]:
    then [m] returned, by the equation [Hstage], leaving the disk [d'] and
    the journal [j'], and the event belongs to what follows. *)
Ltac walk_past_as f H Hin Hstage d' j' :=
  apply bind_inv in H
    as [(? & d' & j' & ? & Hstage & H & ->) | [(? & Hstage & ->) | (? & Hstage & ->)]];
  [ apply in_app_iff in Hin as [Hin|Hin];
    [ exfalso; apply (stage_rejects f _ _ _ _ _ _ Hstage Hin); [reflexivity|stage_journal] | ]
  | exfalso; apply (stage_rejects f _ _ _ _ _ _ Hstage Hin); [reflexivity|stage_journal]
  | exfalso; apply (stage_rejects f _ _ _ _ _ _ Hstage Hin); [reflexivity|stage_journal] ].

(** As [walk_past_as], with fresh names. *)
Ltac walk_past f H Hin :=
  let Hstage := fresh "Hstage" in
  let d' := fresh "d" in
  let j' := fresh "j" in
  walk_past_as f H Hin Hstage d' j'.

(** [H] is the equation of a sequence [m ;; k] that returned: so did [m],
    by the equation [Hstage], leaving the disk [d'] and the journal [j']. *)
Ltac walk_returned H Hstage d' j' :=
  let Hr := fresh "Hr" in
  apply bind_inv in H
    as [(? & d' & j' & ? & Hstage & H & ->) | [(? & _ & Hr) | (? & _ & Hr)]];
  [ | discriminate Hr | discriminate Hr ].

Ltac log_returned H := apply emit_inv in H as (_ & -> & _).

(** * Preparation blob generation *)

Lemma JSON_stringify_seaConfig :
  let q := String "034"%char EmptyString in
  let nl := String "010"%char EmptyString in
  JSON_stringify seaConfig =
    "{" +:+ nl
      +:+ "  " +:+ q +:+ "main" +:+ q +:+ ": " +:+ q +:+ "out.js" +:+ q +:+ "," +:+ nl
      +:+ "  " +:+ q +:+ "output" +:+ q +:+ ": " +:+ q +:+ "sea-prep.blob" +:+ q +:+ "," +:+ nl
      +:+ "  " +:+ q +:+ "disableExperimentalSEAWarning" +:+ q +:+ ": true" +:+ nl
      +:+ "}".
Proof. reflexivity. Qed.

(** C2. The stage first writes the descriptor, serialised as JSON text
    (an object of the three members main, output and
    disableExperimentalSEAWarning, one per line, indented by two spaces),
    to sea-config.json and then runs the child process on the disk that
    holds it.  When the process exits with code 0 and the blob file is not
    on the disk it leaves, the stage throws and leaves the disk as the
    process left it: the descriptor is not deleted.  When the blob file is
    there, the stage deletes the descriptor as its last action, and it
    returns successfully exactly when that deletion succeeds, with the
    descriptor gone. *)
Theorem C2_blob_generation h d :
  let config := "sea-config.json" in
  let q := String "034"%char EmptyString in
  let nl := String "010"%char EmptyString in
  let json :=
    "{" +:+ nl
      +:+ "  " +:+ q +:+ "main" +:+ q +:+ ": " +:+ q +:+ "out.js" +:+ q +:+ "," +:+ nl
      +:+ "  " +:+ q +:+ "output" +:+ q +:+ ": " +:+ q +:+ "sea-prep.blob" +:+ q +:+ "," +:+ nl
      +:+ "  " +:+ q +:+ "disableExperimentalSEAWarning" +:+ q +:+ ": true" +:+ nl
      +:+ "}" in
  let args := ["--experimental-sea-config"; config] in
  let s := generateSEABlob h seaConfig d in
  (exists outcome rest,
     emitted s = Called (Fs (OpWrite config json)) d outcome :: rest /\
     match outcome with
     | Failed message => rest = [] /\ result s = Thrown message
     | Done written =>
         written = <[config := json]> d /\
         exists outcome' rest', rest = Called (SpawnNode args) written outcome' :: rest'
     end) /\
  (forall before left,
     In (Called (SpawnNode args) before (Done left)) (emitted s) ->
     (exists code stdout stderr,
        node_child h args before = inr (code, stdout, stderr, left) /\ Js.is_zero code = true /\
        (left !! output seaConfig = None ->
           result s = Thrown ("SEA preparation blob file was not created: " +:+ output seaConfig
                                +:+ Js.nl +:+ "STDERR:" +:+ Js.nl +:+ stderr) /\
           disk_after s = left /\
           emitted s = [Called (Fs (OpWrite config json)) d (Done before);
                        Called (SpawnNode args) before (Done left)])) /\
     (is_Some (left !! output seaConfig) ->
        exists outcome,
          emitted s = [Called (Fs (OpWrite config json)) d (Done before);
                       Called (SpawnNode args) before (Done left);
                       Called (Fs (OpUnlink config)) left outcome] /\
          match outcome with
          | Done final =>
              final = delete config left /\ result s = Returned tt /\
              disk_after s = final /\ disk_after s !! config = None
          | Failed message => result s = Thrown message /\ disk_after s = left
          end)).
Proof.
  cbv zeta. rewrite <- JSON_stringify_seaConfig. focus_on (generateSEABlob h seaConfig d).
  unfold generateSEABlob. unfold_fs. unfold_monad.
  run_paths; cbn [result disk_after emitted app In].
  all: split;
    [ do 2 eexists; split; [reflexivity|]; cbn beta iota;
      first [ split; reflexivity | split; [reflexivity|]; do 2 eexists; reflexivity ]
    | intros before left Hin; in_journal Hin ].
  all: (split;
    [ do 3 eexists; split; [eassumption|]; split; [assumption|]; intros Hblob
    | intros Hblob ]).
  all: try contradict_presence.
  all: try (repeat split; reflexivity).
  all: eexists; (split; [reflexivity|]); cbn beta iota; repeat split; try reflexivity.
  apply lookup_delete_eq.
Qed.

(** * The icon stage *)

Lemma setIcon_eq h executable iconPath d :
  setIcon h executable (Some iconPath) d =
    let resolved := Path.resolve (process_cwd h) iconPath in
    match rcedit h executable resolved d with
    | inr d' => Step (Returned tt) d' [Called (Rcedit executable resolved) d (Done d')]
    | inl message =>
        Step (Returned tt) d
          [Called (Rcedit executable resolved) d (Failed message);
           Log LevelError ("Error setting icon: " +:+ message)]
    end.
Proof.
  unfold setIcon, path_resolve. unfold_fs. unfold_monad. cbn beta iota zeta.
  destruct (rcedit h executable _ d); reflexivity.
Qed.

Lemma join_default_icon appDataDir :
  exists iconPath,
    Path.join [Some appDataDir; Some "npm"; Some "node_modules"; Some "sea-builder";
               Some "default.ico"] = inr iconPath.
Proof.
  destruct (Path.join _) as [message|iconPath] eqn:Hjoin; [|eauto].
  exfalso. revert Hjoin. unfold Path.join.
  destruct (Path.join_args None _) as [|[|]] eqn:Hargs; try discriminate.
  revert Hargs. cbn. repeat (destruct (String.eqb _ _)); discriminate.
Qed.



Lemma icon_stage_throws h executableOutputPath d :
  env_APPDATA h = None ->
  setExecutableIcon h executableOutputPath None (Some "win32") d =
    Step (Thrown (Path.invalid_arg None)) d [].
Proof.
  intros Happ. unfold setExecutableIcon. unfold_fs. unfold_monad.
  rewrite Happ. reflexivity.
Qed.

Lemma pipeline_without_APPDATA h input obfuscate executableOutputPath d :
  env_APPDATA h = None ->
  let s := pipeline h input None (Some "win32") obfuscate executableOutputPath d in
  (exists message, result s = Thrown message) /\
  (forall e, In e (emitted s) -> ~ past_icon_path e) /\
  (In (Log LevelInfo "Executable copy created successfully") (emitted s) ->
   result s = Thrown (Path.invalid_arg None)).
Proof.
  intros Happ. cbv zeta.
  focus_on (pipeline h input None (Some "win32") obfuscate executableOutputPath d).
  unfold_stages. unfold_fs. unfold_monad. unfold chalk. rewrite Happ, join_undefined.
  change (Js.truthy None) with false.
  change (Js.strict_eq (Some "win32") "win32") with true.
  run_paths; cbn [result disk_after emitted app].
  all: split; [eexists; reflexivity|split].
  all: try (all_events ltac:(cbn; tauto)).
  all: try reflexivity.
  all: intros He; cbn [In] in He; in_journal He.
Qed.

(** C10. With no icon path, platform win32 and APPDATA unset, the icon
    stage throws a TypeError while joining the default icon path, before
    it calls the icon editor; the run exits with status 1, never reaches
    the icon editor or the injector, and when the executable had been
    copied the logged fatal error is that TypeError. *)
Theorem C10_default_icon_needs_APPDATA h argv d opts :
  env_APPDATA h = None ->
  Commander.parse program_options "1.0.0" (drop 2 argv) = Commander.Parsed opts ->
  Commander.get opts "icon" = None ->
  Commander.get opts "platform" = Some "win32" ->
  let r := sea_builder h argv d in
  (forall executableOutputPath d',
     setExecutableIcon h executableOutputPath None (Some "win32") d' =
       Step (Thrown (Path.invalid_arg None)) d' []) /\
  exit_status r = 1%Z /\
  (forall e, In e (emitted r) -> ~ past_icon_path e) /\
  (In (Log LevelInfo "Executable copy created successfully") (emitted r) ->
   In (Log LevelError ("An unexpected error occurred: " +:+ Path.invalid_arg None)) (emitted r)).
Proof.
  intros Happ Hparse Hicon Hplatform. cbv zeta.
  split; [intros; now apply icon_stage_throws|].
  destruct (sea_builder_cases h argv d) as [Hrun|[(code & reason & Hp & Hrun)
       |[(opts' & failure & Hp & Hb & Hrun)|(opts' & banner & Hp & Hb & Hrun)]]].
  - rewrite Hrun. cbn [exit_status result emitted]. split; [reflexivity|]. split.
    + all_events ltac:(cbn; tauto).
    + intros He. in_journal He.
  - congruence.
  - rewrite Hrun. cbn [exit_status result emitted]. split; [reflexivity|].
    split; [intros e []|intros []].
  - rewrite Hp in Hparse. injection Hparse as ->.
    rewrite Hrun, Hicon, Hplatform, (main_eq _ _ _ _ _ _ _ _ Hb).
    destruct (pipeline_without_APPDATA h (Commander.get opts "input")
                (Commander.flag opts "obfuscate")
                (if Js.strict_eq (Some "win32") "win32" then "dist/out.exe" else "dist/out")
                d Happ) as ((message & Hthrown) & Hevents & Hcopy).
    destruct (pipeline _ _ _ _ _ _ d) as [res d1 journal]; cbn [result emitted] in *.
    subst res. cbn [exit_status result emitted]. split; [reflexivity|]. split.
    + intros e [<-|He]; [cbn; tauto|].
      apply in_app_iff in He as [He|[<-|[]]]; [now apply Hevents|cbn; tauto].
    + intros [He|He]; [discriminate He|].
      apply in_app_iff in He as [He|[He|[]]]; [|discriminate He].
      apply Hcopy in He. injection He as ->. right. apply in_app_iff. right. now left.
Qed.

(** The sample run for win32, no icon and APPDATA unset exits with 1. *)
Lemma C10_witness :
  exit_status (sea_builder (sample_host node20 None no_denial) (sample_argv "win32" [])
                 sample_disk) = 1%Z.
Proof.
  apply (C10_default_icon_needs_APPDATA (sample_host node20 None no_denial)
           (sample_argv "win32" []) sample_disk (sample_opts "win32" false)).
  - reflexivity.
  - vm_compute. reflexivity.
  - reflexivity.
  - reflexivity.
Defined.

(** C5: the code at the failing input.  Platform win32, no icon, APPDATA
    unset: the icon stage throws, the run logs the error as unexpected and
    exits with status 1 without calling the injector. *)
Lemma C5_icon_stage_aborts_the_run :
  let r := sea_builder (sample_host node20 None no_denial) (sample_argv "win32" [])
             sample_disk in
  exit_status r = 1%Z /\
  last (emitted r) =
    Some (Log LevelError ("An unexpected error occurred: " +:+ Path.invalid_arg None)) /\
  existsb is_injection (emitted r) = false /\
  is_Some (disk_after r !! "dist/out.exe") /\
  is_Some (disk_after r !! "sea-prep.blob").
Proof.
  cbv zeta. split; [vm_compute; reflexivity|]. split; [vm_compute; reflexivity|].
  split; [vm_compute; reflexivity|]. split; vm_compute; eauto.
Qed.

(** * Cleanup after the injection *)

(** Narrows [H : In e journal], for an explicit journal, to the events
    the recogniser [f] accepts. *)
Ltac select_events f H :=
  apply (in_filter f) in H; [|reflexivity];
  cbn [List.filter injection_succeeded] in H;
  repeat (destruct H as [H|H]; [inversion H; subst; clear H|]);
  try (now destruct H).

(** The three ways a run can end once the injector has succeeded. *)
Lemma injectSEABlob_cleanup h platform exe d r d1 j executable segment blob options
    before injected :
  injectSEABlobIntoNodeExecutable h platform exe (output seaConfig) d = Step r d1 j ->
  let injection := Called (PostjectInject executable segment blob options) before (Done injected) in
  let removeBlob := Called (Fs (OpUnlink "sea-prep.blob")) injected in
  let withoutBlob := delete "sea-prep.blob" injected in
  let removeBundle := Called (Fs (OpUnlink "out.js")) withoutBlob in
  In injection j ->
  exists pre,
    (exists message,
       j = pre ++ [injection; removeBlob (Failed message)] /\
       r = Thrown message /\ d1 = injected) \/
    (exists message,
       j = pre ++ [injection; removeBlob (Done withoutBlob); removeBundle (Failed message)] /\
       r = Thrown message /\ d1 = withoutBlob) \/
    (j = pre ++ [injection; removeBlob (Done withoutBlob);
                 removeBundle (Done (delete "out.js" withoutBlob))] /\
     r = Returned tt /\ d1 = delete "out.js" withoutBlob).
Proof.
  cbv zeta. revert r d1 j.
  focus_on (injectSEABlobIntoNodeExecutable h platform exe (output seaConfig) d).
  unfold injectSEABlobIntoNodeExecutable. unfold_fs. unfold_monad. unfold chalk.
  rewrite atob_FUSE_LITERAL.
  remember (if Js.strict_eq platform "macos" then Some "NODE_SEA" else None) as hint.
  run_paths; cbn [app]; intros r d1 j Heq Hin; injection Heq as <- <- <-.
  all: select_events injection_succeeded Hin.
  all: eexists [_; _].
  all: first
    [ solve [left; eexists; split; [reflexivity|auto]]
    | solve [right; left; eexists; split; [reflexivity|auto]]
    | solve [right; right; split; [reflexivity|auto]] ].
Qed.

Lemma pipeline_cleanup h input icon platform obfuscate exe d r dn j executable segment blob
    options before injected :
  pipeline h input icon platform obfuscate exe d = Step r dn j ->
  let injection := Called (PostjectInject executable segment blob options) before (Done injected) in
  let removeBlob := Called (Fs (OpUnlink "sea-prep.blob")) injected in
  let withoutBlob := delete "sea-prep.blob" injected in
  let removeBundle := Called (Fs (OpUnlink "out.js")) withoutBlob in
  In injection j ->
  exists pre,
    (exists message,
       j = pre ++ [injection; removeBlob (Failed message)] /\
       r = Thrown message /\ dn = injected) \/
    (exists message,
       j = pre ++ [injection; removeBlob (Done withoutBlob); removeBundle (Failed message)] /\
       r = Thrown message /\ dn = withoutBlob) \/
    (j = pre ++ [injection; removeBlob (Done withoutBlob);
                 removeBundle (Done (delete "out.js" withoutBlob));
                 Log LevelInfo "SEA blob injected successfully"] /\
     r = Returned tt /\ dn = delete "out.js" withoutBlob).
Proof.
  cbv zeta. intros H Hin. unfold pipeline in H. unfold_binds.
  do 9 walk_past injection_succeeded H Hin.
  match goal with |- context [?a ++ ?b ++ ?c ++ ?e ++ ?f ++ ?g ++ ?i ++ ?k ++ ?l ++ ?tail] =>
    set (front := a ++ b ++ c ++ e ++ f ++ g ++ i ++ k ++ l);
    replace (a ++ b ++ c ++ e ++ f ++ g ++ i ++ k ++ l ++ tail) with (front ++ tail)
      by (subst front; now rewrite <- !app_assoc)
  end.
  apply bind_inv in H
    as [(? & di & ji & jl & Hi & Hlog & ->) | [(msg & Hi & ->) | (c & Hi & ->)]].
  - apply emit_inv in Hlog as (-> & -> & ->).
    apply in_app_iff in Hin as [Hin|[Hin|[]]]; [|discriminate Hin].
    destruct (injectSEABlob_cleanup _ _ _ _ _ _ _ _ _ _ _ _ _ Hi Hin)
      as (pre & [(m & _ & Hr & _)|[(m & _ & Hr & _)|(-> & _ & ->)]]); try discriminate Hr.
    exists (front ++ pre). right; right. rewrite <- !app_assoc. auto.
  - destruct (injectSEABlob_cleanup _ _ _ _ _ _ _ _ _ _ _ _ _ Hi Hin)
      as (pre & [(m & -> & Hr & ->)|[(m & -> & Hr & ->)|(_ & Hr & _)]]); try discriminate Hr.
    + exists (front ++ pre). left. exists m. rewrite <- !app_assoc. auto.
    + exists (front ++ pre). right; left. exists m. rewrite <- !app_assoc. auto.
  - destruct (injectSEABlob_cleanup _ _ _ _ _ _ _ _ _ _ _ _ _ Hi Hin)
      as (pre & [(m & _ & Hr & _)|[(m & _ & Hr & _)|(_ & Hr & _)]]); discriminate Hr.
Qed.

(** C1 (amended). After a successful injection the run deletes
    sea-prep.blob and then out.js, and a deletion that fails is fatal, not
    a logged warning: the run ends in exactly one of the three ways of
    [ends_after_injection].  The deletion of sea-prep.blob fails: nothing
    more is attempted, the error is logged as unexpected and the exit
    status is 1.  That deletion succeeds and the deletion of out.js fails:
    again logged, exit status 1.  Both succeed: exit status 0.  In all
    three the disk is the one the injector left, less the files deleted,
    so the injected executable is not touched. *)
Theorem C1_cleanup_failure_is_fatal h argv d executable segment blob options before injected :
  let r := sea_builder h argv d in
  let injection :=
    Called (PostjectInject executable segment blob options) before (Done injected) in
  In injection (emitted r) ->
  ends_after_injection r injection injected.
Proof.
  cbv zeta. intros Hin. unfold ends_after_injection.
  destruct (sea_builder_cases h argv d) as [Hrun|[(code & reason & Hp & Hrun)
       |[(opts & failure & Hp & Hb & Hrun)|(opts & banner & Hp & Hb & Hrun)]]].
  - rewrite Hrun in Hin. destruct Hin as [Hin|[]]. discriminate Hin.
  - rewrite Hrun in Hin. destruct Hin.
  - rewrite Hrun in Hin. destruct Hin.
  - rewrite Hrun in *. clear Hrun. apply main_journal_inv in Hin. rewrite (main_eq _ _ _ _ _ _ _ _ Hb).
    destruct (pipeline _ _ _ _ _ _ d) as [res dn j] eqn:Hpipe. cbn [emitted] in Hin.
    destruct (pipeline_cleanup _ _ _ _ _ _ _ _ _ _ _ _ _ _ _ _ Hpipe Hin)
      as (pre & [(m & -> & -> & ->)|[(m & -> & -> & ->)|(-> & -> & ->)]]);
      cbn [emitted exit_status result disk_after]; exists (Splash :: pre).
    + left. exists m. rewrite <- app_assoc. auto.
    + right; left. exists m. rewrite <- app_assoc. auto.
    + right; right. auto.
Qed.

(** The sample run for linux with sea-prep.blob locked ends in one of the
    three ways after its injection. *)
Lemma C1_witness :
  ends_after_injection
    (sea_builder (sample_host node20 None blob_locked) (sample_argv "linux" []) sample_disk)
    sample_injection sample_injected.
Proof.
  apply (C1_cleanup_failure_is_fatal (sample_host node20 None blob_locked)
           (sample_argv "linux" []) sample_disk "dist/out" "NODE_SEA_BLOB" sample_blob
           (sample_options None) sample_before_injection sample_injected).
  in_explicit_journal.
Defined.

(** C1, as stated, fails: the injection succeeds, the deletion of
    sea-prep.blob is refused, and the exit status is 1, not 0. *)
Lemma C1_failed_deletion_exits_1 :
  let r := sea_builder (sample_host node20 None blob_locked) (sample_argv "linux" [])
             sample_disk in
  existsb injection_succeeded (emitted r) = true /\
  existsb (deletion_failed "sea-prep.blob") (emitted r) = true /\
  exit_status r = 1%Z.
Proof. cbv zeta. repeat split; vm_compute; reflexivity. Qed.

(** * The files a successful run leaves *)

Lemma never_exits_bind {A B} (m : M A) (k : A -> M B) :
  never_exits m -> (forall a, never_exits (k a)) -> never_exits (bind m k).
Proof.
  intros Hm Hk d code. unfold bind. pose proof (Hm d) as Hm'.
  destruct (m d) as [[a|msg|c] d1 j1]; cbn [result] in *;
    [|discriminate|now contradiction (Hm' c)].
  pose proof (Hk a d1 code) as Hk'. now destruct (k a d1).
Qed.

Lemma never_exits_try_catch {A} (body : M A) (handler : string -> M A) :
  never_exits body -> (forall msg, never_exits (handler msg)) ->
  never_exits (try_catch body handler).
Proof.
  intros Hb Hh d code. unfold try_catch. pose proof (Hb d code) as Hb'.
  destruct (body d) as [[a|msg|c] d1 j1]; cbn [result] in *; try done.
  pose proof (Hh msg d1 code) as Hh'. now destruct (handler msg d1).
Qed.

Lemma never_exits_fs_call {A} h op syscall path (effect : Disk -> option (A * Disk)) :
  never_exits (fs_call h op syscall path effect).
Proof.
  intros d code. unfold fs_call.
  destruct (os_denies h op d); [|destruct (effect d) as [[a d']|]]; discriminate.
Qed.

Lemma never_exits_fs_write h op syscall named target source :
  never_exits (fs_write h op syscall named target source).
Proof.
  intros d code. unfold fs_write.
  destruct (os_denies h op d); [|destruct (source d) as [data|]; [destruct (os_cuts h op d)|]];
    discriminate.
Qed.

Lemma never_exits_tool c answer : never_exits (tool c answer).
Proof. intros d code. unfold tool. destruct (answer d); discriminate. Qed.

Lemma never_exits_JsConfuser_call h code : never_exits (JsConfuser_call h code).
Proof.
  intros d c. unfold JsConfuser_call. destruct (JsConfuser_obfuscate h code); discriminate.
Qed.

Lemma never_exits_spawnNode h path : never_exits (spawnNode h path).
Proof.
  intros d c. unfold spawnNode.
  destruct (node_child h _ d) as [msg|[[[code out] err] d']]; [|destruct (Js.is_zero code)];
    discriminate.
Qed.

Lemma never_exits_ret {A} (a : A) : never_exits (ret a).
Proof. intros d c. discriminate. Qed.

Lemma never_exits_throw {A} message : never_exits (@throw A message).
Proof. intros d c. discriminate. Qed.

Lemma never_exits_emit e : never_exits (emit e).
Proof. intros d c. discriminate. Qed.

Lemma never_exits_existsSync path : never_exits (existsSync path).
Proof. intros d c. discriminate. Qed.

Lemma never_exits_lift {A} (v : string + A) : never_exits (lift v).
Proof. destruct v; intros d c; discriminate. Qed.

Ltac never_exits_steps :=
  repeat lazymatch goal with
    | |- never_exits (bind _ _) => apply never_exits_bind
    | |- never_exits (try_catch _ _) => apply never_exits_try_catch
    | |- never_exits (fs_call _ _ _ _ _) => apply never_exits_fs_call
    | |- never_exits (fs_write _ _ _ _ _ _) => apply never_exits_fs_write
    | |- never_exits (tool _ _) => apply never_exits_tool
    | |- never_exits (JsConfuser_call _ _) => apply never_exits_JsConfuser_call
    | |- never_exits (spawnNode _ _) => apply never_exits_spawnNode
    | |- never_exits (ret _) => apply never_exits_ret
    | |- never_exits (throw _) => apply never_exits_throw
    | |- never_exits (emit _) => apply never_exits_emit
    | |- never_exits (existsSync _) => apply never_exits_existsSync
    | |- never_exits (lift _) => apply never_exits_lift
    | |- never_exits (if ?b then _ else _) => destruct b
    | |- never_exits (match ?x with _ => _ end) => destruct x
    | |- forall _, _ => intro
    end.

Lemma pipeline_never_exits h input icon platform obfuscate exe :
  never_exits (pipeline h input icon platform obfuscate exe).
Proof.
  unfold_stages. unfold_binds. unfold_logs.
  unfold readFileSync, writeFileSync, unlinkSync, mkdirSync_recursive, copyFileSync.
  never_exits_steps.
Qed.

Lemma main_success h input icon platform obfuscate exe d :
  exit_status (main h input icon platform obfuscate exe d) = 0%Z ->
  exists j,
    pipeline h input icon platform obfuscate exe d =
      Step (Returned tt) (disk_after (main h input icon platform obfuscate exe d)) j.
Proof.
  destruct (figlet_textSync h) as [message|banner] eqn:Hb.
  { rewrite (main_without_banner _ _ _ _ _ _ _ _ Hb). discriminate. }
  rewrite (main_eq _ _ _ _ _ _ _ _ Hb).
  pose proof (pipeline_never_exits h input icon platform obfuscate exe d) as Hexit.
  destruct (pipeline h input icon platform obfuscate exe d) as [[[]|msg|c] d1 journal];
    cbn [result exit_status disk_after] in *; intros Hstatus; try discriminate Hstatus.
  - eauto.
  - subst c. now contradiction (Hexit 0%Z).
Qed.

Ltac frame_lookup :=
  repeat first
    [ rewrite lookup_delete_ne by congruence
    | rewrite lookup_insert_ne by congruence ].

Ltac off_paths := cbn [In]; intuition congruence.

Lemma pipeline_returned h input icon platform obfuscate exe d a dn j :
  ToolContracts h ->
  exe <> "out.js" -> exe <> "sea-config.json" -> exe <> "sea-prep.blob" ->
  pipeline h input icon platform obfuscate exe d = Step (Returned a) dn j ->
  is_Some (dn !! exe) /\
  dn !! "out.js" = None /\ dn !! "sea-config.json" = None /\ dn !! "sea-prep.blob" = None /\
  forall p, p <> exe -> p <> "out.js" -> p <> "sea-config.json" -> p <> "sea-prep.blob" ->
            dn !! p = d !! p.
Proof.
  intros Htools Hexe1 Hexe2 Hexe3 H. unfold pipeline in H. unfold_binds.
  walk_returned H Hbundle bundled j1. walk_returned H Hlog1 d1 j2. log_returned Hlog1.
  walk_returned H Hobf obfuscated j3.
  walk_returned H Hgen generated j4. walk_returned H Hlog2 d2 j5. log_returned Hlog2.
  walk_returned H Hcopy copied j6. walk_returned H Hlog3 d3 j7. log_returned Hlog3.
  walk_returned H Hicon iconized j8. walk_returned H Hlog4 d4 j9. log_returned Hlog4.
  walk_returned H Hinject cleaned j10. log_returned H.
  (* bundle *)
  apply bundleProject_returned in Hbundle as (Hbundle & _).
  apply (esbuild_writes_outfile h Htools) in Hbundle.
  (* obfuscation, when asked for *)
  assert (Hobf' : confined ["out.js"] bundled obfuscated).
  { destruct obfuscate.
    - walk_returned Hobf Hrewrite d5 j11. log_returned Hobf.
      apply obfuscateOutputFile_returned in Hrewrite as (code & text & _ & _ & -> & _).
      intros p Hp. apply lookup_insert_ne. cbn in Hp. intuition congruence.
    - apply ret_inv in Hobf as (_ & -> & _). now intros p Hp. }
  clear Hobf.
  (* blob generation *)
  apply generateSEABlob_returned in Hgen
    as (code & stdout & stderr & left & Hchild & Hblob & -> & _).
  apply (node_writes_blob h Htools) in Hchild.
  (* copy *)
  apply createExecutableCopy_returned in Hcopy as (binary & _ & -> & _).
  (* icon *)
  assert (Hicon' : confined [exe] (<[exe := binary]> (delete "sea-config.json" left)) iconized
                   /\ is_Some (iconized !! exe)).
  { apply setExecutableIcon_returned in Hicon as [->|(resolved & Hedit)].
    - split; [now intros p Hp|]. rewrite lookup_insert_eq. eauto.
    - now apply (rcedit_edits_executable h Htools) in Hedit. }
  destruct Hicon' as (Hicon' & _). clear Hicon.
  (* injection and cleanup *)
  apply injectSEABlob_returned in Hinject as (blob & options & injected & _ & Hinject & ->).
  apply (postject_edits_executable h Htools) in Hinject as (Hinject & Hpresent).
  unfold outputFile in *. cbn [output seaConfig] in *.
  split; [now frame_lookup|]. split; [apply lookup_delete_eq|]. split.
  - frame_lookup. rewrite (Hinject "sea-config.json") by off_paths.
    rewrite (Hicon' "sea-config.json") by off_paths. frame_lookup. apply lookup_delete_eq.
  - split; [frame_lookup; apply lookup_delete_eq|].
    intros p Hp1 Hp2 Hp3 Hp4. frame_lookup.
    rewrite (Hinject p), (Hicon' p) by off_paths. frame_lookup.
    rewrite (Hchild p) by off_paths. frame_lookup.
    rewrite (Hobf' p), (Hbundle p) by off_paths. reflexivity.
Qed.

(** C7. On a host whose tools keep to their interfaces, a run for a
    supported platform and without icon that exits with status 0 leaves
    the executable at dist/out.exe (win32) or dist/out (linux, macos), no
    out.js, sea-config.json or sea-prep.blob, and every other path as it
    was before the run: the executable is the one file the run retains. *)
Theorem C7_successful_run_retains_one_file h argv d opts platform :
  ToolContracts h ->
  Commander.parse program_options "1.0.0" (drop 2 argv) = Commander.Parsed opts ->
  Commander.get opts "icon" = None ->
  Commander.get opts "platform" = Some platform ->
  In platform ["win32"; "linux"; "macos"] ->
  let r := sea_builder h argv d in
  exit_status r = 0%Z ->
  let retained := if String.eqb platform "win32" then "dist/out.exe" else "dist/out" in
  is_Some (disk_after r !! retained) /\
  disk_after r !! "out.js" = None /\
  disk_after r !! "sea-config.json" = None /\
  disk_after r !! "sea-prep.blob" = None /\
  forall p, p <> retained -> p <> "out.js" -> p <> "sea-config.json" -> p <> "sea-prep.blob" ->
            disk_after r !! p = d !! p.
Proof.
  intros Htools Hparse Hicon Hplatform Hsupported. cbv zeta. intros Hstatus.
  destruct (sea_builder_cases h argv d) as [Hrun|[(code & reason & Hp & Hrun)
       |[(opts' & failure & Hp & Hb & Hrun)|(opts' & banner & Hp & Hb & Hrun)]]].
  - rewrite Hrun in Hstatus. discriminate Hstatus.
  - congruence.
  - rewrite Hrun in Hstatus. discriminate Hstatus.
  - rewrite Hp in Hparse. injection Hparse as ->.
    rewrite Hrun in *. clear Hrun. rewrite Hplatform in *. cbn [Js.strict_eq] in *.
    apply main_success in Hstatus as (j & Hpipe).
    apply (pipeline_returned h _ _ _ _ _ _ _ _ _ Htools) in Hpipe; [exact Hpipe|..];
      destruct (String.eqb platform "win32"); discriminate.
Qed.

Lemma sample_host_keeps_contracts version appdata denies :
  ToolContracts (sample_host version appdata denies).
Proof.
  split; cbn [sample_host esbuild_build node_child rcedit postject_inject].
  - intros [entry|] outfile d d'; [|discriminate].
    destruct (d !! entry); intros [= <-]. intros p Hp. apply lookup_insert_ne. cbn in Hp. tauto.
  - intros args d code stdout stderr d'.
    destruct (d !! "out.js"); intros [= <- <- <- <-]; intros p Hp; [|reflexivity].
    apply lookup_insert_ne. cbn in Hp. tauto.
  - intros executable icon d d'. destruct (d !! executable); intros [= <-]. split.
    + intros p Hp. apply lookup_insert_ne. cbn in Hp. tauto.
    + rewrite lookup_insert_eq. eauto.
  - intros executable segment blob options d d'.
    destruct (d !! executable); intros [= <-]. split.
    + intros p Hp. apply lookup_insert_ne. cbn in Hp. tauto.
    + rewrite lookup_insert_eq. eauto.
Qed.

(** The sample run for macos leaves dist/out and none of the three
    transient files, and touches nothing else. *)
Lemma C7_witness :
  let r := sea_builder (sample_host node20 None no_denial) (sample_argv "macos" [])
             sample_disk in
  is_Some (disk_after r !! "dist/out") /\
  disk_after r !! "out.js" = None /\
  disk_after r !! "sea-config.json" = None /\
  disk_after r !! "sea-prep.blob" = None /\
  forall p, p <> "dist/out" -> p <> "out.js" -> p <> "sea-config.json" ->
            p <> "sea-prep.blob" -> disk_after r !! p = sample_disk !! p.
Proof.
  apply (C7_successful_run_retains_one_file (sample_host node20 None no_denial)
           (sample_argv "macos" []) sample_disk (sample_opts "macos" false) "macos").
  - apply sample_host_keeps_contracts.
  - vm_compute. reflexivity.
  - reflexivity.
  - reflexivity.
  - cbn. auto.
  - vm_compute. reflexivity.
Defined.

(** * Obfuscation comes before blob generation *)

Lemma generateSEABlob_spawn h d r d1 j args before outcome :
  generateSEABlob h seaConfig d = Step r d1 j ->
  In (Called (SpawnNode args) before outcome) j ->
  before = <["sea-config.json" := JSON_stringify seaConfig]> d /\
  exists rest,
    j = Called (Fs (OpWrite "sea-config.json" (JSON_stringify seaConfig))) d (Done before)
          :: Called (SpawnNode args) before outcome :: rest.
Proof.
  revert r d1 j. focus_on (generateSEABlob h seaConfig d).
  unfold generateSEABlob. unfold_fs. unfold_monad.
  run_paths; cbn [app]; intros r d1 j Heq Hin; injection Heq as <- <- <-.
  all: apply (in_filter is_spawn) in Hin; [|reflexivity]; cbn [List.filter is_spawn] in Hin.
  all: try (now destruct Hin).
  all: destruct Hin as [Hin|[]].
  all: inversion Hin; subst; clear Hin; split; [reflexivity|]; eexists; reflexivity.
Qed.

Lemma pipeline_spawn h input icon platform exe d r dn j args before outcome :
  pipeline h input icon platform true exe d = Step r dn j ->
  In (Called (SpawnNode args) before outcome) j ->
  exists bundled code obfuscated rest,
    let rewritten := <["out.js" := obfuscated]> bundled in
    bundled !! "out.js" = Some code /\
    JsConfuser_obfuscate h code = inr obfuscated /\
    before = <["sea-config.json" := JSON_stringify seaConfig]> rewritten /\
    j = [Called (EsbuildBuild input "out.js") d (Done bundled);
         Log LevelInfo "Bundle completed successfully";
         Called (Fs (OpRead "out.js")) bundled (Done bundled);
         Called (JsConfuserObfuscate code) bundled (Done bundled);
         Called (Fs (OpWrite "out.js" obfuscated)) bundled (Done rewritten);
         Log LevelInfo "Obfuscation completed successfully";
         Called (Fs (OpWrite "sea-config.json" (JSON_stringify seaConfig))) rewritten
                (Done before);
         Called (SpawnNode args) before outcome] ++ rest.
Proof.
  intros H Hin. unfold pipeline in H. unfold_binds.
  walk_past_as is_spawn H Hin Hbundle bundled j1.
  walk_past_as is_spawn H Hin Hlog1 d1 j2. apply emit_inv in Hlog1 as (_ & -> & ->).
  walk_past_as is_spawn H Hin Hobf rewritten j3.
  apply bundleProject_returned in Hbundle as (_ & ->).
  walk_returned Hobf Hrewrite d2 j4.
  apply emit_inv in Hobf as (_ & -> & ->).
  apply obfuscateOutputFile_returned in Hrewrite as (code & obfuscated & Hcode & Hobf & -> & ->).
  exists bundled, code, obfuscated. unfold outputFile, chalk in *. cbv zeta.
  assert (Hgen : exists rg dg jg rest',
             generateSEABlob h seaConfig (<["out.js" := obfuscated]> bundled) = Step rg dg jg /\
             In (Called (SpawnNode args) before outcome) jg /\ x3 = jg ++ rest').
  { apply bind_inv in H
      as [(? & dg & jg & jr & Hgen & H & ->) | [(? & Hgen & ->) | (? & Hgen & ->)]].
    - apply in_app_iff in Hin as [Hin|Hin]; [eauto 10|].
      exfalso. apply (stage_rejects is_spawn _ _ _ _ _ _ H Hin); [reflexivity|stage_journal].
    - do 3 eexists. exists []. rewrite app_nil_r. eauto.
    - do 3 eexists. exists []. rewrite app_nil_r. eauto. }
  destruct Hgen as (rg & dg & jg & rest' & Hgen & Hin' & ->).
  destruct (generateSEABlob_spawn _ _ _ _ _ _ _ _ Hgen Hin') as (-> & rest & ->).
  exists (rest ++ rest'). repeat split; try assumption. 
Qed.

Lemma injectSEABlob_reads_blob h platform exe d r d1 j executable segment blob options
    before outcome :
  injectSEABlobIntoNodeExecutable h platform exe (output seaConfig) d = Step r d1 j ->
  In (Called (PostjectInject executable segment blob options) before outcome) j ->
  before = d /\ d !! "sea-prep.blob" = Some blob.
Proof.
  revert r d1 j.
  focus_on (injectSEABlobIntoNodeExecutable h platform exe (output seaConfig) d).
  unfold injectSEABlobIntoNodeExecutable. unfold_fs. unfold_monad. unfold chalk.
  rewrite atob_FUSE_LITERAL.
  remember (if Js.strict_eq platform "macos" then Some "NODE_SEA" else None) as hint.
  run_paths; cbn [app]; intros r d1 j Heq Hin; injection Heq as <- <- <-.
  all: apply (in_filter is_injection) in Hin; [|reflexivity];
    cbn [List.filter is_injection] in Hin.
  all: try (now destruct Hin).
  all: destruct Hin as [Hin|[]]; inversion Hin; subst; clear Hin; auto.
Qed.

(** The blob handed to the injector is the one the child process left. *)
Lemma pipeline_injects_generated_blob h input icon platform obfuscate exe d r dn j
    executable segment blob options b o :
  ToolContracts h -> exe <> "sea-prep.blob" ->
  pipeline h input icon platform obfuscate exe d = Step r dn j ->
  In (Called (PostjectInject executable segment blob options) b o) j ->
  exists args before left,
    In (Called (SpawnNode args) before (Done left)) j /\
    left !! "sea-prep.blob" = Some blob.
Proof.
  intros Htools Hexe H Hin. unfold pipeline in H. unfold_binds.
  walk_past_as is_injection H Hin Hbundle bundled j1.
  walk_past_as is_injection H Hin Hlog1 d1 j2.
  walk_past_as is_injection H Hin Hobf obfuscated j3.
  walk_past_as is_injection H Hin Hgen generated j4.
  walk_past_as is_injection H Hin Hlog2 d2 j5. log_returned Hlog2.
  walk_past_as is_injection H Hin Hcopy copied j6.
  walk_past_as is_injection H Hin Hlog3 d3 j7. log_returned Hlog3.
  walk_past_as is_injection H Hin Hicon iconized j8.
  walk_past_as is_injection H Hin Hlog4 d4 j9. log_returned Hlog4.
  apply generateSEABlob_returned in Hgen
    as (code & stdout & stderr & left & _ & _ & -> & ->).
  apply createExecutableCopy_returned in Hcopy as (binary & _ & -> & _).
  assert (Hblob : iconized !! "sea-prep.blob" = left !! "sea-prep.blob").
  { apply setExecutableIcon_returned in Hicon as [->|(resolved & Hedit)].
    - now frame_lookup.
    - apply (rcedit_edits_executable h Htools) in Hedit as (Hedit & _).
      rewrite (Hedit "sea-prep.blob") by off_paths. now frame_lookup. }
  assert (Hread : iconized !! "sea-prep.blob" = Some blob).
  { apply bind_inv in H
      as [(? & di & ji & jl & Hi & Hlog & ->) | [(msg & Hi & ->) | (c & Hi & ->)]].
    - apply emit_inv in Hlog as (_ & _ & ->).
      apply in_app_iff in Hin as [Hin|[Hin|[]]]; [|discriminate Hin].
      now destruct (injectSEABlob_reads_blob _ _ _ _ _ _ _ _ _ _ _ _ _ Hi Hin).
    - now destruct (injectSEABlob_reads_blob _ _ _ _ _ _ _ _ _ _ _ _ _ Hi Hin).
    - now destruct (injectSEABlob_reads_blob _ _ _ _ _ _ _ _ _ _ _ _ _ Hi Hin). }
  do 2 eexists. exists left. split; [|congruence].
  apply in_app_iff. right. apply in_app_iff. right. apply in_app_iff. right.
  apply in_app_iff. left. right. left. reflexivity.
Qed.

(** C8. When the obfuscate flag is set and the run starts the child
    process that generates the blob, the obfuscation has completed before:
    the journal up to that point is the bundling, the read of out.js, the
    obfuscation of what was read, the write of the obfuscated code back to
    out.js, the write of the descriptor, and then the child process, which
    starts on a disk where out.js holds the obfuscated code.  On a host
    whose tools keep to their interfaces, the blob later handed to the
    injector is the one that child process left in sea-prep.blob. *)
Theorem C8_blob_from_obfuscated_module h argv d opts args before outcome :
  Commander.parse program_options "1.0.0" (drop 2 argv) = Commander.Parsed opts ->
  Commander.flag opts "obfuscate" = true ->
  let r := sea_builder h argv d in
  In (Called (SpawnNode args) before outcome) (emitted r) ->
  exists bundled code obfuscated rest,
    let rewritten := <["out.js" := obfuscated]> bundled in
    bundled !! "out.js" = Some code /\
    JsConfuser_obfuscate h code = inr obfuscated /\
    before = <["sea-config.json" := JSON_stringify seaConfig]> rewritten /\
    before !! "out.js" = Some obfuscated /\
    emitted r =
      [Splash;
       Called (EsbuildBuild (Commander.get opts "input") "out.js") d (Done bundled);
       Log LevelInfo "Bundle completed successfully";
       Called (Fs (OpRead "out.js")) bundled (Done bundled);
       Called (JsConfuserObfuscate code) bundled (Done bundled);
       Called (Fs (OpWrite "out.js" obfuscated)) bundled (Done rewritten);
       Log LevelInfo "Obfuscation completed successfully";
       Called (Fs (OpWrite "sea-config.json" (JSON_stringify seaConfig))) rewritten
              (Done before);
       Called (SpawnNode args) before outcome] ++ rest /\
    (ToolContracts h ->
     forall executable segment blob options b o,
       In (Called (PostjectInject executable segment blob options) b o) rest ->
       exists left, outcome = Done left /\ left !! "sea-prep.blob" = Some blob).
Proof.
  intros Hparse Hflag. cbv zeta. intros Hin.
  destruct (sea_builder_cases h argv d) as [Hrun|[(code & reason & Hp & Hrun)
       |[(opts' & failure & Hp & Hb & Hrun)|(opts' & banner & Hp & Hb & Hrun)]]].
  - rewrite Hrun in Hin. destruct Hin as [Hin|[]]. discriminate Hin.
  - rewrite Hrun in Hin. destruct Hin.
  - rewrite Hrun in Hin. destruct Hin.
  - rewrite Hp in Hparse. injection Hparse as ->.
    rewrite Hrun in *. clear Hrun. rewrite Hflag in *.
    apply main_journal_inv in Hin. rewrite (main_eq _ _ _ _ _ _ _ _ Hb).
    destruct (pipeline _ _ _ _ _ _ d) as [res dn j] eqn:Hpipe. cbn [emitted] in Hin.
    destruct (pipeline_spawn _ _ _ _ _ _ _ _ _ _ _ _ Hpipe Hin)
      as (bundled & code & obfuscated & rest & Hcode & Hobf & Hbefore & Hj).
    cbv zeta in *.
    exists bundled, code, obfuscated.
    exists (match res with
            | Thrown e => rest ++ [Log LevelError ("An unexpected error occurred: " +:+ e)]
            | _ => rest
            end).
    split; [exact Hcode|]. split; [exact Hobf|]. split; [exact Hbefore|]. split.
    { rewrite Hbefore. rewrite lookup_insert_ne by discriminate. apply lookup_insert_eq. }
    split.
    { rewrite Hj. destruct res; reflexivity. }
    intros Htools executable segment blob options b o Hinj.
    assert (Hinj' : In (Called (PostjectInject executable segment blob options) b o) j).
    { rewrite Hj. apply in_app_iff. right.
      destruct res; try exact Hinj.
      apply in_app_iff in Hinj as [Hinj|[Hinj|[]]]; [exact Hinj|discriminate Hinj]. }
    assert (Hexe : (if Js.strict_eq (Commander.get opts "platform") "win32"
                    then "dist/out.exe" else "dist/out") <> "sea-prep.blob")
      by (destruct (Js.strict_eq _ _); discriminate).
    destruct (pipeline_injects_generated_blob _ _ _ _ _ _ _ _ _ _ _ _ _ _ _ _
                Htools Hexe Hpipe Hinj')
      as (args' & before' & left & Hspawn & Hleft).
    destruct (pipeline_spawn _ _ _ _ _ _ _ _ _ _ _ _ Hpipe Hspawn)
      as (bundled' & code' & obfuscated' & rest' & _ & _ & _ & Hj').
    cbv zeta in Hj'. rewrite Hj in Hj'. injection Hj' as _ _ _ _ _ _ _ _ _ Hout _.
    exists left. split; [congruence|exact Hleft].
Qed.

(** The sample run with -o: the child process starts on a disk whose
    out.js is the obfuscator's output. *)
Lemma C8_witness :
  exists code obfuscated,
    JsConfuser_obfuscate (sample_host node20 None no_denial) code = inr obfuscated /\
    sample_before_spawn !! "out.js" = Some obfuscated.
Proof.
  destruct (C8_blob_from_obfuscated_module (sample_host node20 None no_denial)
              (sample_argv "linux" ["-o"]) sample_disk (sample_opts "linux" true)
              ["--experimental-sea-config"; "sea-config.json"]
              sample_before_spawn (Done sample_after_spawn))
    as (bundled & code & obfuscated & rest & _ & Hobfuscated & _ & Hseen & _).
  - vm_compute. reflexivity.
  - reflexivity.
  - in_explicit_journal.
  - exists code, obfuscated. split; assumption.
Defined.

(** * Part III: the stages one by one, and what no run does *)

(** * Invariants of a whole run *)

(** An invariant of every stage is an invariant of the pipeline. *)
Lemma journal_all_pipeline (P : Event -> Prop) h input icon platform obfuscate exe :
  (forall text, P (Log LevelInfo text)) ->
  journal_all P (bundleProject h input) ->
  (obfuscate = true -> journal_all P (obfuscateOutputFile h outputFile)) ->
  journal_all P (generateSEABlob h seaConfig) ->
  journal_all P (createExecutableCopy h exe) ->
  journal_all P (setExecutableIcon h exe icon platform) ->
  journal_all P (injectSEABlobIntoNodeExecutable h platform exe (output seaConfig)) ->
  journal_all P (pipeline h input icon platform obfuscate exe).
Proof.
  intros Hlog Hbundle Hobf Hgen Hcopy Hicon Hinject.
  unfold pipeline. unfold_binds. unfold_logs.
  repeat lazymatch goal with
    | |- journal_all _ (bind _ _) => apply journal_all_bind; [|intros _]
    | |- journal_all _ (emit _) => apply journal_all_emit; apply Hlog
    | |- journal_all _ (ret _) => apply journal_all_ret
    | |- journal_all _ (if ?b then _ else _) => destruct b
    | |- journal_all _ (bundleProject _ _) => exact Hbundle
    | |- journal_all _ (obfuscateOutputFile _ _) => now apply Hobf
    | |- journal_all _ (generateSEABlob _ _) => exact Hgen
    | |- journal_all _ (createExecutableCopy _ _) => exact Hcopy
    | |- journal_all _ (setExecutableIcon _ _ _ _) => exact Hicon
    | |- journal_all _ (injectSEABlobIntoNodeExecutable _ _ _ _) => exact Hinject
    end.
Qed.

(** An invariant of the pipeline that also holds of the splash, of the
    version error and of the fatal log is an invariant of the run. *)
Lemma journal_all_run (P : Event -> Prop) h argv d :
  P Splash ->
  P (ConsoleError (unsupported_version_message h)) ->
  (forall message, P (Log LevelError ("An unexpected error occurred: " +:+ message))) ->
  (forall opts,
     Commander.parse program_options "1.0.0" (drop 2 argv) = Commander.Parsed opts ->
     journal_all P
       (pipeline h (Commander.get opts "input") (Commander.get opts "icon")
          (Commander.get opts "platform") (Commander.flag opts "obfuscate")
          (if Js.strict_eq (Commander.get opts "platform") "win32"
           then "dist/out.exe" else "dist/out"))) ->
  forall e, In e (emitted (sea_builder h argv d)) -> P e.
Proof.
  intros Hsplash Hversion Hfatal Hpipe e He.
  destruct (sea_builder_cases h argv d) as [Hrun|[(code & reason & Hp & Hrun)
       |[(opts & failure & Hp & Hb & Hrun)|(opts & banner & Hp & Hb & Hrun)]]].
  - rewrite Hrun in He. destruct He as [<-|[]]. exact Hversion.
  - rewrite Hrun in He. destruct He.
  - rewrite Hrun in He. destruct He.
  - rewrite Hrun, (main_eq _ _ _ _ _ _ _ _ Hb) in He. specialize (Hpipe opts Hp d).
    destruct (pipeline _ _ _ _ _ _ d) as [[a|msg|c] d1 journal]; cbn [emitted] in *.
    + destruct He as [<-|He]; auto.
    + destruct He as [<-|He]; [exact Hsplash|].
      apply in_app_iff in He as [He|[<-|[]]]; auto.
    + destruct He as [<-|He]; auto.
Qed.

(** Every event of every stage is rejected by the recogniser [f]. *)
Ltac pipeline_rejects :=
  apply journal_all_pipeline; [reflexivity|try intros _; stage_journal ..].

Lemma gte_minimum_version v :
  Semver.gte v minimum_version = true <->
  (19 < Semver.major v)%N \/
  (Semver.major v = 19%N /\ (9 < Semver.minor v)%N) \/
  (Semver.major v = 19%N /\ Semver.minor v = 9%N /\ (0 < Semver.patch v)%N) \/
  (Semver.major v = 19%N /\ Semver.minor v = 9%N /\ Semver.patch v = 0%N /\
   Semver.prerelease v = []).
Proof.
  destruct v as [major minor patch pre].
  unfold Semver.gte, Semver.compare, Semver.compareMain, Semver.compareNum, Semver.comparePre,
    minimum_version.
  cbn [Semver.major Semver.minor Semver.patch Semver.prerelease].
  destruct (N.compare_spec major 19) as [->|Hlt|Hgt];
    [destruct (N.compare_spec minor 9) as [->|Hlt|Hgt];
       [destruct (N.compare_spec patch 0) as [->|Hlt|Hgt]; [destruct pre|..]|..]|..].
  all: split; [intros H; try discriminate H|intros H]; try tauto; try lia.
  all: try (intuition (try lia; try discriminate)).
Qed.

Lemma sea_builder_supported h argv d e :
  Semver.gte (process_version h) minimum_version = true ->
  In e (emitted (sea_builder h argv d)) ->
  e <> ConsoleError (unsupported_version_message h).
Proof.
  intros Hv He.
  destruct (Commander.parse program_options "1.0.0" (drop 2 argv)) as [opts|code reason] eqn:Hp.
  - destruct (figlet_textSync h) as [failure|banner] eqn:Hb.
    { rewrite (sea_builder_without_banner h argv d opts failure Hv Hp Hb) in He. destruct He. }
    rewrite (sea_builder_parsed h argv d opts banner Hv Hp Hb), (main_eq _ _ _ _ _ _ _ _ Hb) in He.
    assert (Hall : journal_all (fun e => is_console_error e = false)
              (pipeline h (Commander.get opts "input") (Commander.get opts "icon")
                 (Commander.get opts "platform") (Commander.flag opts "obfuscate")
                 (if Js.strict_eq (Commander.get opts "platform") "win32"
                  then "dist/out.exe" else "dist/out"))) by pipeline_rejects.
    specialize (Hall d).
    destruct (pipeline _ _ _ _ _ _ d) as [[a|msg|c] d1 journal]; cbn [emitted] in *.
    + destruct He as [<-|He]; [discriminate|]. apply Hall in He. intros ->. discriminate He.
    + destruct He as [<-|He]; [discriminate|].
      apply in_app_iff in He as [He|[<-|[]]]; [|discriminate].
      apply Hall in He. intros ->. discriminate He.
    + destruct He as [<-|He]; [discriminate|]. apply Hall in He. intros ->. discriminate He.
  - rewrite (sea_builder_exit h argv d code reason Hv Hp) in He. destruct He.
Qed.

(** X1. When a dynamic import is rejected, the program prints
    "Failed to load modules: ..." with the reason and exits with status 1.
    When the modules load, and for a version whose numbers semver
    accepts, the version check passes exactly from 19.9.0 on: a larger
    major, minor or patch number whatever the prerelease tag, or 19.9.0
    itself without prerelease tag (a prerelease of 19.9.0 is refused).  On
    an accepted version the version error is never printed; on any other
    the run is the version error and exit status 1, whatever the command
    line. *)
Theorem version_check_threshold h argv d :
  let v := process_version h in
  let r := program h argv d in
  let accepted :=
    (19 < Semver.major v)%N \/
    (Semver.major v = 19%N /\ (9 < Semver.minor v)%N) \/
    (Semver.major v = 19%N /\ Semver.minor v = 9%N /\ (0 < Semver.patch v)%N) \/
    (Semver.major v = 19%N /\ Semver.minor v = 9%N /\ Semver.patch v = 0%N /\
     Semver.prerelease v = []) in
  Semver.safe v ->
  match dynamic_imports h with
  | Some reason =>
      r = Step (Exited 1) d [ConsoleError ("Failed to load modules: " +:+ reason)]
  | None =>
      (accepted -> ~ In (ConsoleError (unsupported_version_message h)) (emitted r)) /\
      (~ accepted -> r = Step (Exited 1) d [ConsoleError (unsupported_version_message h)])
  end.
Proof.
  cbv zeta. intros _. destruct (dynamic_imports h) as [reason|] eqn:Hload.
  { now apply program_not_loaded. }
  rewrite (program_loaded h argv d Hload). split.
  - intros Hok Hin. apply gte_minimum_version in Hok.
    now apply (sea_builder_supported h argv d _ Hok Hin).
  - intros Hbad. apply sea_builder_unsupported.
    destruct (Semver.gte (process_version h) minimum_version) eqn:Hv; [|reflexivity].
    contradiction Hbad. now apply gte_minimum_version.
Qed.

(** Node.js 18.20.4 is refused whatever the command line. *)
Lemma version_check_witness :
  program (sample_host node18 None no_denial) (sample_argv "linux" []) sample_disk =
    Step (Exited 1) sample_disk
      [ConsoleError (unsupported_version_message (sample_host node18 None no_denial))].
Proof.
  refine (proj2 (version_check_threshold (sample_host node18 None no_denial)
                   (sample_argv "linux" []) sample_disk _) _).
  - vm_compute. repeat split; discriminate.
  - intros [H|[[H _]|[[H _]|[H _]]]]; vm_compute in H; discriminate H.
Defined.

(** * Exit statuses *)

(** X2. Whatever the host, the command line and the disk, the process
    ends with exit status 0 or 1. *)
Theorem exit_status_is_0_or_1 h argv d :
  exit_status (sea_builder h argv d) = 0%Z \/ exit_status (sea_builder h argv d) = 1%Z.
Proof.
  destruct (sea_builder_cases h argv d)
    as [Hrun|[(code & reason & Hp & Hrun)
       |[(opts & failure & Hp & Hb & Hrun)|(opts & banner & Hp & Hb & Hrun)]]]; rewrite Hrun.
  - now right.
  - cbn [exit_status result]. now apply parse_exit_code in Hp.
  - now right.
  - rewrite (main_eq _ _ _ _ _ _ _ _ Hb).
    pose proof (pipeline_never_exits h (Commander.get opts "input") (Commander.get opts "icon")
                  (Commander.get opts "platform") (Commander.flag opts "obfuscate")
                  (if Js.strict_eq (Commander.get opts "platform") "win32"
                   then "dist/out.exe" else "dist/out") d) as Hexit.
    destruct (pipeline _ _ _ _ _ _ d) as [[a|msg|c] d1 journal]; cbn [exit_status result] in *;
      auto.
    now contradiction (Hexit c).
Qed.

(** * Bundling *)

Lemma bundleProject_thrown h input d message d1 j :
  bundleProject h input d = Step (Thrown message) d1 j ->
  esbuild_build h input outputFile d = inl message /\ d1 = d /\
  j = [Called (EsbuildBuild input outputFile) d (Failed message)].
Proof.
  unfold bundleProject, tool. destruct (esbuild_build h input outputFile d); intros [= <- <- <-].
  auto.
Qed.

(** X3. A run that shows the splash has parsed its command line, shows
    the splash once, as its first output, and goes on with the bundler,
    called on the input option and out.js on the disk the run started on:
    the splash is never the whole output of a run. *)
Theorem splash_is_followed_by_bundling h argv d :
  In Splash (emitted (sea_builder h argv d)) ->
  exists opts outcome rest,
    Commander.parse program_options "1.0.0" (drop 2 argv) = Commander.Parsed opts /\
    emitted (sea_builder h argv d) =
      Splash :: Called (EsbuildBuild (Commander.get opts "input") "out.js") d outcome :: rest /\
    existsb is_splash rest = false.
Proof.
  intros Hin.
  destruct (sea_builder_cases h argv d)
    as [Hrun|[(code & reason & Hp & Hrun)
       |[(opts & failure & Hp & Hb & Hrun)|(opts & banner & Hp & Hb & Hrun)]]]; rewrite Hrun in *.
  - destruct Hin as [Hin|[]]. discriminate Hin.
  - destruct Hin.
  - destruct Hin.
  - clear Hin Hrun. exists opts. rewrite (main_eq _ _ _ _ _ _ _ _ Hb).
    assert (Hall : journal_all (fun e => is_splash e = false)
              (pipeline h (Commander.get opts "input") (Commander.get opts "icon")
                 (Commander.get opts "platform") (Commander.flag opts "obfuscate")
                 (if Js.strict_eq (Commander.get opts "platform") "win32"
                  then "dist/out.exe" else "dist/out"))) by pipeline_rejects.
    specialize (Hall d).
    destruct (pipeline_starts_with_bundling h (Commander.get opts "input")
                (Commander.get opts "icon") (Commander.get opts "platform")
                (Commander.flag opts "obfuscate")
                (if Js.strict_eq (Commander.get opts "platform") "win32"
                 then "dist/out.exe" else "dist/out") d) as (outcome & rest & Hj).
    destruct (pipeline _ _ _ _ _ _ d) as [res d1 journal]; cbn [emitted] in *. subst journal.
    assert (Hrest : existsb is_splash rest = false).
    { apply not_true_is_false. intros Hex. apply existsb_exists in Hex as (e & He & Hf).
      specialize (Hall e (or_intror He)). congruence. }
    exists outcome. destruct res as [a|msg|c]; eexists; (split; [exact Hp|]);
      (split; [reflexivity|]); try exact Hrest.
    rewrite existsb_app, Hrest. reflexivity.
Qed.

(** The sample run for linux starts with the splash and the bundler. *)
Lemma splash_witness :
  exists outcome rest,
    emitted (sea_builder (sample_host node20 None no_denial) (sample_argv "linux" []) sample_disk)
      = Splash :: Called (EsbuildBuild (Some "server.ts") "out.js") sample_disk outcome :: rest.
Proof.
  destruct (splash_is_followed_by_bundling (sample_host node20 None no_denial)
              (sample_argv "linux" []) sample_disk)
    as (opts & outcome & rest & Hp & Hj & _).
  - in_explicit_journal.
  - vm_compute in Hp. injection Hp as <-. exists outcome, rest. exact Hj.
Defined.

(** As [run_paths], for a goal that inspects how the computation ends. *)
Ltac run_to_result :=
  repeat (cbn [andb negb orb result disk_after emitted app]; split_scrutinee);
  cbn [result disk_after emitted app].

(** * Obfuscation *)

(** X5. Without the obfuscate option the run never calls the obfuscator
    and never reads or rewrites out.js itself. *)
Theorem obfuscator_runs_only_on_request h argv d opts :
  Commander.parse program_options "1.0.0" (drop 2 argv) = Commander.Parsed opts ->
  opts !! "obfuscate" = None ->
  existsb rewrites_bundle (emitted (sea_builder h argv d)) = false.
Proof.
  intros Hparse Hflag.
  assert (Hoff : Commander.flag opts "obfuscate" = false).
  { unfold Commander.flag. rewrite Hflag. apply bool_decide_eq_false. now intros [v Hv]. }
  apply not_true_is_false. intros Hex. apply existsb_exists in Hex as (e & He & Hf).
  enough (rewrites_bundle e = false) by congruence.
  revert e He Hf. intros e He _. revert e He.
  apply journal_all_run; try reflexivity.
  intros opts' Hp. rewrite Hp in Hparse. injection Hparse as ->. rewrite Hoff.
  apply journal_all_pipeline; [reflexivity|stage_journal|discriminate|stage_journal ..].
Qed.

(** The sample run for linux without -o. *)
Lemma obfuscator_witness :
  existsb rewrites_bundle
    (emitted (sea_builder (sample_host node20 None no_denial) (sample_argv "linux" [])
                sample_disk)) = false.
Proof.
  apply (obfuscator_runs_only_on_request _ _ _ (sample_opts "linux" false)).
  - vm_compute. reflexivity.
  - reflexivity.
Defined.

(** X6. The obfuscation stage changes no file but the one it is given.
    When it returns, that file holds the obfuscator's output for the
    content it held.  When it throws, the file holds what it held, or, if
    the write failed after the file was opened, the first characters of the
    obfuscator's output (none of them included); when the file is missing
    the read fails and the obfuscator is not called. *)
Theorem obfuscateOutputFile_replaces_or_leaves h file d :
  let s := obfuscateOutputFile h file d in
  (forall p, p <> file -> disk_after s !! p = d !! p) /\
  match result s with
  | Returned _ =>
      exists code obfuscated,
        d !! file = Some code /\
        JsConfuser_obfuscate h code = inr obfuscated /\
        disk_after s !! file = Some obfuscated
  | Thrown message =>
      (disk_after s = d \/
       exists code obfuscated written,
         d !! file = Some code /\
         JsConfuser_obfuscate h code = inr obfuscated /\
         disk_after s !! file = Some (String.substring 0 written obfuscated)) /\
      (d !! file = None -> emitted s = [Called (Fs (OpRead file)) d (Failed message)])
  | Exited _ => False
  end.
Proof.
  cbv zeta. focus_on (obfuscateOutputFile h file d).
  unfold obfuscateOutputFile. unfold_fs. unfold_monad.
  run_to_result.
  all: split; [intros q Hq; first [reflexivity|now apply lookup_insert_ne]|].
  all: try (split; [|intros Hmissing; congruence]).
  all: try (left; reflexivity).
  - right. do 3 eexists. split; [reflexivity|]. split; [eassumption|]. apply lookup_insert_eq.
  - do 2 eexists. split; [reflexivity|]. split; [eassumption|]. apply lookup_insert_eq.
Qed.

(** * The child process *)

(** X7. When the child process cannot be started, or closes with a code
    other than 0 (a number or null), blob generation throws (in the second
    case with a message that carries the code and both streams), right
    after the call: the descriptor is not deleted and nothing looks for the
    blob.  On a host whose tools keep to their interfaces sea-config.json
    is still on disk. *)
Theorem failed_child_keeps_descriptor h d before message :
  let config := "sea-config.json" in
  let args := ["--experimental-sea-config"; config] in
  let s := generateSEABlob h seaConfig d in
  In (Called (SpawnNode args) before (Failed message)) (emitted s) ->
  result s = Thrown message /\
  emitted s = [Called (Fs (OpWrite config (JSON_stringify seaConfig))) d (Done before);
               Called (SpawnNode args) before (Failed message)] /\
  (node_child h args before = inl message \/
   exists code stdout stderr left,
     node_child h args before = inr (code, stdout, stderr, left) /\
     code <> Some 0%Z /\
     message = "Node process exited with code " +:+ Js.show_code code +:+ Js.nl
                 +:+ "STDOUT:" +:+ Js.nl +:+ stdout +:+ Js.nl
                 +:+ "STDERR:" +:+ Js.nl +:+ stderr /\
     disk_after s = left) /\
  (ToolContracts h -> disk_after s !! config = Some (JSON_stringify seaConfig)).
Proof.
  cbv zeta. focus_on (generateSEABlob h seaConfig d).
  unfold generateSEABlob. unfold_fs. unfold_monad.
  run_paths; cbn [result disk_after emitted app In]; intros Hin; in_journal Hin.
  - split; [reflexivity|]. split; [reflexivity|]. split.
    + left. assumption.
    + intros _. apply lookup_insert_eq.
  - split; [reflexivity|]. split; [reflexivity|]. split.
    + right. do 4 eexists. split; [eassumption|]. split; [|split; reflexivity].
      intros ->. match goal with H : Js.is_zero _ = false |- _ => now cbn in H end.
    + intros Htools.
      match goal with
      | H : node_child _ _ _ = inr _ |- _ => apply (node_writes_blob h Htools) in H as Hframe
      end.
      rewrite Hframe by (cbn; intuition discriminate). apply lookup_insert_eq.
Qed.

(** Without out.js on disk the sample child process closes with code 1. *)
Lemma failed_child_witness :
  result (generateSEABlob (sample_host node20 None no_denial) seaConfig sample_disk) =
    Thrown ("Node process exited with code 1" +:+ Js.nl +:+ "STDOUT:" +:+ Js.nl +:+ Js.nl
              +:+ "STDERR:" +:+ Js.nl +:+ "Cannot read main script").
Proof.
  apply (failed_child_keeps_descriptor (sample_host node20 None no_denial) sample_disk
           (<["sea-config.json" := JSON_stringify seaConfig]> sample_disk)).
  in_explicit_journal.
Defined.

(** * The copy of the executable *)


(** * The icon stage *)

Lemma setExecutableIcon_edit_failed h exe icon platform d r d1 j executable resolved before
    message :
  setExecutableIcon h exe icon platform d = Step r d1 j ->
  In (Called (Rcedit executable resolved) before (Failed message)) j ->
  executable = exe /\
  j = [Called (Rcedit executable resolved) before (Failed message);
       Log LevelError ("Error setting icon: " +:+ message)].
Proof.
  revert r d1 j. focus_on (setExecutableIcon h exe icon platform d).
  unfold setExecutableIcon, setIcon, path_resolve. unfold_fs. unfold_monad. unfold chalk.
  run_paths; cbn [app]; intros r d1 j Heq Hin; injection Heq as <- <- <-.
  all: in_journal Hin; auto.
Qed.

Lemma injectSEABlob_first_log h platform exe seaBlobPath d :
  exists rest,
    emitted (injectSEABlobIntoNodeExecutable h platform exe seaBlobPath d) =
      Log LevelInfo ("Injecting SEA blob into " +:+ exe) :: rest.
Proof.
  unfold injectSEABlobIntoNodeExecutable. unfold_binds. unfold logger_info, chalk.
  unfold bind at 1. unfold emit at 1.
  match goal with
  | |- context [match ?m d with _ => _ end] => destruct (m d) as [[a|e|c] d1 j]
  end; cbn [emitted app]; eauto.
Qed.

Lemma pipeline_edit_failed h input icon platform obfuscate exe d r dn j executable resolved
    before message :
  pipeline h input icon platform obfuscate exe d = Step r dn j ->
  let edit := Called (Rcedit executable resolved) before (Failed message) in
  In edit j ->
  exists pre post,
    j = pre ++ edit
            :: Log LevelError ("Error setting icon: " +:+ message)
            :: Log LevelInfo "Icon set successfully"
            :: Log LevelInfo ("Injecting SEA blob into " +:+ executable) :: post.
Proof.
  cbv zeta. intros H Hin. unfold pipeline in H. unfold_binds.
  do 7 walk_past is_icon_edit H Hin.
  match goal with |- context [?a ++ ?b ++ ?c ++ ?e ++ ?f ++ ?g ++ ?i ++ ?tail] =>
    set (front := a ++ b ++ c ++ e ++ f ++ g ++ i);
    replace (a ++ b ++ c ++ e ++ f ++ g ++ i ++ tail) with (front ++ tail)
      by (subst front; now rewrite <- !app_assoc)
  end.
  exists front. clearbody front.
  apply bind_inv in H
    as [(? & di & ji & jl & Hi & H & ->) | [(msg & Hi & ->) | (c & Hi & ->)]].
  - apply in_app_iff in Hin as [Hin|Hin].
    + destruct (setExecutableIcon_edit_failed _ _ _ _ _ _ _ _ _ _ _ _ Hi Hin) as (-> & ->).
      apply bind_inv in H
        as [(? & dl & jlog & jr & Hlog & H & ->) | [(msg & Hlog & _) | (c & Hlog & _)]];
        [|discriminate Hlog|discriminate Hlog].
      apply emit_inv in Hlog as (_ & _ & ->).
      destruct (injectSEABlob_first_log h platform exe (output seaConfig) dl) as (rest & Hfirst).
      apply bind_inv in H
        as [(? & dj & jj & jt & Hj & _ & ->) | [(msg & Hj & _) | (c & Hj & _)]];
        rewrite Hj in Hfirst; cbn [emitted] in Hfirst; subst; cbn [app]; eauto.
    + exfalso. do 2 walk_past is_icon_edit H Hin.
      apply emit_inv in H as (_ & _ & ->). destruct Hin as [Hin|[]]. discriminate Hin.
  - destruct (setExecutableIcon_edit_failed _ _ _ _ _ _ _ _ _ _ _ _ Hi Hin) as (_ & ->).
    exfalso. revert Hi. focus_on (setExecutableIcon h exe icon platform dn).
    unfold setExecutableIcon, setIcon, path_resolve. unfold_fs. unfold_monad. unfold chalk.
    run_paths; cbn [app]; discriminate.
  - exfalso. revert Hi. focus_on (setExecutableIcon h exe icon platform dn).
    unfold setExecutableIcon, setIcon, path_resolve. unfold_fs. unfold_monad. unfold chalk.
    run_paths; cbn [app]; discriminate.
Qed.

(** X9. A failure of the icon editor does not end the run: the failed
    call is followed by the error line with the editor's message, then by
    the line that reports the icon as set, and the run goes on with the
    injection stage. *)
Theorem icon_editor_failure_is_not_fatal h argv d executable resolved before message :
  let r := sea_builder h argv d in
  let edit := Called (Rcedit executable resolved) before (Failed message) in
  In edit (emitted r) ->
  exists pre post,
    emitted r =
      pre ++ edit
          :: Log LevelError ("Error setting icon: " +:+ message)
          :: Log LevelInfo "Icon set successfully"
          :: Log LevelInfo ("Injecting SEA blob into " +:+ executable) :: post.
Proof.
  cbv zeta. intros Hin.
  destruct (sea_builder_cases h argv d) as [Hrun|[(code & reason & Hp & Hrun)
       |[(opts & failure & Hp & Hb & Hrun)|(opts & banner & Hp & Hb & Hrun)]]];
    rewrite Hrun in *.
  - destruct Hin as [Hin|[]]. discriminate Hin.
  - destruct Hin.
  - destruct Hin.
  - clear Hrun. apply main_journal_inv in Hin. rewrite (main_eq _ _ _ _ _ _ _ _ Hb).
    destruct (pipeline _ _ _ _ _ _ d) as [res dn j] eqn:Hpipe. cbn [emitted] in Hin.
    destruct (pipeline_edit_failed _ _ _ _ _ _ _ _ _ _ _ _ _ _ Hpipe Hin) as (pre & post & ->).
    destruct res as [a|msg|c]; cbn [emitted].
    + exists (Splash :: pre), post. reflexivity.
    + exists (Splash :: pre). eexists. cbn [app]. rewrite <- app_assoc. reflexivity.
    + exists (Splash :: pre), post. reflexivity.
Qed.

(** The sample run for win32 with a picture that is not an icon: the
    editor refuses it, and the executable is built all the same. *)
Lemma icon_editor_failure_witness :
  exists pre post,
    emitted (sea_builder (with_icon_editor (sample_host node20 None no_denial) icons_only)
               (sample_argv "win32" ["--icon"; sample_logo]) sample_disk_with_logo) =
      pre ++ Called (Rcedit "dist/out.exe" sample_logo) sample_before_icon
               (Failed "Fatal error: Unable to set icon")
          :: Log LevelError "Error setting icon: Fatal error: Unable to set icon"
          :: Log LevelInfo "Icon set successfully"
          :: Log LevelInfo "Injecting SEA blob into dist/out.exe" :: post.
Proof.
  apply (icon_editor_failure_is_not_fatal
           (with_icon_editor (sample_host node20 None no_denial) icons_only)
           (sample_argv "win32" ["--icon"; sample_logo]) sample_disk_with_logo
           "dist/out.exe" sample_logo sample_before_icon "Fatal error: Unable to set icon").
  in_explicit_journal.
Defined.

(** X10. The icon stage never ends the process, and it throws in one
    case only: no icon (undefined or the empty string), platform win32 and
    APPDATA unset. *)
Theorem icon_stage_fails_only_without_APPDATA h exe icon platform d :
  let s := setExecutableIcon h exe icon platform d in
  (forall code, result s <> Exited code) /\
  ((exists message, result s = Thrown message) <->
   Js.truthy icon = false /\ platform = Some "win32" /\ env_APPDATA h = None).
Proof.
  cbv zeta. pose proof (strict_eq_spec platform "win32") as Hwin.
  unfold setExecutableIcon. unfold_binds. unfold existsSync, bind. cbn beta iota.
  destruct (Js.truthy icon) eqn:Hgiven, (exists_on d icon) eqn:Hdisk,
    (Js.strict_eq platform "win32") eqn:Hplat; cbn [andb negb app].
  all: try (destruct icon as [iconPath|]; [|discriminate Hgiven]; rewrite setIcon_eq;
            cbv zeta; destruct (rcedit h exe _ d)).
  all: cbn [result logger_info logger_warn emit].
  all: try (split; [intros code; discriminate|]; split;
            [intros (message & Hthrown); discriminate Hthrown
            |intros (Hg & Hp & Ha); first [discriminate Hg | apply Hwin in Hp; discriminate Hp]]).
  all: destruct (env_APPDATA h) as [appDataDir|] eqn:Happ.
  all: try (destruct (join_default_icon appDataDir) as (iconPath & ->); cbn [lift ret];
            rewrite setIcon_eq; cbv zeta; destruct (rcedit h exe _ d); cbn [result];
            (split; [intros code; discriminate|]);
            (split; [intros (message & Hthrown); discriminate Hthrown
                    |intros (_ & _ & Ha); discriminate Ha])).
  all: rewrite join_undefined; cbn [lift throw result]; (split; [intros code; discriminate|]);
    (split; [intros _; repeat split; now apply Hwin|eauto]).
Qed.

Lemma icon_stage_off_win32 h exe icon platform :
  Js.strict_eq platform "win32" = false ->
  journal_all (fun e => is_icon_edit e = false) (setExecutableIcon h exe icon platform).
Proof.
  intros Hplat. unfold setExecutableIcon. unfold_binds. rewrite Hplat.
  apply journal_all_bind; [apply journal_all_existsSync|intros onDisk].
  destruct (Js.truthy icon), onDisk; cbn [andb negb]; unfold_logs;
    apply journal_all_emit; reflexivity.
Qed.

(** X11. When the platform is not win32 the run never calls the icon
    editor, with or without an icon option. *)
Theorem icon_editor_runs_only_for_win32 h argv d opts :
  Commander.parse program_options "1.0.0" (drop 2 argv) = Commander.Parsed opts ->
  Commander.get opts "platform" <> Some "win32" ->
  existsb is_icon_edit (emitted (sea_builder h argv d)) = false.
Proof.
  intros Hparse Hplatform.
  assert (Hplat : Js.strict_eq (Commander.get opts "platform") "win32" = false).
  { apply not_true_is_false. intros H. now apply strict_eq_spec in H. }
  apply not_true_is_false. intros Hex. apply existsb_exists in Hex as (e & He & Hf).
  enough (is_icon_edit e = false) by congruence.
  clear Hf. revert e He.
  apply journal_all_run; try reflexivity.
  intros opts' Hp. rewrite Hp in Hparse. injection Hparse as ->.
  apply journal_all_pipeline;
    [reflexivity|stage_journal|intros _; stage_journal|stage_journal|stage_journal
    |now apply icon_stage_off_win32|stage_journal].
Qed.

(** The sample run for macos with an icon option. *)
Lemma icon_editor_witness :
  existsb is_icon_edit
    (emitted (sea_builder (sample_host node20 None no_denial)
                (sample_argv "macos" ["--icon"; "server.ts"]) sample_disk)) = false.
Proof.
  apply (icon_editor_runs_only_for_win32 _ _ _
           (<["icon" := Commander.Str "server.ts"]> (sample_opts "macos" false))).
  - vm_compute. reflexivity.
  - discriminate.
Defined.

(** * The order of the calls *)

Lemma within_nil lo hi : within lo hi [].
Proof. split; [reflexivity|constructor]. Qed.

Lemma within_single lo hi n : (lo <= n < hi)%nat -> within lo hi [n].
Proof. intros H. split; [reflexivity|]. repeat constructor; lia. Qed.

Lemma within_weaken lo hi lo' hi' l :
  (lo' <= lo)%nat -> (hi <= hi')%nat -> within lo hi l -> within lo' hi' l.
Proof.
  intros Hlo Hhi (Hinc & Hall). split; [exact Hinc|].
  eapply Forall_impl; [exact Hall|]. cbn. intros n Hn. lia.
Qed.

Lemma increasing_app lo mid hi a b :
  within lo mid a -> within mid hi b -> increasing (a ++ b) = true.
Proof.
  intros (Ha & Hla) (Hb & Hlb). induction a as [|x a IH]; [exact Hb|].
  apply Forall_cons in Hla as (Hx & Hla).
  destruct a as [|y a].
  - cbn [app]. destruct b as [|z b]; [reflexivity|].
    apply Forall_cons in Hlb as (Hz & _). cbn [increasing].
    apply andb_true_iff. split; [apply Nat.ltb_lt; lia|exact Hb].
  - cbn [increasing] in Ha. apply andb_true_iff in Ha as (Hxy & Ha).
    change ((x :: y :: a) ++ b) with (x :: y :: (a ++ b)). cbn [increasing].
    apply andb_true_iff. split; [exact Hxy|]. now apply IH.
Qed.

Lemma within_app lo mid hi a b :
  (lo <= mid)%nat -> (mid <= hi)%nat ->
  within lo mid a -> within mid hi b -> within lo hi (a ++ b).
Proof.
  intros Hlo Hhi Ha Hb. split; [now apply (increasing_app lo mid hi)|].
  apply Forall_app. split.
  - apply (within_weaken lo mid lo hi) in Ha; [apply Ha|lia|lia].
  - apply (within_weaken mid hi lo hi) in Hb; [apply Hb|lia|lia].
Qed.

Lemma ranks_app a b : ranks (a ++ b) = ranks a ++ ranks b.
Proof. apply omap_app. Qed.

Lemma calls_within_bind lo mid hi {A B} (m : M A) (k : A -> M B) :
  (lo <= mid)%nat -> (mid <= hi)%nat ->
  calls_within lo mid m -> (forall a, calls_within mid hi (k a)) ->
  calls_within lo hi (bind m k).
Proof.
  intros Hlo Hhi Hm Hk d. unfold bind. specialize (Hm d).
  destruct (m d) as [[a|msg|c] d1 j1]; cbn [emitted] in *.
  - specialize (Hk a d1). destruct (k a d1) as [r d2 j2]; cbn [emitted] in *.
    rewrite ranks_app. now apply (within_app lo mid hi).
  - apply (within_weaken lo mid); [lia|lia|exact Hm].
  - apply (within_weaken lo mid); [lia|lia|exact Hm].
Qed.

Lemma calls_within_try_catch lo mid hi {A} (body : M A) (handler : string -> M A) :
  (lo <= mid)%nat -> (mid <= hi)%nat ->
  calls_within lo mid body -> (forall message, calls_within mid hi (handler message)) ->
  calls_within lo hi (try_catch body handler).
Proof.
  intros Hlo Hhi Hb Hh d. unfold try_catch. specialize (Hb d).
  destruct (body d) as [[a|msg|c] d1 j1]; cbn [emitted] in *.
  - apply (within_weaken lo mid); [lia|lia|exact Hb].
  - specialize (Hh msg d1). destruct (handler msg d1) as [r d2 j2]; cbn [emitted] in *.
    rewrite ranks_app. now apply (within_app lo mid hi).
  - apply (within_weaken lo mid); [lia|lia|exact Hb].
Qed.

Lemma calls_within_fs_call lo hi {A} h op syscall path (effect : Disk -> option (A * Disk)) :
  (lo <= call_rank (Fs op) < hi)%nat -> calls_within lo hi (fs_call h op syscall path effect).
Proof.
  intros H d. unfold fs_call.
  destruct (os_denies h op d); [|destruct (effect d) as [[a d']|]];
    now apply within_single.
Qed.

Lemma calls_within_fs_write lo hi h op syscall named target source :
  (lo <= call_rank (Fs op) < hi)%nat ->
  calls_within lo hi (fs_write h op syscall named target source).
Proof.
  intros H d. unfold fs_write.
  destruct (os_denies h op d); [|destruct (source d) as [data|]; [destruct (os_cuts h op d)|]];
    now apply within_single.
Qed.

Lemma calls_within_tool lo hi c answer :
  (lo <= call_rank c < hi)%nat -> calls_within lo hi (tool c answer).
Proof. intros H d. unfold tool. destruct (answer d); now apply within_single. Qed.

Lemma calls_within_JsConfuser_call lo hi h code :
  (lo <= 2 < hi)%nat -> calls_within lo hi (JsConfuser_call h code).
Proof.
  intros H d. unfold JsConfuser_call.
  destruct (JsConfuser_obfuscate h code); now apply within_single.
Qed.

Lemma calls_within_spawnNode lo hi h path :
  (lo <= 5 < hi)%nat -> calls_within lo hi (spawnNode h path).
Proof.
  intros H d. unfold spawnNode.
  destruct (node_child h _ d) as [msg|[[[code out] err] d']]; [|destruct (Js.is_zero code)];
    now apply within_single.
Qed.

Lemma calls_within_log lo hi level text : calls_within lo hi (emit (Log level text)).
Proof. intros d. apply within_nil. Qed.

Lemma calls_within_ret lo hi {A} (a : A) : calls_within lo hi (ret a).
Proof. intros d. apply within_nil. Qed.

Lemma calls_within_throw lo hi {A} message : calls_within lo hi (@throw A message).
Proof. intros d. apply within_nil. Qed.

Lemma calls_within_lift lo hi {A} (v : string + A) : calls_within lo hi (lift v).
Proof. destruct v; intros d; apply within_nil. Qed.

Lemma calls_within_existsSync lo hi path : calls_within lo hi (existsSync path).
Proof. intros d. apply within_nil. Qed.

Lemma setIcon_calls h executable iconPath : calls_within 9 10 (setIcon h executable iconPath).
Proof.
  unfold setIcon. unfold_binds. unfold_logs.
  apply (calls_within_try_catch 9 10 10); [lia|lia| |intros message; apply calls_within_log].
  apply (calls_within_bind 9 9 10); [lia|lia|apply calls_within_lift|intros resolved].
  apply calls_within_tool. cbn. lia.
Qed.

(** Where the calls of the first computation of a sequence end. *)
Ltac next_bound lo m :=
  lazymatch m with
  | fs_call _ ?op _ _ _ => eval lazy in (S (call_rank (Fs op)))
  | fs_write _ ?op _ _ _ _ => eval lazy in (S (call_rank (Fs op)))
  | tool ?c _ => eval lazy in (S (call_rank c))
  | try_catch (tool ?c _) _ => eval lazy in (S (call_rank c))
  | JsConfuser_call _ _ => constr:(3)
  | spawnNode _ _ => constr:(6)
  | _ => lo
  end.

Ltac rank_bounds := cbn; lia.

Ltac calls_within_steps :=
  repeat lazymatch goal with
    | |- calls_within ?lo ?hi (bind ?m _) =>
        let mid := next_bound lo m in
        apply (calls_within_bind lo mid hi); [lia|lia| |intro]
    | |- calls_within ?lo ?hi (try_catch ?m _) =>
        let mid := next_bound lo m in
        apply (calls_within_try_catch lo mid hi); [lia|lia| |intro]
    | |- calls_within _ _ (fs_call _ _ _ _ _) => apply calls_within_fs_call; rank_bounds
    | |- calls_within _ _ (fs_write _ _ _ _ _ _) => apply calls_within_fs_write; rank_bounds
    | |- calls_within _ _ (tool _ _) => apply calls_within_tool; rank_bounds
    | |- calls_within _ _ (JsConfuser_call _ _) => apply calls_within_JsConfuser_call; lia
    | |- calls_within _ _ (spawnNode _ _) => apply calls_within_spawnNode; lia
    | |- calls_within _ _ (emit (Log _ _)) => apply calls_within_log
    | |- calls_within _ _ (ret _) => apply calls_within_ret
    | |- calls_within _ _ (throw _) => apply calls_within_throw
    | |- calls_within _ _ (lift _) => apply calls_within_lift
    | |- calls_within _ _ (existsSync _) => apply calls_within_existsSync
    | |- calls_within 9 10 (setIcon _ _ _) => apply setIcon_calls
    | |- calls_within _ _ (if ?b then _ else _) => destruct b
    | |- calls_within _ _ (match ?x with _ => _ end) => destruct x
    end.

Ltac stage_calls :=
  unfold bundleProject, obfuscateOutputFile, generateSEABlob, createExecutableCopy,
    setExecutableIcon, injectSEABlobIntoNodeExecutable, readFileSync,
    writeFileSync, unlinkSync, mkdirSync_recursive, copyFileSync, outputFile;
  unfold_binds; unfold_logs; cbv zeta; calls_within_steps.

Lemma pipeline_calls_in_order h input icon platform obfuscate exe :
  calls_within 0 14 (pipeline h input icon platform obfuscate exe).
Proof.
  unfold pipeline. unfold_binds. unfold_logs.
  apply (calls_within_bind 0 1 14); [lia|lia|stage_calls|intros _].
  apply (calls_within_bind 1 1 14); [lia|lia|apply calls_within_log|intros _].
  apply (calls_within_bind 1 4 14); [lia|lia|destruct obfuscate|intros _].
  { apply (calls_within_bind 1 4 4); [lia|lia|stage_calls|intros _]. apply calls_within_log. }
  { apply calls_within_ret. }
  apply (calls_within_bind 4 7 14); [lia|lia|stage_calls|intros _].
  apply (calls_within_bind 7 7 14); [lia|lia|apply calls_within_log|intros _].
  apply (calls_within_bind 7 9 14); [lia|lia|stage_calls|intros _].
  apply (calls_within_bind 9 9 14); [lia|lia|apply calls_within_log|intros _].
  apply (calls_within_bind 9 10 14); [lia|lia|stage_calls|intros _].
  apply (calls_within_bind 10 10 14); [lia|lia|apply calls_within_log|intros _].
  apply (calls_within_bind 10 14 14); [lia|lia|stage_calls|intros _].
  apply calls_within_log.
Qed.

(** X12. The calls of a run are made in the order of the stages, each
    at most once: their ranks in the fixed sequence of [call_rank] increase
    strictly along the journal. *)
Theorem calls_follow_the_stage_order h argv d :
  increasing (ranks (emitted (sea_builder h argv d))) = true.
Proof.
  destruct (sea_builder_cases h argv d)
    as [Hrun|[(code & reason & Hp & Hrun)
       |[(opts & failure & Hp & Hb & Hrun)|(opts & banner & Hp & Hb & Hrun)]]]; rewrite Hrun; try reflexivity.
  rewrite (main_eq _ _ _ _ _ _ _ _ Hb).
  pose proof (pipeline_calls_in_order h (Commander.get opts "input") (Commander.get opts "icon")
                (Commander.get opts "platform") (Commander.flag opts "obfuscate")
                (if Js.strict_eq (Commander.get opts "platform") "win32"
                 then "dist/out.exe" else "dist/out") d) as (Hinc & _).
  destruct (pipeline _ _ _ _ _ _ d) as [[a|msg|c] d1 journal]; cbn [emitted] in *;
    try exact Hinc.
  change (ranks (Splash :: ?j)) with (ranks j).
  rewrite ranks_app. cbn. now rewrite app_nil_r.
Qed.

(** * When the bundler fails *)

Lemma increasing_head a l :
  increasing (a :: l) = true -> Forall (fun x => (a < x)%nat) l.
Proof.
  revert a. induction l as [|b l IH]; intros a H; [constructor|].
  cbn [increasing] in H. apply andb_true_iff in H as (Hab & H). apply Nat.ltb_lt in Hab.
  constructor; [exact Hab|].
  eapply Forall_impl; [exact (IH b H)|]. cbn. intros x Hx. lia.
Qed.

(** A failed call of the bundler in the journal of the pipeline is the
    pipeline's first and only call. *)
Lemma pipeline_bundling_failed h input icon platform obfuscate exe d entry outfile before message :
  In (Called (EsbuildBuild entry outfile) before (Failed message))
     (emitted (pipeline h input icon platform obfuscate exe d)) ->
  pipeline h input icon platform obfuscate exe d =
    Step (Thrown message) d [Called (EsbuildBuild entry outfile) before (Failed message)] /\
  entry = input /\ outfile = "out.js" /\ before = d.
Proof.
  intros Hin.
  pose proof (pipeline_calls_in_order h input icon platform obfuscate exe d) as (Hinc & _).
  destruct (pipeline h input icon platform obfuscate exe d) as [r dn j] eqn:H.
  cbn [emitted] in Hin, Hinc. unfold pipeline in H. unfold_binds.
  apply bind_inv in H as [(a & d1 & j1 & j2 & Hb & _ & ->)|[(e & Hb & ->)|(c & Hb & ->)]].
  - exfalso. apply bundleProject_returned in Hb as (_ & ->).
    destruct Hin as [Hin|Hin]; [discriminate Hin|].
    change (increasing (0%nat :: ranks j2) = true) in Hinc. apply increasing_head in Hinc.
    assert (Hrank : 0%nat ∈ ranks j2)
      by (apply list_elem_of_omap; eexists; split;
          [apply list_elem_of_In; exact Hin|reflexivity]).
    rewrite Forall_forall in Hinc. specialize (Hinc 0%nat Hrank). lia.
  - apply bundleProject_thrown in Hb as (_ & -> & ->).
    destruct Hin as [Hin|[]]. injection Hin as <- <- <- <-. auto.
  - exfalso. revert Hb. unfold bundleProject, tool.
    destruct (esbuild_build h input outputFile d); discriminate.
Qed.

(** X4. A failed call of the bundler is the only call of its run: it is
    made on the disk the run started on, for the outfile out.js, after the
    splash; the run logs the bundler's message as an unexpected error and
    exits with status 1. *)
Theorem bundling_failure_ends_the_run h argv d entry outfile before message :
  let r := sea_builder h argv d in
  In (Called (EsbuildBuild entry outfile) before (Failed message)) (emitted r) ->
  emitted r =
    [Splash;
     Called (EsbuildBuild entry outfile) before (Failed message);
     Log LevelError ("An unexpected error occurred: " +:+ message)] /\
  before = d /\ outfile = "out.js" /\ exit_status r = 1%Z.
Proof.
  cbv zeta. intros Hin.
  destruct (sea_builder_cases h argv d)
    as [Hrun|[(code & reason & Hp & Hrun)
       |[(opts & failure & Hp & Hb & Hrun)|(opts & banner & Hp & Hb & Hrun)]]]; rewrite Hrun in *.
  - destruct Hin as [Hin|[]]. discriminate Hin.
  - destruct Hin.
  - destruct Hin.
  - apply main_journal_inv, pipeline_bundling_failed in Hin as (Hpipe & _ & -> & ->).
    rewrite (main_eq _ _ _ _ _ _ _ _ Hb), Hpipe. auto.
Qed.

(** On an empty disk the sample bundler cannot resolve server.ts. *)
Lemma bundling_failure_witness :
  let r := sea_builder (sample_host node20 None no_denial) (sample_argv "linux" []) ∅ in
  emitted r =
    [Splash;
     Called (EsbuildBuild (Some "server.ts") "out.js") ∅ (Failed "Could not resolve server.ts");
     Log LevelError "An unexpected error occurred: Could not resolve server.ts"] /\
  (∅ : Disk) = ∅ /\ "out.js" = "out.js" /\ exit_status r = 1%Z.
Proof.
  apply (bundling_failure_ends_the_run (sample_host node20 None no_denial)
           (sample_argv "linux" []) ∅ (Some "server.ts") "out.js" ∅
           "Could not resolve server.ts").
  in_explicit_journal.
Defined.

(** * When the injector fails *)

Lemma increasing_last l n :
  increasing (l ++ [n]) = true -> Forall (fun x => (x < n)%nat) l.
Proof.
  induction l as [|x l IH]; [constructor|].
  destruct l as [|y l].
  - cbn. rewrite andb_true_r. intros H. apply Nat.ltb_lt in H. repeat constructor. exact H.
  - change ((x :: y :: l) ++ [n]) with (x :: y :: (l ++ [n])). cbn [increasing].
    intros H. apply andb_true_iff in H as (Hxy & H). apply Nat.ltb_lt in Hxy.
    specialize (IH H). constructor; [|exact IH].
    apply Forall_cons in IH as (Hy & _). lia.
Qed.

Lemma deletes_transient_rank e :
  deletes_transient e = true -> exists n, event_rank e = Some n /\ (12 <= n)%nat.
Proof.
  destruct e as [| |level text|[[path|path data|path|path|src dest]| | | | |] before outcome];
    try discriminate.
  cbn [deletes_transient event_rank call_rank]. intros H. eexists. split; [reflexivity|].
  apply orb_true_iff in H as [H|H]; apply String.eqb_eq in H; subst path; cbn; lia.
Qed.

Lemma injectSEABlob_failed h platform exe d r d1 j executable segment blob options before
    message :
  injectSEABlobIntoNodeExecutable h platform exe (output seaConfig) d = Step r d1 j ->
  let injection :=
    Called (PostjectInject executable segment blob options) before (Failed message) in
  In injection j ->
  exists pre,
    j = pre ++ [injection] /\
    r = Thrown ("Error injecting SEA blob: " +:+ message) /\
    before !! "sea-prep.blob" = Some blob.
Proof.
  cbv zeta. revert r d1 j.
  focus_on (injectSEABlobIntoNodeExecutable h platform exe (output seaConfig) d).
  unfold injectSEABlobIntoNodeExecutable. unfold_fs. unfold_monad. unfold chalk.
  rewrite atob_FUSE_LITERAL.
  remember (if Js.strict_eq platform "macos" then Some "NODE_SEA" else None) as hint.
  run_paths; cbn [app]; intros r d1 j Heq Hin; injection Heq as <- <- <-.
  all: apply (in_filter is_injection) in Hin; [|reflexivity];
    cbn [List.filter is_injection] in Hin.
  all: try (now destruct Hin).
  all: destruct Hin as [Hin|[]]; inversion Hin; subst; clear Hin.
  eexists [_; _]. split; [reflexivity|]. split; [reflexivity|assumption].
Qed.

Lemma pipeline_injection_failed h input icon platform obfuscate exe d r dn j executable
    segment blob options before message :
  pipeline h input icon platform obfuscate exe d = Step r dn j ->
  let injection :=
    Called (PostjectInject executable segment blob options) before (Failed message) in
  In injection j ->
  exists pre,
    j = pre ++ [injection] /\
    r = Thrown ("Error injecting SEA blob: " +:+ message) /\
    before !! "sea-prep.blob" = Some blob.
Proof.
  cbv zeta. intros H Hin. unfold pipeline in H. unfold_binds.
  do 9 walk_past is_injection H Hin.
  match goal with |- context [?a ++ ?b ++ ?c ++ ?e ++ ?f ++ ?g ++ ?i ++ ?k ++ ?l ++ ?tail] =>
    set (front := a ++ b ++ c ++ e ++ f ++ g ++ i ++ k ++ l);
    replace (a ++ b ++ c ++ e ++ f ++ g ++ i ++ k ++ l ++ tail) with (front ++ tail)
      by (subst front; now rewrite <- !app_assoc)
  end.
  apply bind_inv in H
    as [(? & di & ji & jl & Hi & Hlog & ->) | [(msg & Hi & ->) | (c & Hi & ->)]].
  - apply emit_inv in Hlog as (_ & _ & ->).
    apply in_app_iff in Hin as [Hin|[Hin|[]]]; [|discriminate Hin].
    destruct (injectSEABlob_failed _ _ _ _ _ _ _ _ _ _ _ _ _ Hi Hin) as (pre & _ & Hr & _).
    discriminate Hr.
  - destruct (injectSEABlob_failed _ _ _ _ _ _ _ _ _ _ _ _ _ Hi Hin) as (pre & -> & Hr & Hb).
    exists (front ++ pre). rewrite <- app_assoc. auto.
  - destruct (injectSEABlob_failed _ _ _ _ _ _ _ _ _ _ _ _ _ Hi Hin) as (pre & _ & Hr & _).
    discriminate Hr.
Qed.

(** X13. When the injector fails, the error is wrapped as
    "Error injecting SEA blob: ...", logged as unexpected, and the run
    exits with status 1; the failed call is the last call of the run, so
    neither sea-prep.blob, which was on disk when the injector was called,
    nor out.js is deleted. *)
Theorem injector_failure_skips_cleanup h argv d executable segment blob options before
    message :
  let r := sea_builder h argv d in
  let injection :=
    Called (PostjectInject executable segment blob options) before (Failed message) in
  In injection (emitted r) ->
  (exists pre,
     emitted r =
       pre ++ [injection;
               Log LevelError ("An unexpected error occurred: Error injecting SEA blob: "
                                 +:+ message)]) /\
  exit_status r = 1%Z /\
  before !! "sea-prep.blob" = Some blob /\
  existsb deletes_transient (emitted r) = false.
Proof.
  cbv zeta. intros Hin.
  destruct (sea_builder_cases h argv d) as [Hrun|[(code & reason & Hp & Hrun)
       |[(opts & failure & Hp & Hb & Hrun)|(opts & banner & Hp & Hb & Hrun)]]].
  - rewrite Hrun in Hin. destruct Hin as [Hin|[]]. discriminate Hin.
  - rewrite Hrun in Hin. destruct Hin.
  - rewrite Hrun in Hin. destruct Hin.
  - rewrite Hrun in *. clear Hrun. apply main_journal_inv in Hin. rewrite (main_eq _ _ _ _ _ _ _ _ Hb).
    destruct (pipeline_calls_in_order h (Commander.get opts "input") (Commander.get opts "icon")
                (Commander.get opts "platform") (Commander.flag opts "obfuscate")
                (if Js.strict_eq (Commander.get opts "platform") "win32"
                 then "dist/out.exe" else "dist/out") d) as (Horder & _).
    destruct (pipeline _ _ _ _ _ _ d) as [res dn j] eqn:Hpipe. cbn [emitted] in Hin, Horder.
    destruct (pipeline_injection_failed _ _ _ _ _ _ _ _ _ _ _ _ _ _ _ _ Hpipe Hin)
      as (pre & -> & -> & Hblob).
    cbn [emitted exit_status result].
    split; [exists (Splash :: pre); cbn [app]; now rewrite <- app_assoc|].
    split; [reflexivity|]. split; [exact Hblob|].
    apply not_true_is_false. intros Hex. apply existsb_exists in Hex as (e & He & Hf).
    destruct (deletes_transient_rank e Hf) as (n & Hn & Hge).
    rewrite ranks_app in Horder. apply increasing_last in Horder.
    destruct He as [<-|He]; [discriminate Hf|].
    apply in_app_iff in He as [He|[<-|[]]]; [|discriminate Hf].
    apply in_app_iff in He as [He|[<-|[]]]; [|discriminate Hf].
    assert (Hmem : n ∈ ranks pre).
    { apply list_elem_of_omap. exists e. split; [now apply list_elem_of_In|exact Hn]. }
    rewrite Forall_forall in Horder. specialize (Horder n Hmem). cbn in Horder. lia.
Qed.

(** The sample run for linux with an injector that finds no sentinel. *)
Lemma injector_failure_witness :
  exit_status (sea_builder (with_injector (sample_host node20 None no_denial) no_sentinel)
                 (sample_argv "linux" []) sample_disk) = 1%Z.
Proof.
  apply (injector_failure_skips_cleanup
           (with_injector (sample_host node20 None no_denial) no_sentinel)
           (sample_argv "linux" []) sample_disk "dist/out" "NODE_SEA_BLOB" sample_blob
           (sample_options None) sample_before_injection
           "Could not find the sentinel NODE_SEA_FUSE_fce680ab2cc467b6e072b8b5df1996b2 in the binary").
  in_explicit_journal.
Defined.

(** X14. The injection stage calls the injector only if the blob file is
    on disk and can be read; when the file is missing the stage throws
    "The SEA preparation blob file does not exist: ..." after its first log
    line, without any call. *)
Theorem injection_needs_the_blob h platform exe seaBlobPath d :
  let s := injectSEABlobIntoNodeExecutable h platform exe seaBlobPath d in
  (d !! seaBlobPath = None ->
   s = Step (Thrown ("The SEA preparation blob file does not exist: " +:+ seaBlobPath)) d
         [Log LevelInfo ("Injecting SEA blob into " +:+ exe)]) /\
  (existsb is_injection (emitted s) = true ->
   exists blob, d !! seaBlobPath = Some blob /\ os_denies h (OpRead seaBlobPath) d = false).
Proof.
  cbv zeta. split.
  - intros Hmissing. unfold injectSEABlobIntoNodeExecutable. unfold_fs. unfold_monad.
    rewrite atob_FUSE_LITERAL. cbn beta iota.
    apply exists_on_None in Hmissing. rewrite Hmissing. reflexivity.
  - focus_on (injectSEABlobIntoNodeExecutable h platform exe seaBlobPath d).
    unfold injectSEABlobIntoNodeExecutable. unfold_fs. unfold_monad.
    rewrite atob_FUSE_LITERAL.
    remember (if Js.strict_eq platform "macos" then Some "NODE_SEA" else None) as hint.
    run_paths; cbn [emitted app existsb is_injection orb]; intros Hcall;
      try discriminate Hcall; eauto.
Qed.

(** * The files a run can change *)

Lemma confined_refl paths d : confined paths d d.
Proof. now intros p Hp. Qed.

Lemma confined_trans paths d1 d2 d3 :
  confined paths d1 d2 -> confined paths d2 d3 -> confined paths d1 d3.
Proof. intros H12 H23 p Hp. rewrite (H23 p Hp). now apply H12. Qed.

Lemma confined_weaken paths paths' d d' :
  (forall p, In p paths -> In p paths') -> confined paths d d' -> confined paths' d d'.
Proof. intros Hsub H p Hp. apply H. intros Hin. now apply Hp, Hsub. Qed.

Lemma confined_insert paths path data d : In path paths -> confined paths d (<[path := data]> d).
Proof. intros Hin p Hp. apply lookup_insert_ne. now intros ->. Qed.

Lemma confined_delete paths path d : In path paths -> confined paths d (delete path d).
Proof. intros Hin p Hp. apply lookup_delete_ne. now intros ->. Qed.

Lemma touches_only_bind paths {A B} (m : M A) (k : A -> M B) :
  touches_only paths m -> (forall a, touches_only paths (k a)) -> touches_only paths (bind m k).
Proof.
  intros Hm Hk d. unfold bind. specialize (Hm d).
  destruct (m d) as [[a|msg|c] d1 j1]; cbn [disk_after] in *; try exact Hm.
  specialize (Hk a d1). destruct (k a d1) as [r d2 j2]; cbn [disk_after] in *.
  now apply confined_trans with d1.
Qed.

Lemma touches_only_try_catch paths {A} (body : M A) (handler : string -> M A) :
  touches_only paths body -> (forall message, touches_only paths (handler message)) ->
  touches_only paths (try_catch body handler).
Proof.
  intros Hb Hh d. unfold try_catch. specialize (Hb d).
  destruct (body d) as [[a|msg|c] d1 j1]; cbn [disk_after] in *; try exact Hb.
  specialize (Hh msg d1). destruct (handler msg d1) as [r d2 j2]; cbn [disk_after] in *.
  now apply confined_trans with d1.
Qed.

Lemma touches_only_fs_call paths {A} h op syscall path (effect : Disk -> option (A * Disk)) :
  (forall d a d', effect d = Some (a, d') -> confined paths d d') ->
  touches_only paths (fs_call h op syscall path effect).
Proof.
  intros H d. unfold fs_call.
  destruct (os_denies h op d); [apply confined_refl|].
  destruct (effect d) as [[a d']|] eqn:He; [|apply confined_refl]. now apply (H d a).
Qed.

Lemma touches_only_fs_write paths h op syscall named target source :
  In target paths -> touches_only paths (fs_write h op syscall named target source).
Proof.
  intros Hin d. unfold fs_write.
  destruct (os_denies h op d); [apply confined_refl|].
  destruct (source d) as [data|]; [|apply confined_refl].
  destruct (os_cuts h op d); now apply confined_insert.
Qed.

Lemma touches_only_tool paths c answer :
  (forall d d', answer d = inr d' -> confined paths d d') -> touches_only paths (tool c answer).
Proof.
  intros H d. unfold tool. destruct (answer d) as [e|d'] eqn:Ha; [apply confined_refl|].
  now apply H.
Qed.

Lemma touches_only_silent paths {A} (m : M A) :
  (forall d, disk_after (m d) = d) -> touches_only paths m.
Proof. intros H d. rewrite H. apply confined_refl. Qed.

Lemma touches_only_spawnNode paths h path :
  ToolContracts h -> In (output seaConfig) paths -> touches_only paths (spawnNode h path).
Proof.
  intros Htools Hin d. unfold spawnNode.
  destruct (node_child h _ d) as [msg|[[[code out] err] d']] eqn:Hchild; [apply confined_refl|].
  apply (node_writes_blob h Htools) in Hchild.
  assert (confined paths d d').
  { apply (confined_weaken [output seaConfig]); [|exact Hchild].
    intros p [<-|[]]. exact Hin. }
  now destruct (Js.is_zero code).
Qed.

Ltac fs_effect :=
  let d := fresh "d" in
  let a := fresh "a" in
  let d' := fresh "d" in
  let H := fresh "H" in
  intros d a d' H; try (destruct (d !! _); [|discriminate H]); injection H as <- <-;
  first [ apply confined_refl
        | apply confined_insert; cbn; tauto
        | apply confined_delete; cbn; tauto ].

Ltac touches_only_steps :=
  repeat lazymatch goal with
    | |- touches_only _ (bind _ _) => apply touches_only_bind; [|intro]
    | |- touches_only _ (try_catch _ _) => apply touches_only_try_catch; [|intro]
    | |- touches_only _ (fs_call _ _ _ _ _) => apply touches_only_fs_call; fs_effect
    | |- touches_only _ (fs_write _ _ _ _ _ _) => apply touches_only_fs_write; cbn; tauto
    | |- touches_only _ (emit _) => apply touches_only_silent; reflexivity
    | |- touches_only _ (ret _) => apply touches_only_silent; reflexivity
    | |- touches_only _ (throw _) => apply touches_only_silent; reflexivity
    | |- touches_only _ (existsSync _) => apply touches_only_silent; reflexivity
    | |- touches_only _ (lift ?v) => apply touches_only_silent; destruct v; reflexivity
    | |- touches_only _ (if ?b then _ else _) => destruct b
    | |- touches_only _ (match ?x with _ => _ end) => destruct x
    end.

Lemma pipeline_touches_only h input icon platform obfuscate exe :
  ToolContracts h ->
  touches_only ["out.js"; "sea-config.json"; "sea-prep.blob"; exe]
    (pipeline h input icon platform obfuscate exe).
Proof.
  intros Htools.
  unfold_stages. unfold_binds. unfold_logs.
  unfold readFileSync, writeFileSync, unlinkSync, mkdirSync_recursive, copyFileSync,
    outputFile, JsConfuser_call.
  cbn [output seaConfig]. cbv zeta.
  touches_only_steps.
  all: try (apply touches_only_silent; intros d; now destruct (JsConfuser_obfuscate h _)).
  all: try (apply touches_only_spawnNode; [exact Htools|cbn; tauto]).
  all: apply touches_only_tool; intros d d' Hcall.
  all: lazymatch type of Hcall with
       | esbuild_build _ _ _ _ = _ =>
           apply (esbuild_writes_outfile h Htools) in Hcall;
           apply (confined_weaken ["out.js"]); [cbn; tauto|exact Hcall]
       | rcedit _ _ _ _ = _ =>
           apply (rcedit_edits_executable h Htools) in Hcall as (Hcall & _);
           apply (confined_weaken [exe]); [cbn; tauto|exact Hcall]
       | postject_inject _ _ _ _ _ _ = _ =>
           apply (postject_edits_executable h Htools) in Hcall as (Hcall & _);
           apply (confined_weaken [exe]); [cbn; tauto|exact Hcall]
       end.
Qed.

(** X15. On a host whose tools keep to their interfaces a run, failed or
    not, changes no file other than out.js, sea-config.json, sea-prep.blob
    and the output path of its platform; a command line that commander
    refuses, or answers with the help or the version, leaves every file as
    it was. *)
Theorem run_touches_only_its_files h argv d :
  ToolContracts h ->
  let r := sea_builder h argv d in
  (forall opts,
     Commander.parse program_options "1.0.0" (drop 2 argv) = Commander.Parsed opts ->
     forall executableOutputPath,
       getExecutableOutputPath (Commander.get opts "platform") = inr executableOutputPath ->
       confined ["out.js"; "sea-config.json"; "sea-prep.blob"; executableOutputPath]
         d (disk_after r)) /\
  (forall code reason,
     Commander.parse program_options "1.0.0" (drop 2 argv) = Commander.Exit code reason ->
     disk_after r = d).
Proof.
  intros Htools. cbv zeta.
  destruct (sea_builder_cases h argv d) as [Hrun|[(code & reason & Hp & Hrun)
       |[(opts & failure & Hp & Hb & Hrun)|(opts & banner & Hp & Hb & Hrun)]]];
    rewrite Hrun; cbn [disk_after].
  - split; [intros; apply confined_refl|reflexivity].
  - split; [intros; apply confined_refl|reflexivity].
  - split; [intros; apply confined_refl|reflexivity].
  - split; [|intros code reason Hexit; congruence].
    intros opts' Hparse exe Hexe. rewrite Hp in Hparse. injection Hparse as <-.
    rewrite getExecutableOutputPath_eq in Hexe. injection Hexe as <-.
    rewrite (main_eq _ _ _ _ _ _ _ _ Hb).
    pose proof (pipeline_touches_only h (Commander.get opts "input") (Commander.get opts "icon")
                  (Commander.get opts "platform") (Commander.flag opts "obfuscate")
                  (if Js.strict_eq (Commander.get opts "platform") "win32"
                   then "dist/out.exe" else "dist/out") Htools d) as Hframe.
    now destruct (pipeline _ _ _ _ _ _ d) as [[a|msg|c] d1 journal].
Qed.

(** The sample run with sea-prep.blob locked fails and leaves server.ts alone. *)
Lemma frame_witness :
  disk_after (sea_builder (sample_host node20 None blob_locked) (sample_argv "linux" ["-o"])
                sample_disk) !! "server.ts" = Some "console.log(1)".
Proof.
  destruct (run_touches_only_its_files (sample_host node20 None blob_locked)
              (sample_argv "linux" ["-o"]) sample_disk
              (sample_host_keeps_contracts node20 None blob_locked)) as (Hframe & _).
  rewrite (Hframe (sample_opts "linux" true) eq_refl "dist/out" eq_refl "server.ts").
  - reflexivity.
  - cbn. intuition discriminate.
Defined.

(** X16. On a host whose tools keep to their interfaces a run that exits
    with status 0 leaves the executable at its output path and none of
    out.js, sea-config.json and sea-prep.blob, whatever the icon option
    and the platform string. *)
Theorem successful_run_leaves_the_executable h argv d opts executableOutputPath :
  ToolContracts h ->
  Commander.parse program_options "1.0.0" (drop 2 argv) = Commander.Parsed opts ->
  getExecutableOutputPath (Commander.get opts "platform") = inr executableOutputPath ->
  let r := sea_builder h argv d in
  exit_status r = 0%Z ->
  is_Some (disk_after r !! executableOutputPath) /\
  disk_after r !! "out.js" = None /\
  disk_after r !! "sea-config.json" = None /\
  disk_after r !! "sea-prep.blob" = None.
Proof.
  intros Htools Hparse Hexe. cbv zeta. intros Hstatus.
  rewrite getExecutableOutputPath_eq in Hexe. injection Hexe as <-.
  destruct (sea_builder_cases h argv d) as [Hrun|[(code & reason & Hp & Hrun)
       |[(opts' & failure & Hp & Hb & Hrun)|(opts' & banner & Hp & Hb & Hrun)]]].
  - rewrite Hrun in Hstatus. discriminate Hstatus.
  - congruence.
  - rewrite Hrun in Hstatus. discriminate Hstatus.
  - rewrite Hp in Hparse. injection Hparse as ->.
    rewrite Hrun in *. clear Hrun.
    apply main_success in Hstatus as (j & Hpipe).
    apply (pipeline_returned h _ _ _ _ _ _ _ _ _ Htools) in Hpipe;
      [|destruct (Js.strict_eq _ _); discriminate..].
    tauto.
Qed.

(** The sample run for win32 with an icon option. *)
Lemma successful_run_witness :
  let r := sea_builder (sample_host node20 (Some "/home/dev/.appdata") no_denial)
             (sample_argv "win32" ["--icon"; "server.ts"]) sample_disk in
  is_Some (disk_after r !! "dist/out.exe") /\
  disk_after r !! "out.js" = None /\
  disk_after r !! "sea-config.json" = None /\
  disk_after r !! "sea-prep.blob" = None.
Proof.
  apply (successful_run_leaves_the_executable
           (sample_host node20 (Some "/home/dev/.appdata") no_denial)
           (sample_argv "win32" ["--icon"; "server.ts"]) sample_disk
           (<["icon" := Commander.Str "server.ts"]> (sample_opts "win32" false))).
  - apply sample_host_keeps_contracts.
  - vm_compute. reflexivity.
  - reflexivity.
  - vm_compute. reflexivity.
Defined.

(** * A run stops at the first failure that is not the icon editor's *)

Lemma hard_failure_is_call e : hard_failure e = true -> is_call e = true.
Proof. destruct e as [| | |[] ? []]; cbn; congruence. Qed.

Lemma stops_app_clean j1 j2 :
  existsb hard_failure j1 = false -> stops_at_failure (j1 ++ j2) = stops_at_failure j2.
Proof.
  induction j1 as [|e j1 IH]; [reflexivity|]. cbn [existsb app stops_at_failure].
  intros H. apply orb_false_iff in H as (-> & H). now apply IH.
Qed.

Lemma stops_app_silent j1 j2 :
  stops_at_failure j1 = true -> existsb is_call j2 = false -> stops_at_failure (j1 ++ j2) = true.
Proof.
  intros H1 H2. induction j1 as [|e j1 IH]; cbn [app stops_at_failure] in *.
  - induction j2 as [|e j2 IH]; [reflexivity|]. cbn [existsb stops_at_failure] in *.
    apply orb_false_iff in H2 as (He & H2).
    destruct (hard_failure e) eqn:Hh; [|now apply IH].
    apply hard_failure_is_call in Hh. congruence.
  - destruct (hard_failure e); [|now apply IH].
    rewrite existsb_app, H2, orb_false_r. exact H1.
Qed.

Lemma stops_split pre e post :
  stops_at_failure (pre ++ e :: post) = true -> hard_failure e = true ->
  existsb is_call post = false.
Proof.
  intros H He. induction pre as [|x pre IH]; cbn [app stops_at_failure] in H.
  - rewrite He in H. now apply negb_true_iff in H.
  - destruct (hard_failure x); [|now apply IH].
    apply negb_true_iff in H. rewrite existsb_app in H. cbn [existsb] in H.
    rewrite (hard_failure_is_call e He), orb_true_r in H. discriminate H.
Qed.

Lemma fails_fast_bind {A B} (m : M A) (k : A -> M B) :
  fails_fast m -> (forall a, fails_fast (k a)) -> fails_fast (bind m k).
Proof.
  intros Hm Hk d. unfold bind. specialize (Hm d).
  destruct (m d) as [[a|msg|c] d1 j1]; cbn [emitted result] in *.
  2, 3: destruct Hm as (Hstop & Hthrown); (split; [exact Hstop|]); intros H;
    destruct (Hthrown H) as (message & Hr); first [discriminate Hr|injection Hr as ->; eauto].
  destruct Hm as (_ & Hm).
  assert (Hclean : existsb hard_failure j1 = false).
  { apply not_true_is_false. intros H. destruct (Hm H) as (message & Hr). discriminate Hr. }
  specialize (Hk a d1). destruct (k a d1) as [r d2 j2]; cbn [emitted result] in *.
  rewrite (stops_app_clean j1 j2 Hclean), existsb_app, Hclean. exact Hk.
Qed.

Lemma fails_fast_rethrow {A} (body : M A) (wrap : string -> string) :
  fails_fast body -> fails_fast (try_catch body (fun message => throw (wrap message))).
Proof.
  intros Hb d. unfold try_catch, throw. specialize (Hb d).
  destruct (body d) as [[a|msg|c] d1 j1]; cbn [emitted result] in *; try exact Hb.
  rewrite app_nil_r. destruct Hb as (Hstop & _). split; [exact Hstop|eauto].
Qed.

Lemma fails_fast_single {A} (r : completion A) c before outcome :
  (forall message, outcome = Failed message -> r = Thrown message) ->
  stops_at_failure [Called c before outcome] = true /\
  (existsb hard_failure [Called c before outcome] = true ->
   exists message, r = Thrown message).
Proof.
  intros H. split.
  - cbn [stops_at_failure]. now destruct (hard_failure _).
  - cbn [existsb]. rewrite orb_false_r. intros Hh.
    destruct outcome as [after|message]; [destruct c; discriminate Hh|]. eauto.
Qed.

Lemma fails_fast_fs_call {A} h op syscall path (effect : Disk -> option (A * Disk)) :
  fails_fast (fs_call h op syscall path effect).
Proof.
  intros d. unfold fs_call.
  destruct (os_denies h op d); [|destruct (effect d) as [[a d']|]]; cbn [emitted result];
    apply fails_fast_single; intros message [= <-]; reflexivity || discriminate.
Qed.

Lemma fails_fast_fs_write h op syscall named target source :
  fails_fast (fs_write h op syscall named target source).
Proof.
  intros d. unfold fs_write.
  destruct (os_denies h op d); [|destruct (source d) as [data|]; [destruct (os_cuts h op d)|]];
    cbn [emitted result]; apply fails_fast_single; intros message [= <-];
    reflexivity || discriminate.
Qed.

Lemma fails_fast_tool c answer : fails_fast (tool c answer).
Proof.
  intros d. unfold tool. destruct (answer d); cbn [emitted result];
    apply fails_fast_single; intros message H; now inversion H.
Qed.

Lemma fails_fast_JsConfuser_call h code : fails_fast (JsConfuser_call h code).
Proof.
  intros d. unfold JsConfuser_call. destruct (JsConfuser_obfuscate h code); cbn [emitted result];
    apply fails_fast_single; intros message H; now inversion H.
Qed.

Lemma fails_fast_spawnNode h path : fails_fast (spawnNode h path).
Proof.
  intros d. unfold spawnNode.
  destruct (node_child h _ d) as [msg|[[[code out] err] d']]; [|destruct (Js.is_zero code)];
    cbn [emitted result]; apply fails_fast_single; intros message H; now inversion H.
Qed.

Lemma fails_fast_silent {A} (m : M A) :
  (forall d, existsb is_call (emitted (m d)) = false) -> fails_fast m.
Proof.
  intros H d. specialize (H d).
  assert (Hclean : existsb hard_failure (emitted (m d)) = false).
  { apply not_true_is_false. intros Hex. apply existsb_exists in Hex as (e & He & Hh).
    apply hard_failure_is_call in Hh.
    assert (existsb is_call (emitted (m d)) = true) by (apply existsb_exists; eauto).
    congruence. }
  split; [|rewrite Hclean; discriminate].
  rewrite <- (app_nil_l (emitted (m d))). now apply stops_app_silent.
Qed.

Lemma fails_fast_setIcon h executable iconPath : fails_fast (setIcon h executable iconPath).
Proof.
  intros d. destruct iconPath as [icon|].
  - rewrite setIcon_eq. cbv zeta. destruct (rcedit h executable _ d); cbn [emitted result];
      (split; [reflexivity|discriminate]).
  - split; [reflexivity|discriminate].
Qed.

Ltac fails_fast_steps :=
  repeat lazymatch goal with
    | |- fails_fast (bind _ _) => apply fails_fast_bind; [|intro]
    | |- fails_fast (try_catch _ (fun message => throw _)) =>
        apply (fails_fast_rethrow _ (fun message => _))
    | |- fails_fast (setIcon _ _ _) => apply fails_fast_setIcon
    | |- fails_fast (fs_call _ _ _ _ _) => apply fails_fast_fs_call
    | |- fails_fast (fs_write _ _ _ _ _ _) => apply fails_fast_fs_write
    | |- fails_fast (tool _ _) => apply fails_fast_tool
    | |- fails_fast (JsConfuser_call _ _) => apply fails_fast_JsConfuser_call
    | |- fails_fast (spawnNode _ _) => apply fails_fast_spawnNode
    | |- fails_fast (emit _) => apply fails_fast_silent; reflexivity
    | |- fails_fast (ret _) => apply fails_fast_silent; reflexivity
    | |- fails_fast (throw _) => apply fails_fast_silent; reflexivity
    | |- fails_fast (existsSync _) => apply fails_fast_silent; reflexivity
    | |- fails_fast (lift ?v) => apply fails_fast_silent; destruct v; reflexivity
    | |- fails_fast (if ?b then _ else _) => destruct b
    | |- fails_fast (match ?x with _ => _ end) => destruct x
    end.

Lemma pipeline_fails_fast h input icon platform obfuscate exe :
  fails_fast (pipeline h input icon platform obfuscate exe).
Proof.
  unfold pipeline, bundleProject, obfuscateOutputFile, generateSEABlob, createExecutableCopy,
    setExecutableIcon, injectSEABlobIntoNodeExecutable.
  unfold_binds. unfold_logs.
  unfold readFileSync, writeFileSync, unlinkSync, mkdirSync_recursive, copyFileSync.
  cbv zeta. fails_fast_steps.
Qed.

(** X17. A failed call, other than one of the icon editor, is the last
    call of its run, and the run exits with status 1. *)
Theorem run_stops_at_first_failure h argv d pre call before message post :
  let r := sea_builder h argv d in
  emitted r = pre ++ Called call before (Failed message) :: post ->
  (forall executable icon, call <> Rcedit executable icon) ->
  exit_status r = 1%Z /\ existsb is_call post = false.
Proof.
  cbv zeta. intros Hj Hicon.
  assert (Hhard : hard_failure (Called call before (Failed message)) = true)
    by (destruct call; try reflexivity; now contradiction (Hicon executable icon)).
  destruct (sea_builder_cases h argv d) as [Hrun|[(code & reason & Hp & Hrun)
       |[(opts & failure & Hp & Hb & Hrun)|(opts & banner & Hp & Hb & Hrun)]]].
  - rewrite Hrun in *. cbn [emitted] in Hj. split; [reflexivity|].
    destruct pre as [|x [|y pre]]; discriminate Hj.
  - rewrite Hrun in Hj. destruct pre; discriminate Hj.
  - rewrite Hrun in Hj. destruct pre; discriminate Hj.
  - rewrite Hrun, (main_eq _ _ _ _ _ _ _ _ Hb) in *. clear Hrun.
    destruct (pipeline_fails_fast h (Commander.get opts "input") (Commander.get opts "icon")
                (Commander.get opts "platform") (Commander.flag opts "obfuscate")
                (if Js.strict_eq (Commander.get opts "platform") "win32"
                 then "dist/out.exe" else "dist/out") d) as (Hstop & Hthrown).
    destruct (pipeline _ _ _ _ _ _ d) as [res d1 journal]; cbn [emitted result] in *.
    assert (Hin : In (Called call before (Failed message)) journal).
    { assert (Hmem : In (Called call before (Failed message))
                       (pre ++ Called call before (Failed message) :: post))
        by (apply in_app_iff; right; now left).
      rewrite <- Hj in Hmem. destruct res as [a|msg|c]; cbn [emitted] in Hmem.
      - destruct Hmem as [Hmem|Hmem]; [discriminate Hmem|exact Hmem].
      - destruct Hmem as [Hmem|Hmem]; [discriminate Hmem|].
        apply in_app_iff in Hmem as [Hmem|[Hmem|[]]]; [exact Hmem|discriminate Hmem].
      - destruct Hmem as [Hmem|Hmem]; [discriminate Hmem|exact Hmem]. }
    destruct Hthrown as (msg & ->); [apply existsb_exists; eauto|].
    cbn [emitted exit_status result] in *. split; [reflexivity|].
    apply (stops_split pre (Called call before (Failed message))); [|exact Hhard].
    rewrite <- Hj. cbn [stops_at_failure hard_failure].
    apply stops_app_silent; [exact Hstop|reflexivity].
Qed.

(** The failed bundling on an empty disk is the last call of its run. *)
Lemma first_failure_witness :
  exit_status (sea_builder (sample_host node20 None no_denial) (sample_argv "linux" []) ∅)
    = 1%Z.
Proof.
  apply (run_stops_at_first_failure (sample_host node20 None no_denial)
           (sample_argv "linux" []) ∅ [Splash]
           (EsbuildBuild (Some "server.ts") "out.js") ∅ "Could not resolve server.ts"
           [Log LevelError "An unexpected error occurred: Could not resolve server.ts"]).
  - reflexivity.
  - discriminate.
Defined.

(** * The last line of the log *)

Lemma pipeline_returned_last h input icon platform obfuscate exe d a dn j :
  pipeline h input icon platform obfuscate exe d = Step (Returned a) dn j ->
  exists pre, j = pre ++ [Log LevelInfo "SEA blob injected successfully"].
Proof.
  intros H. unfold pipeline in H. unfold_binds.
  repeat (let Hr := fresh "Hr" in
          apply bind_inv in H as [(? & ? & ? & ? & _ & H & ->)|[(? & _ & Hr)|(? & _ & Hr)]];
          [|discriminate Hr..]).
  apply emit_inv in H as (_ & _ & ->). eexists. rewrite !app_assoc. reflexivity.
Qed.

(** X18. The last event of a run is the log line
    "SEA blob injected successfully" exactly when the run exits with
    status 0 and its journal is not empty (a run that the command-line
    parser ends, as for --help or --version, has an empty journal). *)
Theorem success_is_the_last_log_line h argv d :
  let r := sea_builder h argv d in
  last (emitted r) = Some (Log LevelInfo "SEA blob injected successfully") <->
  exit_status r = 0%Z /\ emitted r <> [].
Proof.
  cbv zeta.
  destruct (sea_builder_cases h argv d) as [Hrun|[(code & reason & Hp & Hrun)
       |[(opts & failure & Hp & Hb & Hrun)|(opts & banner & Hp & Hb & Hrun)]]];
    rewrite Hrun.
  - cbn. split; [discriminate|intros (H & _); discriminate H].
  - cbn. split; [discriminate|intros (_ & H); now contradiction H].
  - cbn. split; [discriminate|intros (H & _); discriminate H].
  - rewrite (main_eq _ _ _ _ _ _ _ _ Hb).
    pose proof (pipeline_never_exits h (Commander.get opts "input") (Commander.get opts "icon")
                  (Commander.get opts "platform") (Commander.flag opts "obfuscate")
                  (if Js.strict_eq (Commander.get opts "platform") "win32"
                   then "dist/out.exe" else "dist/out") d) as Hexit.
    destruct (pipeline _ _ _ _ _ _ d) as [[a|msg|c] d1 journal] eqn:Hpipe;
      cbn [emitted exit_status result] in *.
    + apply pipeline_returned_last in Hpipe as (pre & ->).
      rewrite app_comm_cons, last_snoc. split; [intros _; split; [reflexivity|discriminate]|auto].
    + rewrite app_comm_cons, last_snoc. split; [discriminate|intros (H & _); discriminate H].
    + now contradiction (Hexit c).
Qed.

(** * The calls of a run are the scripted ones *)

Section Scripted.

Context (h : Host) (opts : gmap string Commander.value).

Let platform := Commander.get opts "platform".
Let icon := Commander.get opts "icon".
Let exe := if Js.strict_eq platform "win32" then "dist/out.exe" else "dist/out".
Let P := scripted h opts.

Lemma scripted_bundleProject : journal_all P (bundleProject h (Commander.get opts "input")).
Proof. unfold bundleProject. journal_all_steps. now split. Qed.

Lemma scripted_obfuscateOutputFile : journal_all P (obfuscateOutputFile h outputFile).
Proof.
  intros d. focus_on (obfuscateOutputFile h outputFile d).
  unfold obfuscateOutputFile, outputFile. unfold_fs. unfold_monad.
  run_paths; cbn [emitted app].
  all: all_events ltac:(cbn; auto).
Qed.

Lemma scripted_generateSEABlob : journal_all P (generateSEABlob h seaConfig).
Proof.
  intros d. focus_on (generateSEABlob h seaConfig d).
  unfold generateSEABlob. unfold_fs. unfold_monad.
  run_paths; cbn [emitted app].
  all: all_events ltac:(cbn; auto).
Qed.

Lemma scripted_createExecutableCopy : journal_all P (createExecutableCopy h exe).
Proof.
  unfold createExecutableCopy, mkdirSync_recursive, copyFileSync. unfold_binds.
  journal_all_steps.
  - subst exe. cbn. now destruct (Js.strict_eq platform "win32").
  - now split.
Qed.

Lemma scripted_setIcon source :
  platform = Some "win32" ->
  icon = Some source \/
  (Js.truthy icon = false /\
   Path.join [env_APPDATA h; Some "npm"; Some "node_modules"; Some "sea-builder";
              Some "default.ico"] = inr source) ->
  journal_all P (setIcon h "dist/out.exe" (Some source)).
Proof.
  intros Hwin Hsource d. rewrite setIcon_eq. cbv zeta.
  destruct (rcedit h "dist/out.exe" _ d); cbn [emitted].
  all: all_events ltac:(first [exact I | cbn; split; [reflexivity|]; split; [exact Hwin|]; eauto]).
Qed.

Lemma scripted_setExecutableIcon : journal_all P (setExecutableIcon h exe icon platform).
Proof.
  unfold setExecutableIcon. unfold_binds. unfold_logs.
  apply journal_all_bind; [apply journal_all_existsSync|intros onDisk].
  pose proof (strict_eq_spec platform "win32") as Hwin. subst exe.
  destruct (Js.truthy icon) eqn:Hgiven, onDisk, (Js.strict_eq platform "win32") eqn:Hplat;
    cbn [andb negb].
  all: try (apply journal_all_emit; exact I).
  - destruct icon as [source|] eqn:Hicon; [|discriminate Hgiven].
    apply scripted_setIcon; [now apply Hwin|]. left. exact Hicon.
  - destruct (Path.join _) as [message|source] eqn:Hjoin; cbn [lift].
    + intros d e [].
    + apply journal_all_bind_ret. apply scripted_setIcon; [now apply Hwin|]. right. now split.
  - destruct (Path.join _) as [message|source] eqn:Hjoin; cbn [lift].
    + intros d e [].
    + apply journal_all_bind_ret. apply scripted_setIcon; [now apply Hwin|]. right. now split.
Qed.

Lemma scripted_injectSEABlob :
  journal_all P (injectSEABlobIntoNodeExecutable h platform exe (output seaConfig)).
Proof.
  unfold injectSEABlobIntoNodeExecutable, readFileSync, unlinkSync, outputFile.
  unfold_binds. unfold_logs. cbv zeta.
  journal_all_steps; cbn; auto.
Qed.

Lemma scripted_pipeline :
  journal_all P
    (pipeline h (Commander.get opts "input") icon platform (Commander.flag opts "obfuscate") exe).
Proof.
  apply journal_all_pipeline.
  - intros text. exact I.
  - apply scripted_bundleProject.
  - intros _. apply scripted_obfuscateOutputFile.
  - apply scripted_generateSEABlob.
  - apply scripted_createExecutableCopy.
  - apply scripted_setExecutableIcon.
  - apply scripted_injectSEABlob.
Qed.

End Scripted.

(** X19. Every call of a run is one the script prescribes: the bundler
    on the input option and out.js; reads of out.js and sea-prep.blob only;
    the obfuscator on the content of out.js; writes of out.js and of the
    serialised descriptor to sea-config.json only; the child process with
    --experimental-sea-config sea-config.json; deletions of the three
    transient files only; the directory dist; the copy of process.execPath
    to the output path; the icon editor, on win32, on dist/out.exe and the
    icon option, or the default icon under APPDATA, resolved against the
    working directory. *)
Theorem calls_are_the_scripted_ones h argv d opts e :
  Commander.parse program_options "1.0.0" (drop 2 argv) = Commander.Parsed opts ->
  In e (emitted (sea_builder h argv d)) ->
  scripted h opts e.
Proof.
  intros Hparse. revert e. apply journal_all_run; [exact I|exact I|intros; exact I|].
  intros opts' Hp. rewrite Hp in Hparse. injection Hparse as ->.
  apply scripted_pipeline.
Qed.

(** The child process of the sample run with -o is started as scripted. *)
Lemma scripted_witness :
  scripted (sample_host node20 None no_denial) (sample_opts "linux" true)
    (Called (SpawnNode ["--experimental-sea-config"; "sea-config.json"]) sample_before_spawn
       (Done sample_after_spawn)).
Proof.
  apply (calls_are_the_scripted_ones (sample_host node20 None no_denial)
           (sample_argv "linux" ["-o"]) sample_disk).
  - vm_compute. reflexivity.
  - in_explicit_journal.
Defined.
